(** * angular-changes-manager: the grouping-and-dispatch engine

    A shallow embedding of [src/ChangesManager.ts] (the class with the
    [strict] flag, [onChanges] hook and [executeCallbacks]) and of
    [ChangesManager.utils.ts], followed by the properties of the dispatcher.

    Conventions of the embedding
    - JavaScript values are the inductive [value]; numbers are IEEE doubles
      ([spec_float]), objects and functions are known by their identity only.
    - A plain object used as a dictionary ([SimpleChanges], the changes
      summary, the host component) is a [gmap string _].
    - A JavaScript [Map] or [Set] is an insertion-ordered list without
      duplicate keys, because [Array.from] exposes that order.
    - What a JavaScript function does when called is given by an oracle
      [run : FnId -> ChangeBatch -> outcome value]; the calls made are logged
      in a trace of [event]s, and an exception stops the computation. *)

From Stdlib Require Import SpecFloat Ascii.
From stdpp Require Import gmap strings list sorting.

Set Warnings "-clear-no-such-hyp".

Open Scope string_scope.
Open Scope list_scope.

(** ** JavaScript values *)

Definition FnId := nat.

Inductive value :=
  | VUndefined
  | VNull
  | VBool (b : bool)
  | VNumber (x : spec_float)
  | VString (s : string)
  | VObject (ref : nat)
  | VFunction (f : FnId).

#[global] Instance spec_float_eq_dec : EqDecision spec_float.
Proof. solve_decision. Defined.

#[global] Instance value_eq_dec : EqDecision value.
Proof. solve_decision. Defined.

Definition NaN : spec_float := S754_nan.
Definition pos_zero : spec_float := S754_zero false.
Definition neg_zero : spec_float := S754_zero true.

(** [SameValue] on numbers: NaN is the same value as NaN, and the two zeros
    differ. *)
Definition number_sameValue (x y : spec_float) : bool :=
  match x, y with
  | S754_nan, S754_nan => true
  | S754_zero s1, S754_zero s2 => Bool.eqb s1 s2
  | S754_infinity s1, S754_infinity s2 => Bool.eqb s1 s2
  | S754_finite s1 m1 e1, S754_finite s2 m2 e2 =>
      Bool.eqb s1 s2 && Pos.eqb m1 m2 && Z.eqb e1 e2
  | _, _ => false
  end.

(** [Object.is]: values of different types differ, primitives are compared
    by value, objects and functions by reference. *)
Definition Object_is (x y : value) : bool :=
  match x, y with
  | VUndefined, VUndefined => true
  | VNull, VNull => true
  | VBool a, VBool b => Bool.eqb a b
  | VNumber a, VNumber b => number_sameValue a b
  | VString a, VString b => String.eqb a b
  | VObject a, VObject b => Nat.eqb a b
  | VFunction a, VFunction b => Nat.eqb a b
  | _, _ => false
  end.

(** [ToBoolean]. *)
Definition truthy (v : value) : bool :=
  match v with
  | VUndefined | VNull => false
  | VBool b => b
  | VNumber (S754_zero _) | VNumber S754_nan => false
  | VNumber _ => true
  | VString s => negb (String.eqb s "")
  | VObject _ | VFunction _ => true
  end.

(** [a ?? b] *)
Definition nullish (v : value) : bool :=
  match v with VUndefined | VNull => true | _ => false end.

Definition coalesce (a b : value) : value := if nullish a then b else a.

(** Keys of a [Map] and members of a [Set] are compared with SameValueZero:
    the key [-0] is stored as [+0], after which SameValueZero is [Object.is]. *)
Definition canon (v : value) : value :=
  match v with
  | VNumber (S754_zero true) => VNumber (S754_zero false)
  | _ => v
  end.

(** ** Change records ([ChangesManager.types.ts], [@angular/core]) *)

Module SimpleChange.
Record t := mk {
  previousValue : value;
  currentValue : value;
  firstChange : bool
}.
End SimpleChange.

Module TChange.
Record t := mk {
  previousValue : value;
  currentValue : value;
  firstChange : bool;
  didChange : bool
}.
End TChange.

Abbreviation SimpleChanges := (gmap string SimpleChange.t).
Abbreviation ChangeBatch := (gmap string TChange.t).

(** ** [ChangesManager.utils.ts] *)

(** [simpleChange ?? {}] followed by the destructuring: the three fields of
    the record, or [undefined] for each of them when the record is absent. *)
Definition didPropertyChange (simpleChange : option SimpleChange.t) : bool :=
  let previousValue :=
    from_option SimpleChange.previousValue VUndefined simpleChange in
  let currentValue :=
    from_option SimpleChange.currentValue VUndefined simpleChange in
  let firstChange := from_option SimpleChange.firstChange false simpleChange in
  let shouldIgnoreChange :=
    firstChange || bool_decide (simpleChange = None) in
  if shouldIgnoreChange then false
  else
    let isValueTheSame := Object_is currentValue previousValue in
    if isValueTheSame then false else true.

Definition summarise (simpleChange : SimpleChange.t) : TChange.t :=
  {| TChange.previousValue := SimpleChange.previousValue simpleChange;
     TChange.currentValue := SimpleChange.currentValue simpleChange;
     TChange.firstChange := SimpleChange.firstChange simpleChange;
     TChange.didChange := didPropertyChange (Some simpleChange) |}.

(** [Object.keys(simpleChanges).reduce(...)]: one entry per reported
    property, the record spread and extended with [didChange]. *)
Definition getChangesSummary (simpleChanges : SimpleChanges) : ChangeBatch :=
  summarise <$> simpleChanges.

(** ** Calls, exceptions and the trace of a computation *)

Inductive exn :=
  | TypeError
  | Thrown (v : value).

Inductive outcome (A : Type) :=
  | Returns (a : A)
  | Throws (e : exn).
Arguments Returns {A} a.
Arguments Throws {A} e.

#[global] Instance exn_eq_dec : EqDecision exn.
Proof. solve_decision. Defined.

#[global] Instance outcome_eq_dec `{EqDecision A} : EqDecision (outcome A).
Proof. solve_decision. Defined.

(** What the outside world can observe of a dispatch: which function was
    called in which role and with which argument, and the re-render signal
    [changeDetectorRef.detectChanges()]. *)
Inductive event :=
  | EvValidator (f : FnId) (arg : ChangeBatch)
  | EvHandler (f : FnId) (arg : ChangeBatch)
  | EvOnChanges (f : FnId) (arg : ChangeBatch)
  | EvDetectChanges.

(** A computation logs events and either returns or throws; nothing runs
    after a throw, since the source has no [try]/[catch]. *)
Record M (A : Type) := mkM { trace : list event; result : outcome A }.
Arguments mkM {A} trace result.
Arguments trace {A} m.
Arguments result {A} m.

#[global] Instance M_ret : MRet M := λ A a, mkM [] (Returns a).

#[global] Instance M_bind : MBind M := λ A B k m,
  match result m with
  | Returns a => mkM (trace m ++ trace (k a)) (result (k a))
  | Throws e => mkM (trace m) (Throws e)
  end.

Definition throw {A} (e : exn) : M A := mkM [] (Throws e).

Definition emit (ev : event) : M unit := mkM [ev] (Returns tt).

(** [array.forEach(f)] *)
Fixpoint forEach {A} (f : A → M unit) (l : list A) : M unit :=
  match l with
  | [] => mret tt
  | x :: l' => f x;; forEach f l'
  end.

(** [array.some(f)]: stops at the first element accepted. *)
Fixpoint some {A} (f : A → M bool) (l : list A) : M bool :=
  match l with
  | [] => mret false
  | x :: l' => b ← f x; if b : bool then mret true else some f l'
  end.

(** [array.every(f)]: stops at the first element rejected. *)
Fixpoint every {A} (f : A → M bool) (l : list A) : M bool :=
  match l with
  | [] => mret true
  | x :: l' => b ← f x; if b : bool then every f l' else mret false
  end.

(** [array.reduce(f, init)] *)
Fixpoint reduce {A B} (f : B → A → M B) (l : list A) (acc : B) : M B :=
  match l with
  | [] => mret acc
  | x :: l' => acc' ← f acc x; reduce f l' acc'
  end.

(** ** [Map] and [Set]: insertion-ordered, one entry per key *)

Section Collections.
Context {K V : Type} `{EqDecision K}.

Fixpoint Map_get (k : K) (m : list (K * V)) : option V :=
  match m with
  | [] => None
  | (k', v) :: m' => if decide (k = k') then Some v else Map_get k m'
  end.

(** [map.set(k, v)]: an existing key keeps its place and gets the new
    value, a new key goes to the end. *)
Fixpoint Map_set (k : K) (v : V) (m : list (K * V)) : list (K * V) :=
  match m with
  | [] => [(k, v)]
  | (k', v') :: m' =>
      if decide (k = k') then (k', v) :: m' else (k', v') :: Map_set k v m'
  end.

Fixpoint Set_add (k : K) (s : list K) : list K :=
  match s with
  | [] => [k]
  | k' :: s' => if decide (k = k') then s else k' :: Set_add k s'
  end.
End Collections.

(** ** Strings: [sort], [join] and [split] *)

(** [props.sort()]: ascending by code unit; strings model field names. *)
Definition sort (props : list string) : list string :=
  merge_sort String.le props.

Definition join (sep : string) (l : list string) : string :=
  String.concat sep l.

(** [s.split(c)] for a one-character separator: the pieces between the
    occurrences of [c]; the empty string gives one empty piece. *)
Fixpoint split (c : Ascii.ascii) (s : string) : list string :=
  match s with
  | EmptyString => [EmptyString]
  | String a s' =>
      if decide (a = c) then EmptyString :: split c s'
      else match split c s' with
           | [] => [String a EmptyString]
           | piece :: pieces => String a piece :: pieces
           end
  end.

Definition groupIdOf (props : list string) : string :=
  join "|" (sort props).

(** The character occurs in the string. *)
Fixpoint contains (c : Ascii.ascii) (s : string) : bool :=
  match s with
  | EmptyString => false
  | String a s' => if decide (a = c) then true else contains c s'
  end.

(** ** Callback declarations ([ChangesManager.types.ts]) *)

Module TCallbackConfig.
Record t := mk { callback : value; validator : value }.
End TCallbackConfig.

(** What a declaration is at run time, as far as the manager looks at it:
    - a function ([typeof callbackConfig === 'function']);
    - [null] or [undefined], which cannot be destructured;
    - any other value, seen through its [callback] and [validator]
      properties ([undefined] when it has none, as for a number or [{}]). *)
Inductive CallbackDecl :=
  | DeclFunction (f : FnId)
  | DeclNullish
  | DeclValue (callback validator : value).

(** The two shapes of [TCallbacksConfigParameter]: the array of
    [[keys, declaration]] pairs, and the object from property name to
    declaration, given by its entries in [Object.keys] order. *)
Inductive TCallbacksConfigParameter :=
  | ConfigArray (entries : list (list string * CallbackDecl))
  | ConfigObject (entries : list (string * CallbackDecl)).

(** [isFunction ? { callback: callbackConfig, validator: null } :
    callbackConfig]; [None] stands for a [null] or [undefined] that is
    passed on unchanged. *)
Definition sanitize (callbackConfig : CallbackDecl)
    : option TCallbackConfig.t :=
  match callbackConfig with
  | DeclFunction f => Some (TCallbackConfig.mk (VFunction f) VNull)
  | DeclNullish => None
  | DeclValue callback validator =>
      Some (TCallbackConfig.mk callback validator)
  end.

Abbreviation TCallbacksConfig :=
  (list (list string * option TCallbackConfig.t)).

Definition getCallbacksConfigFromParameter
    (callbacksConfig : list (list string * CallbackDecl)) : TCallbacksConfig :=
  map (λ '(keys, callbackConfig), (keys, sanitize callbackConfig))
      callbacksConfig.

Definition getCallbacksConfigFromParameterObject
    (callbacksConfig : list (string * CallbackDecl)) : TCallbacksConfig :=
  fold_left
    (λ accumulator '(key, config),
       let callbackConfig := sanitize config in
       let keys := [key] in
       accumulator ++ [(keys, callbackConfig)])
    callbacksConfig [].

(** ** The registry *)

Record Registry := mkRegistry {
  propertiesByGroup : list (string * gset string);
  callbacksByGroup : list (string * TCallbackConfig.t)
}.

Definition emptyRegistry : Registry := mkRegistry [] [].

(** One round of the [forEach] of [computeCallbackConfigDerivatives]. The
    parameter pattern [{ callback, validator }] throws a [TypeError] on
    [null] and [undefined]. *)
Definition registerGroup (reg : Registry)
    (entry : list string * option TCallbackConfig.t) : M Registry :=
  let '(props, callbackConfig) := entry in
  match callbackConfig with
  | None => throw TypeError
  | Some (TCallbackConfig.mk callback validator) =>
      let groupId := join "|" (sort props) in
      let groupAttributesSet : gset string := list_to_set props in
      mret (mkRegistry
              (Map_set groupId groupAttributesSet (propertiesByGroup reg))
              (Map_set groupId
                 (TCallbackConfig.mk callback (coalesce validator VNull))
                 (callbacksByGroup reg)))
  end.

Definition computeCallbackConfigDerivatives
    (callbacksConfig : TCallbacksConfig) : M Registry :=
  reduce registerGroup callbacksConfig emptyRegistry.

(** ** The component *)

(** The two reads of a property that [executeCallbacks] makes, in the
    order in which its object literal evaluates them. *)
Inductive ReadSite :=
  | ReadCurrentValue
  | ReadPreviousValue.

(** A property of an object. A data property holds a value. An accessor
    property has a getter, which is code of the host: what it answers
    may differ from one read to the next. A getter is taken to return,
    and a property without getter answers [undefined]. *)
Inductive Property :=
  | DataProperty (v : value)
  | AccessorProperty (get : ReadSite → value).

(** The component: its own properties, and those of the objects of its
    prototype chain, the nearest first. *)
Record Component := mkComponent {
  ownProperties : gmap string Property;
  prototypeChain : list (gmap string Property)
}.

(** An object without properties, its own or inherited. *)
#[global] Instance Component_empty : Empty Component := mkComponent ∅ [].

(** An object with the given data properties of its own, and no
    inherited property. *)
Definition plainObject (fields : gmap string value) : Component :=
  mkComponent (DataProperty <$> fields) [].

(** The property that [object[attribute]] reaches: that of the first
    object of the chain that has one of this name. *)
Fixpoint findProperty (attribute : string)
    (chain : list (gmap string Property)) : option Property :=
  match chain with
  | [] => None
  | object :: chain' =>
      match object !! attribute with
      | Some property => Some property
      | None => findProperty attribute chain'
      end
  end.

(** ** The manager *)

(** The [debounceDelay] argument of the constructor. *)
Inductive DelayParam :=
  | DelayOmitted
  | DelayNull
  | DelayNumber (x : spec_float).

(** [isNaN(debounceDelay)] after the default [debounceDelay = 0] has
    been applied; [null] converts to [0]. *)
Definition isNaN (debounceDelay : DelayParam) : bool :=
  match debounceDelay with
  | DelayNumber S754_nan => true
  | _ => false
  end.

Record Params := mkParams {
  p_component : Component;
  p_callbacks : option TCallbacksConfigParameter;
  p_debounceDelay : DelayParam;
  p_strict : option bool;
  p_onChanges : value
}.

(** The fields of the class, and the state of the two timers owned by the
    closures that [debounce] returns: the pending call of [_manageChanges]
    with the arguments of the last call, and the pending [detectChanges]. *)
Record ChangesManager := mkManager {
  component : Component;
  registry : Registry;
  strict : bool;
  onChanges : value;
  shouldDebounceDetection : bool;
  pendingManageChanges : option SimpleChanges;
  pendingDetectChanges : bool
}.

(** [setCallbacksConfig]: nothing is registered without a configuration. *)
Definition setCallbacksConfig
    (callbacksConfig : option TCallbacksConfigParameter) : M Registry :=
  match callbacksConfig with
  | None => mret emptyRegistry
  | Some (ConfigArray entries) =>
      computeCallbackConfigDerivatives
        (getCallbacksConfigFromParameter entries)
  | Some (ConfigObject entries) =>
      computeCallbackConfigDerivatives
        (getCallbacksConfigFromParameterObject entries)
  end.

Definition constructor (params : Params) : M ChangesManager :=
  let strict := default true (p_strict params) in
  let shouldDebounceDetection := negb (isNaN (p_debounceDelay params)) in
  reg ← setCallbacksConfig (p_callbacks params);
  mret (mkManager (p_component params) reg strict (p_onChanges params)
          shouldDebounceDetection None false).

Definition withPendingManageChanges (mgr : ChangesManager)
    (pending : option SimpleChanges) : ChangesManager :=
  mkManager (component mgr) (registry mgr) (strict mgr) (onChanges mgr)
    (shouldDebounceDetection mgr) pending (pendingDetectChanges mgr).

Definition withPendingDetectChanges (mgr : ChangesManager)
    (pending : bool) : ChangesManager :=
  mkManager (component mgr) (registry mgr) (strict mgr) (onChanges mgr)
    (shouldDebounceDetection mgr) (pendingManageChanges mgr) pending.

(** The handlers to run, each with the validators gathered for it. *)
Abbreviation HandlerAggregation := (list (value * list value)).

(** ** Dispatch *)

Section Dispatch.
(** What each function of the host does when called with a batch. *)
Context (run : FnId → ChangeBatch → outcome value).

(** A call [callee(changesSummary)] or [callee.call(component,
    changesSummary)]: only a function can be called; [role] says what
    the call is logged as. Plain objects are taken to have no [call]
    method of their own. *)
Definition call (role : FnId → ChangeBatch → event) (callee : value)
    (changesSummary : ChangeBatch) : M value :=
  match callee with
  | VFunction f => mkM [role f changesSummary] (run f changesSummary)
  | _ => throw TypeError
  end.

(** [changeDetectorRef.detectChanges()], taken not to throw. *)
Definition detectChanges : M unit := emit EvDetectChanges.

(** The callback of [properties.some] in
    [getCallbacksWhichShouldBeExecuted]; [groupAttributes.has] throws
    a [TypeError] when the group has no entry in [propertiesByGroup]. *)
Definition shouldIncludeGroup (mgr : ChangesManager)
    (changesSummary : ChangeBatch) (groupId : string) : M bool :=
  some (λ '(property, change),
          let groupAttributes :=
            Map_get groupId (propertiesByGroup (registry mgr)) in
          let attributeHasChanges := TChange.didChange change in
          match groupAttributes with
          | None => throw TypeError
          | Some groupAttributes =>
              let attributeBelongsToGroup :=
                bool_decide (property ∈ groupAttributes) in
              mret (attributeHasChanges && attributeBelongsToGroup)
          end)
       (map_to_list changesSummary).

(** The reducer of [getCallbacksWhichShouldBeExecuted]. *)
Definition collectGroup (mgr : ChangesManager)
    (changesSummary : ChangeBatch) (accumulator : HandlerAggregation)
    (group : string * TCallbackConfig.t) : M HandlerAggregation :=
  let '(groupId, TCallbackConfig.mk callback validator) := group in
  include ← shouldIncludeGroup mgr changesSummary groupId;
  if include : bool then
    let validators := default [] (Map_get (canon callback) accumulator) in
    let validators :=
      if truthy validator then Set_add (canon validator) validators
      else validators in
    mret (Map_set (canon callback) validators accumulator)
  else mret accumulator.

Definition getCallbacksWhichShouldBeExecuted (mgr : ChangesManager)
    (changesSummary : ChangeBatch) : M HandlerAggregation :=
  let callbacksGroups := callbacksByGroup (registry mgr) in
  reduce (collectGroup mgr changesSummary) callbacksGroups [].

(** [Array.from(validators).every((validator) =>
    validator(changesSummary))] *)
Definition validatorsApprove (validators : list value)
    (changesSummary : ChangeBatch) : M bool :=
  every (λ validator,
           r ← call EvValidator validator changesSummary;
           mret (truthy r))
        validators.

(** The body of the [forEach] of [executeChangesCallbacks]. *)
Definition dispatchHandler (changesSummary : ChangeBatch)
    (entry : value * list value) : M unit :=
  let '(callback, validators) := entry in
  shouldExecuteCallback ← validatorsApprove validators changesSummary;
  if shouldExecuteCallback : bool then
    call EvHandler callback changesSummary;; mret tt
  else mret tt.

Definition executeChangesCallbacks (mgr : ChangesManager)
    (changesSummary : ChangeBatch) : M unit :=
  callbacks ← getCallbacksWhichShouldBeExecuted mgr changesSummary;
  forEach (dispatchHandler changesSummary) callbacks;;
  detectChanges.

(** [this.onChanges?.(changesSummary)] *)
Definition callOnChanges (mgr : ChangesManager)
    (changesSummary : ChangeBatch) : M unit :=
  if nullish (onChanges mgr) then mret tt
  else call EvOnChanges (onChanges mgr) changesSummary;; mret tt.

(** The summary has exactly the keys of [simpleChanges], so the lookup
    [changesSummary[key]] below always finds its entry. *)
Definition _manageChanges (mgr : ChangesManager)
    (simpleChanges : SimpleChanges) : M ChangeBatch :=
  let changesSummary := getChangesSummary simpleChanges in
  let properties := (map_to_list simpleChanges).*1 in
  let shouldProcessChanges :=
    existsb (λ key, from_option TChange.didChange false
                      (changesSummary !! key))
            properties in
  if strict mgr && negb shouldProcessChanges then mret changesSummary
  else
    executeChangesCallbacks mgr changesSummary;;
    callOnChanges mgr changesSummary;;
    mret changesSummary.

(** The public [manageChanges] is [_manageChanges] itself, or its
    debounced wrapper. The wrapper cancels the pending call, schedules
    a new one with the arguments just received, and returns nothing
    ([None] is [undefined]). *)
Definition manageChanges (mgr : ChangesManager)
    (simpleChanges : SimpleChanges)
    : M (option ChangeBatch * ChangesManager) :=
  if shouldDebounceDetection mgr then
    mret (None, withPendingManageChanges mgr (Some simpleChanges))
  else
    changesSummary ← _manageChanges mgr simpleChanges;
    mret (Some changesSummary, mgr).

(** The timer of the debounced [manageChanges] fires: its callback runs
    [_manageChanges] on the arguments captured, for nobody to receive
    the result. *)
Definition manageChangesTimeout (mgr : ChangesManager)
    : ChangesManager * M unit :=
  match pendingManageChanges mgr with
  | None => (mgr, mret tt)
  | Some simpleChanges =>
      (withPendingManageChanges mgr None,
       _manageChanges mgr simpleChanges;; mret tt)
  end.

Definition detectChangesDebounced (mgr : ChangesManager)
    : ChangesManager :=
  withPendingDetectChanges mgr true.

Definition detectChangesTimeout (mgr : ChangesManager)
    : ChangesManager * M unit :=
  if pendingDetectChanges mgr
  then (withPendingDetectChanges mgr false, detectChanges)
  else (mgr, mret tt).

(** The reducer of [executeCallbacks]: the attributes are read back
    from the group id, and the validator is added to the set whatever
    it is. *)
Definition collectAll
    (accumulator : HandlerAggregation * list string)
    (group : string * TCallbackConfig.t)
    : HandlerAggregation * list string :=
  let '(callbacks, attributes) := accumulator in
  let '(groupId, TCallbackConfig.mk callback validator) := group in
  let attributes :=
    fold_left (λ attributes attribute, Set_add attribute attributes)
              (split "|"%char groupId) attributes in
  let validations := default [] (Map_get (canon callback) callbacks) in
  let validations := Set_add (canon validator) validations in
  (Map_set (canon callback) validations callbacks, attributes).

(** [this.component[attribute]], at one of its two evaluations: the
    value of a data property, what the getter of an accessor answers at
    this read, [undefined] when no object of the chain has the
    property. *)
Definition readComponent (mgr : ChangesManager) (site : ReadSite)
    (attribute : string) : value :=
  match findProperty attribute
          (ownProperties (component mgr) :: prototypeChain (component mgr))
  with
  | Some (DataProperty v) => v
  | Some (AccessorProperty get) => get site
  | None => VUndefined
  end.

Definition syntheticChanges (mgr : ChangesManager)
    (attributes : list string) : SimpleChanges :=
  fold_left
    (λ accumulator attribute,
       <[attribute :=
           {| SimpleChange.currentValue :=
                readComponent mgr ReadCurrentValue attribute;
              SimpleChange.previousValue :=
                readComponent mgr ReadPreviousValue attribute;
              SimpleChange.firstChange := false |}]> accumulator)
    attributes ∅.

(** The body of the [forEach] of [executeCallbacks]. *)
Definition runHandler (avoidValidations : bool)
    (changesSummary : ChangeBatch) (entry : value * list value)
    : M unit :=
  let '(callback, validators) := entry in
  shouldExecuteCallback ←
    (if avoidValidations then mret true
     else validatorsApprove validators changesSummary);
  if shouldExecuteCallback : bool then
    call EvHandler callback changesSummary;; mret tt
  else mret tt.

(** [executeCallbacks({ avoidValidations = false } = {})] *)
Definition executeCallbacks (mgr : ChangesManager)
    (options : option bool) : M unit :=
  let avoidValidations := default false options in
  let callbacksGroups := callbacksByGroup (registry mgr) in
  let '(callbacks, attributes) :=
    fold_left collectAll callbacksGroups ([], []) in
  let simpleChanges := syntheticChanges mgr attributes in
  let changesSummary := getChangesSummary simpleChanges in
  forEach (runHandler avoidValidations changesSummary) callbacks.
End Dispatch.

Arguments validatorsApprove : simpl never.
Arguments dispatchHandler : simpl never.
Arguments runHandler : simpl never.

(** ** Vocabulary of the properties *)

(** The batches a handler was called with, in order. *)
Definition handlerCalls (h : FnId) (tr : list event) : list ChangeBatch :=
  omap (λ ev, match ev with
              | EvHandler f arg => if decide (f = h) then Some arg else None
              | _ => None
              end) tr.

(** The validators consulted, in order. *)
Definition validatorCalls (tr : list event) : list FnId :=
  omap (λ ev, match ev with EvValidator f _ => Some f | _ => None end) tr.

(** The handlers called, in order. *)
Definition handlersCalled (tr : list event) : list FnId :=
  omap (λ ev, match ev with EvHandler f _ => Some f | _ => None end) tr.

(** How many times the re-render signal was given. *)
Definition detectChangesCount (tr : list event) : nat :=
  length (omap (λ ev, match ev with EvDetectChanges => Some tt | _ => None end)
               tr).

(** The calls of the [onChanges] hook. *)
Definition onChangesCalls (tr : list event) : list FnId :=
  omap (λ ev, match ev with EvOnChanges f _ => Some f | _ => None end) tr.

(** Some property of the group is in the batch with [didChange]. *)
Definition triggers (changesSummary : ChangeBatch)
    (groupAttributes : gset string) : Prop :=
  ∃ property change,
    changesSummary !! property = Some change ∧
    TChange.didChange change = true ∧
    property ∈ groupAttributes.

Definition triggersb (changesSummary : ChangeBatch)
    (groupAttributes : gset string) : bool :=
  existsb (λ '(property, change),
             TChange.didChange change &&
             bool_decide (property ∈ groupAttributes))
          (map_to_list changesSummary).

(** The group is registered with its attributes and the batch triggers it. *)
Definition groupTriggered (reg : Registry) (changesSummary : ChangeBatch)
    (groupId : string) : Prop :=
  ∃ groupAttributes,
    Map_get groupId (propertiesByGroup reg) = Some groupAttributes ∧
    triggers changesSummary groupAttributes.

(** No property of the batch changed. *)
Definition nothingChanged (simpleChanges : SimpleChanges) : Prop :=
  ∀ property c, simpleChanges !! property = Some c →
                didPropertyChange (Some c) = false.

(** The invariant of the two maps of the registry: every group with a
    callback has its attributes. *)
Definition consistent (reg : Registry) : Prop :=
  ∀ groupId cfg, (groupId, cfg) ∈ callbacksByGroup reg →
                 is_Some (Map_get groupId (propertiesByGroup reg)).

(** A validator called on the batch returns a truthy value. *)
Definition approves (run : FnId → ChangeBatch → outcome value)
    (validator : value) (changesSummary : ChangeBatch) : Prop :=
  ∃ f r, validator = VFunction f ∧ run f changesSummary = Returns r ∧
         truthy r = true.

(** Every validator gathered for the handler [callback] in this cycle,
    that is the validator of every triggered group registered with that
    handler, approves the batch. *)
Definition validatorsOfHandlerApprove
    (run : FnId → ChangeBatch → outcome value) (reg : Registry)
    (changesSummary : ChangeBatch) (callback : value) : Prop :=
  ∀ groupId cfg,
    (groupId, cfg) ∈ callbacksByGroup reg →
    groupTriggered reg changesSummary groupId →
    canon (TCallbackConfig.callback cfg) = canon callback →
    truthy (TCallbackConfig.validator cfg) = true →
    approves run (TCallbackConfig.validator cfg) changesSummary.

(** Every registered handler is a function, every registered validator is
    a function or absent, and none of them throws on the batch. *)
Definition wellBehaved (run : FnId → ChangeBatch → outcome value)
    (reg : Registry) (changesSummary : ChangeBatch) : Prop :=
  ∀ groupId cfg,
    (groupId, cfg) ∈ callbacksByGroup reg →
    (∃ f r, TCallbackConfig.callback cfg = VFunction f ∧
            run f changesSummary = Returns r) ∧
    (truthy (TCallbackConfig.validator cfg) = true →
     ∃ f r, TCallbackConfig.validator cfg = VFunction f ∧
            run f changesSummary = Returns r).

Definition isFunction (v : value) : bool :=
  match v with VFunction _ => true | _ => false end.

(** A declaration is well formed when it is a function, or a value whose
    [callback] is a function and whose [validator] is a function or
    missing. *)
Definition wellFormedDecl (d : CallbackDecl) : bool :=
  match d with
  | DeclFunction _ => true
  | DeclNullish => false
  | DeclValue callback validator =>
      isFunction callback && (isFunction validator || nullish validator)
  end.

Definition declarations (config : TCallbacksConfigParameter)
    : list CallbackDecl :=
  match config with
  | ConfigArray entries => entries.*2
  | ConfigObject entries => entries.*2
  end.

(** The cycle is not cut short by the strict mode. *)
Definition cycleProcessed (mgr : ChangesManager)
    (simpleChanges : SimpleChanges) : bool :=
  negb (strict mgr) ||
  existsb (λ '(_, c), didPropertyChange (Some c)) (map_to_list simpleChanges).

(** What [computeCallbackConfigDerivatives] stores for a declaration. *)
Definition stored (c : TCallbackConfig.t) : TCallbackConfig.t :=
  TCallbackConfig.mk (TCallbackConfig.callback c)
    (coalesce (TCallbackConfig.validator c) VNull).

(** The two reads of the attribute that [executeCallbacks] makes give
    the same value. *)
Definition stableRead (mgr : ChangesManager) (attribute : string) : Prop :=
  readComponent mgr ReadCurrentValue attribute
  = readComponent mgr ReadPreviousValue attribute.

(** The keys of the two maps stay the same list, without duplicates. *)
Definition registryInvariant (reg : Registry) : Prop :=
  (propertiesByGroup reg).*1 = (callbacksByGroup reg).*1 ∧
  NoDup (callbacksByGroup reg).*1.

(** ** Scenarios

    Concrete hosts, registrations and cycles, used to run the model. *)

Module Scenario.
(** The manager a constructor call leaves, when it does not throw. *)
Definition built (params : Params) : ChangesManager :=
  match result (constructor params) with
  | Returns mgr => mgr
  | Throws _ => mkManager ∅ emptyRegistry true VUndefined true None false
  end.

Definition changed (previous current : string) : SimpleChange.t :=
  SimpleChange.mk (VString previous) (VString current) false.

(** A host whose functions all return [undefined]. *)
Definition quiet : FnId → ChangeBatch → outcome value :=
  λ _ _, Returns VUndefined.

(** The component of the README: [fullName] is computed by function [1]
    from [name] and [surname]. *)
Definition person : Component :=
  plainObject {[ "name" := VString ""; "surname" := VString "" ]}.

Definition fullNameParams : Params :=
  mkParams person
    (Some (ConfigArray [(["name"; "surname"], DeclFunction 1)]))
    DelayOmitted None VUndefined.

Definition surnameChanged : SimpleChanges :=
  {[ "surname" := changed "" "quesada" ]}.

Definition bothChanged : SimpleChanges :=
  {[ "name" := changed "" "johnny"; "surname" := changed "" "quesada" ]}.

Definition nameUnchanged : SimpleChanges :=
  {[ "name" := changed "johnny" "johnny" ]}.

(** The same registration in non-strict mode. *)
Definition lenientParams : Params :=
  mkParams person
    (Some (ConfigArray [(["name"; "surname"], DeclFunction 1)]))
    DelayOmitted (Some false) VUndefined.

(** One property, handler [1], gated by validator [2], which rejects. *)
Definition gatedParams : Params :=
  mkParams ∅
    (Some (ConfigObject [("a", DeclValue (VFunction 1) (VFunction 2))]))
    DelayOmitted None VUndefined.

Definition rejecting : FnId → ChangeBatch → outcome value :=
  λ f _, if decide (f = 2) then Returns (VBool false)
         else Returns VUndefined.

Definition aChanged : SimpleChanges := {[ "a" := changed "x" "y" ]}.

(** Handler [1] is registered on two overlapping groups, with the
    validators [2] and [3]; handler [4] on a third group with the
    validator [5]; handler [6] without a validator. Validator [5]
    rejects; [2] and [3] approve. *)
Definition overlappingParams : Params :=
  mkParams ∅
    (Some (ConfigArray
             [(["a"; "b"], DeclValue (VFunction 1) (VFunction 2));
              (["b"; "c"], DeclValue (VFunction 1) (VFunction 3));
              (["b"], DeclValue (VFunction 4) (VFunction 5));
              (["d"; "b"], DeclFunction 6)]))
    DelayOmitted None VUndefined.

Definition verdicts : FnId → ChangeBatch → outcome value :=
  λ f _, if decide (f = 5) then Returns (VBool false)
         else if decide (f = 2 ∨ f = 3) then Returns (VBool true)
         else Returns VUndefined.

Definition bChanged : SimpleChanges := {[ "b" := changed "x" "y" ]}.

(** Two handlers, the first of which throws. *)
Definition twoHandlers (debounceDelay : DelayParam) : Params :=
  mkParams ∅
    (Some (ConfigObject [("a", DeclFunction 1); ("b", DeclFunction 2)]))
    debounceDelay None VUndefined.

Definition boom : exn := Thrown (VString "boom").

Definition failing : FnId → ChangeBatch → outcome value :=
  λ f _, if decide (f = 1) then Throws boom else Returns VUndefined.

Definition abChanged : SimpleChanges :=
  {[ "a" := changed "x" "y"; "b" := changed "x" "y" ]}.

(** A declaration that is neither a function nor an object with a
    [callback], such as the number [42] or [{}]. *)
Definition malformedParams : Params :=
  mkParams ∅
    (Some (ConfigArray [(["a"], DeclValue VUndefined VUndefined)]))
    DelayOmitted None VUndefined.

(** The registration of the test of [executeCallbacks]. *)
Definition testParams : Params :=
  mkParams person
    (Some (ConfigObject [("name", DeclFunction 1);
                         ("surname", DeclFunction 2)]))
    DelayOmitted None VUndefined.

(** A property whose name holds the separator, and the group of two
    properties that shares its group id. *)
Definition collidingParams : Params :=
  mkParams ∅
    (Some (ConfigArray [(["a|b"], DeclFunction 1);
                        (["a"; "b"], DeclFunction 2)]))
    DelayOmitted None VUndefined.

Definition defaultParams (host : Component) : Params :=
  mkParams host None DelayOmitted None VUndefined.
End Scenario.

(** ** More of [ChangesManager.utils.ts] *)

(** The callback of [tryComponentSimpleChange] receives a value, not a
    batch; its calls are logged apart. *)
Inductive valueEvent :=
  | EvCallback (f : FnId) (arg : value).

(** [tryComponentSimpleChange({ simpleChange, callback, component })]:
    the callback is called with the current value when the property
    changed. The destructuring [const { currentValue } = simpleChange]
    throws on an absent record. *)
Definition tryComponentSimpleChange
    (runValue : FnId → value → outcome value)
    (simpleChange : option SimpleChange.t) (callback : value)
    : list valueEvent * outcome bool :=
  if negb (didPropertyChange simpleChange) then ([], Returns false)
  else
    match simpleChange with
    | None => ([], Throws TypeError)
    | Some c =>
        let currentValue := SimpleChange.currentValue c in
        match callback with
        | VFunction f =>
            ([EvCallback f currentValue],
             match runValue f currentValue with
             | Returns _ => Returns true
             | Throws e => Throws e
             end)
        | _ => ([], Throws TypeError)
        end
    end.

(** ** Sequences of calls *)

(** The host calls [manageChanges] once per update, here several times
    in a row before any timer fires; the results are dropped. *)
Definition manageChangesAll
    (run : FnId → ChangeBatch → outcome value) (mgr : ChangesManager)
    (cycles : list SimpleChanges) : M ChangesManager :=
  reduce (λ mgr simpleChanges,
            r ← manageChanges run mgr simpleChanges; mret r.2)
         cycles mgr.

(** [detectChangesDebounced()] called [n] times in a row. *)
Definition detectChangesDebouncedTimes (n : nat) (mgr : ChangesManager)
    : ChangesManager :=
  Nat.iter n detectChangesDebounced mgr.

(** ** More vocabulary *)

(** The list without its repetitions, each member at the place of its
    first occurrence: the order in which a [Map] lists keys that were
    set in the order of the list. *)
Fixpoint firstOccurrences {A} `{EqDecision A} (l : list A) : list A :=
  match l with
  | [] => []
  | x :: l' => x :: filter (λ y, y ≠ x) (firstOccurrences l')
  end.

Definition groupTriggeredb (reg : Registry) (changesSummary : ChangeBatch)
    (groupId : string) : bool :=
  match Map_get groupId (propertiesByGroup reg) with
  | Some groupAttributes => triggersb changesSummary groupAttributes
  | None => false
  end.

(** The handlers of the triggered groups, in registration order. *)
Definition triggeredHandlers (reg : Registry) (changesSummary : ChangeBatch)
    : list value :=
  map (λ group, canon (TCallbackConfig.callback group.2))
      (filter (λ group : string * TCallbackConfig.t,
                 groupTriggeredb reg changesSummary group.1 = true)
              (callbacksByGroup reg)).

Definition fnOf (v : value) : option FnId :=
  match v with VFunction f => Some f | _ => None end.

(** The registered handlers, in the order of their first registration. *)
Definition registeredHandlers (reg : Registry) : list value :=
  firstOccurrences
    (map (λ group : string * TCallbackConfig.t,
            canon (TCallbackConfig.callback group.2))
         (callbacksByGroup reg)).

(** The attributes [executeCallbacks] reads back from the group ids. *)
Definition attributesOf (groups : list (string * TCallbackConfig.t))
    : list string :=
  (fold_left collectAll groups ([], [])).2.

(** The batch that [executeCallbacks] builds. *)
Definition manualBatch (mgr : ChangesManager) : ChangeBatch :=
  getChangesSummary
    (syntheticChanges mgr (attributesOf (callbacksByGroup (registry mgr)))).

(** The README registration with an [onChanges] hook, function [7], and
    without debounce. *)
Definition hookedParams : Params :=
  mkParams Scenario.person
    (Some (ConfigArray [(["name"; "surname"], DeclFunction 1)]))
    (DelayNumber S754_nan) None (VFunction 7).

(** Two handlers, [1] and [6], each gated by a validator, [2] and [3],
    which approve under [Scenario.verdicts]. *)
Definition validatedParams : Params :=
  mkParams Scenario.person
    (Some (ConfigArray
             [(["name"], DeclValue (VFunction 1) (VFunction 2));
              (["surname"], DeclValue (VFunction 6) (VFunction 3))]))
    DelayOmitted None VUndefined.

(** The validators a dispatch gathers for the handler [k]: those of
    the triggered groups registered with it, in registration order,
    each once. *)
Definition gatheredValidators (reg : Registry) (changesSummary : ChangeBatch)
    (k : value) : list value :=
  firstOccurrences
    (map (λ group : string * TCallbackConfig.t,
            canon (TCallbackConfig.validator group.2))
         (filter (λ group : string * TCallbackConfig.t,
                    groupTriggeredb reg changesSummary group.1 = true ∧
                    canon (TCallbackConfig.callback group.2) = k ∧
                    truthy (TCallbackConfig.validator group.2) = true)
                 (callbacksByGroup reg))).

(** Validator [2] rejects; every other function returns [true]. *)
Definition rejectingFirst : FnId → ChangeBatch → outcome value :=
  λ f _, if decide (f = 2) then Returns (VBool false)
         else Returns (VBool true).

(** A component with a data property of its own, a function inherited
    from its prototype, and an accessor whose getter answers differently
    at the two reads; the property [absent] is nowhere on the chain. *)
Definition accessorComponent : Component :=
  mkComponent
    {[ "name" := DataProperty (VString "x");
       "now" := AccessorProperty
                  (λ site, match site with
                           | ReadCurrentValue => VString "1"
                           | ReadPreviousValue => VString "2"
                           end) ]}
    [ {[ "toString" := DataProperty (VFunction 9) ]} ].

Definition accessorParams : Params :=
  mkParams accessorComponent
    (Some (ConfigObject [("name", DeclFunction 1);
                         ("now", DeclFunction 2);
                         ("toString", DeclFunction 3);
                         ("absent", DeclFunction 4)]))
    DelayOmitted None VUndefined.

(** The argument of an event, when it has one. *)
Definition eventBatch (ev : event) : option ChangeBatch :=
  match ev with
  | EvValidator _ arg | EvHandler _ arg | EvOnChanges _ arg => Some arg
  | EvDetectChanges => None
  end.

(** * The first version of the class

    The class as first published: no strict mode, no hook and no
    debounce of the cycle; instead every handler is wrapped by
    [debounce] when its group is registered, so that a dispatch only
    starts timers and the handlers run when the timers fire. *)

(** [array.filter(f)] *)
Fixpoint Array_filter {A} (f : A → M bool) (l : list A) : M (list A) :=
  match l with
  | [] => mret []
  | x :: l' =>
      keep ← f x;
      rest ← Array_filter f l';
      mret (if keep : bool then x :: rest else rest)
  end.

(** [array.forEach(f)] for a body that also updates a state; what the
    body did to the state before it threw stays done. *)
Fixpoint forEachS {A S} (f : S → A → S * M unit) (l : list A) (s : S)
    : S * M unit :=
  match l with
  | [] => (s, mret tt)
  | x :: l' =>
      let '(s1, m1) := f s x in
      match result m1 with
      | Returns _ => let '(s2, m2) := forEachS f l' s1 in (s2, m1;; m2)
      | Throws _ => (s1, m1)
      end
  end.

Module V1.
(** A pending timer of the closure that [debounce(callback, wait)]
    returned for the group [owner]: when it fires, [callback] is called
    with [args]. Every closure is given the same delay, so the timers
    fire in the order in which they were started. *)
Record Timer := mkTimer {
  owner : string;
  callback : value;
  args : ChangeBatch
}.

(** In [callbacksByGroup] the [callback] of a group stands for its
    debounced wrapper, which holds that callback. *)
Record ChangesManager := mkManager {
  component : gmap string value;
  registry : Registry;
  timers : list Timer
}.

Definition withTimers (mgr : ChangesManager) (timers : list Timer)
    : ChangesManager :=
  mkManager (component mgr) (registry mgr) timers.

(** A call [(...args) => { clearTimeout(timer); timer = setTimeout(() =>
    callback(...args), wait) }] of the wrapper of a group. *)
Definition debounced (groupId : string) (callback : value)
    (args : ChangeBatch) (timers : list Timer) : list Timer :=
  filter (λ timer, owner timer ≠ groupId) timers ++
  [mkTimer groupId callback args].

(** The constructor; [setCallbacksConfig] and the functions it calls
    read as in the later version, but for the wrapping of the callback. *)
Definition constructor (component : gmap string value)
    (callbacksConfig : option TCallbacksConfigParameter)
    : M ChangesManager :=
  reg ← setCallbacksConfig callbacksConfig;
  mret (mkManager component reg []).

Section Dispatch.
Context (run : FnId → ChangeBatch → outcome value).

(** The callback of [properties.some]. *)
Definition shouldIncludeGroup (mgr : ChangesManager)
    (changesSummary : ChangeBatch) (groupId : string) : M bool :=
  some (λ '(property, change),
          let groupAttributes :=
            Map_get groupId (propertiesByGroup (registry mgr)) in
          let attributeHasChanges := TChange.didChange change in
          match groupAttributes with
          | None => throw TypeError
          | Some groupAttributes =>
              let attributeBelongsToGroup :=
                bool_decide (property ∈ groupAttributes) in
              mret (attributeHasChanges && attributeBelongsToGroup)
          end)
       (map_to_list changesSummary).

Definition getCallbacksWhichShouldBeExecuted (mgr : ChangesManager)
    (changesSummary : ChangeBatch) : M (list (string * TCallbackConfig.t)) :=
  let callbacksGroups := callbacksByGroup (registry mgr) in
  Array_filter (λ '(groupId, callbackConfig),
                  shouldIncludeGroup mgr changesSummary groupId)
               callbacksGroups.

(** [validator ? !!validator(changesSummary) : true] *)
Definition shouldExecuteCallback (changesSummary : ChangeBatch)
    (validator : value) : M bool :=
  if truthy validator then
    r ← call run EvValidator validator changesSummary;
    mret (truthy r)
  else mret true.

(** The body of the [forEach] of [executeChangesCallbacks]; the call
    [callback?.call(this.component, changesSummary)] reaches the
    wrapper, which is never nullish. *)
Definition dispatchGroup (changesSummary : ChangeBatch)
    (timers : list Timer) (group : string * TCallbackConfig.t)
    : list Timer * M unit :=
  let '(groupId, TCallbackConfig.mk callback validator) := group in
  let verdict := shouldExecuteCallback changesSummary validator in
  match result verdict with
  | Returns true =>
      (debounced groupId callback changesSummary timers, verdict;; mret tt)
  | _ => (timers, verdict;; mret tt)
  end.

Definition executeChangesCallbacks (mgr : ChangesManager)
    (changesSummary : ChangeBatch) : ChangesManager * M unit :=
  let callbacks := getCallbacksWhichShouldBeExecuted mgr changesSummary in
  match result callbacks with
  | Returns groups =>
      let '(timers, m) :=
        forEachS (dispatchGroup changesSummary) groups (timers mgr) in
      (withTimers mgr timers, callbacks;; m;; detectChanges)
  | Throws _ => (mgr, callbacks;; mret tt)
  end.

Definition manageChanges (mgr : ChangesManager)
    (simpleChanges : SimpleChanges) : ChangesManager * M ChangeBatch :=
  let changesSummary := getChangesSummary simpleChanges in
  let properties := (map_to_list simpleChanges).*1 in
  let shouldProcessChanges :=
    existsb (λ key, from_option TChange.didChange false
                      (changesSummary !! key))
            properties in
  if negb shouldProcessChanges then (mgr, mret changesSummary)
  else
    let '(mgr', m) := executeChangesCallbacks mgr changesSummary in
    (mgr', m;; mret changesSummary).

(** A timer fires: [callback(...args)], in a task of its own. *)
Definition timeout (timer : Timer) : M unit :=
  call run EvHandler (callback timer) (args timer);; mret tt.

(** All the pending timers fire, the oldest first; what one task
    throws does not reach the others. *)
Definition timeouts (mgr : ChangesManager)
    : ChangesManager * list (M unit) :=
  (withTimers mgr [], map timeout (timers mgr)).

(** What the validator of a group says by itself: [true] without a
    validator, the truthiness of what the validator returns otherwise,
    [false] when it cannot be called or throws. *)
Definition ownVerdict (changesSummary : ChangeBatch)
    (cfg : TCallbackConfig.t) : bool :=
  if truthy (TCallbackConfig.validator cfg) then
    match TCallbackConfig.validator cfg with
    | VFunction f =>
        match run f changesSummary with
        | Returns r => truthy r
        | Throws _ => false
        end
    | _ => false
    end
  else true.

(** The groups that the batch triggers and whose own validator
    approves, in registration order. *)
Definition scheduled (reg : Registry) (changesSummary : ChangeBatch)
    : list (string * TCallbackConfig.t) :=
  filter (λ group : string * TCallbackConfig.t,
            ownVerdict changesSummary group.2 = true)
         (filter (λ group : string * TCallbackConfig.t,
                    groupTriggeredb reg changesSummary group.1 = true)
                 (callbacksByGroup reg)).

(** The timer a dispatch of the batch starts for a group. *)
Definition timerOf (changesSummary : ChangeBatch)
    (group : string * TCallbackConfig.t) : Timer :=
  mkTimer group.1 (TCallbackConfig.callback group.2) changesSummary.
End Dispatch.

(** The manager a constructor call leaves, when it does not throw. *)
Definition built (component : gmap string value)
    (callbacksConfig : option TCallbacksConfigParameter) : ChangesManager :=
  match result (constructor component callbacksConfig) with
  | Returns mgr => mgr
  | Throws _ => mkManager ∅ emptyRegistry []
  end.

(** The first version on the overlapping registration of the
    scenarios. *)
Definition overlapping : ChangesManager :=
  built ∅ (p_callbacks Scenario.overlappingParams).
End V1.

(** * The batch as a shared object

    The batch of a cycle is one object: the cycle builds it, hands it
    to every validator, to every handler and to the hook, and returns
    it to its caller. What a function of the host writes into it, every
    later call and the caller see. Here a call gives, with what it
    returns or throws, the batch as it leaves it; writes are taken to
    leave it a batch. *)

(** A computation that runs on the batch and may leave it changed; what
    was written before an exception stays written. *)
Definition W (A : Type) : Type := ChangeBatch → ChangeBatch * M A.

#[global] Instance W_ret : MRet W := λ A a changesSummary,
  (changesSummary, mret a).

#[global] Instance W_bind : MBind W := λ A B k m changesSummary,
  let '(changesSummary1, m1) := m changesSummary in
  match result m1 with
  | Returns a =>
      let '(changesSummary2, m2) := k a changesSummary1 in
      (changesSummary2, mkM (trace m1 ++ trace m2) (result m2))
  | Throws e => (changesSummary1, mkM (trace m1) (Throws e))
  end.

(** A computation that does not touch the batch. *)
Definition liftW {A} (m : M A) : W A := λ changesSummary, (changesSummary, m).

(** [array.every(f)] and [array.forEach(f)] over such computations. *)
Fixpoint everyW {A} (f : A → W bool) (l : list A) : W bool :=
  match l with
  | [] => mret true
  | x :: l' => b ← f x; if b : bool then everyW f l' else mret false
  end.

Fixpoint forEachW {A} (f : A → W unit) (l : list A) : W unit :=
  match l with
  | [] => mret tt
  | x :: l' => f x;; forEachW f l'
  end.

(** The function and the argument of a call. *)
Definition eventCall (ev : event) : option (FnId * ChangeBatch) :=
  match ev with
  | EvValidator f arg | EvHandler f arg | EvOnChanges f arg => Some (f, arg)
  | EvDetectChanges => None
  end.

Module Shared.
Section Dispatch.
Context (runW : FnId → ChangeBatch → outcome value * ChangeBatch).

Definition call (role : FnId → ChangeBatch → event) (callee : value)
    : W value :=
  λ changesSummary,
    match callee with
    | VFunction f =>
        ((runW f changesSummary).2,
         mkM [role f changesSummary] (runW f changesSummary).1)
    | _ => (changesSummary, throw TypeError)
    end.

Definition validatorsApprove (validators : list value) : W bool :=
  everyW (λ validator, r ← call EvValidator validator; mret (truthy r))
         validators.

Definition dispatchHandler (entry : value * list value) : W unit :=
  let '(callback, validators) := entry in
  shouldExecuteCallback ← validatorsApprove validators;
  if shouldExecuteCallback : bool then call EvHandler callback;; mret tt
  else mret tt.

(** The handlers are aggregated from the batch as it is before any
    call. *)
Definition executeChangesCallbacks (mgr : ChangesManager) : W unit :=
  λ changesSummary,
    (callbacks ←
       liftW (getCallbacksWhichShouldBeExecuted mgr changesSummary);
     forEachW dispatchHandler callbacks;;
     liftW detectChanges) changesSummary.

Definition callOnChanges (mgr : ChangesManager) : W unit :=
  if nullish (onChanges mgr) then mret tt
  else call EvOnChanges (onChanges mgr);; mret tt.

(** The cycle: the batch in its last state, and what the cycle did and
    returned, which is the batch in that state. *)
Definition _manageChanges (mgr : ChangesManager)
    (simpleChanges : SimpleChanges) : ChangeBatch * M ChangeBatch :=
  let changesSummary := getChangesSummary simpleChanges in
  let properties := (map_to_list simpleChanges).*1 in
  let shouldProcessChanges :=
    existsb (λ key, from_option TChange.didChange false
                      (changesSummary !! key))
            properties in
  if strict mgr && negb shouldProcessChanges
  then (changesSummary, mret changesSummary)
  else
    (executeChangesCallbacks mgr;;
     callOnChanges mgr;;
     (λ changesSummary, (changesSummary, mret changesSummary)) : W ChangeBatch)
      changesSummary.

(** The calls of the trace are chained: the first receives the batch
    [changesSummary], each later one the batch as the call before it
    left it, and [final] is the batch as the last call left it. *)
Fixpoint threaded (changesSummary : ChangeBatch) (tr : list event)
    (final : ChangeBatch) : Prop :=
  match tr with
  | [] => final = changesSummary
  | ev :: tr' =>
      match eventCall ev with
      | Some (f, arg) =>
          arg = changesSummary ∧
          threaded (runW f changesSummary).2 tr' final
      | None => threaded changesSummary tr' final
      end
  end.
End Dispatch.

(** Handler [1] deletes the entry of [surname] from the batch. *)
Definition deleting : FnId → ChangeBatch → outcome value * ChangeBatch :=
  λ f changesSummary,
    if decide (f = 1)
    then (Returns VUndefined, delete "surname" changesSummary)
    else (Returns VUndefined, changesSummary).
End Shared.

(** * Properties *)

(** ** Facts about values *)

Lemma number_sameValue_eq x y : number_sameValue x y = true ↔ x = y.
Proof.
  destruct x, y; simpl; try (split; intros; simplify_eq; done).
  - rewrite Bool.eqb_true_iff. naive_solver.
  - rewrite Bool.eqb_true_iff. naive_solver.
  - rewrite !andb_true_iff, Bool.eqb_true_iff, Pos.eqb_eq, Z.eqb_eq.
    split; [intros [[-> ->] ->]|intros [= -> -> ->]]; done.
Qed.

Lemma Object_is_eq x y : Object_is x y = true ↔ x = y.
Proof.
  destruct x, y; simpl; try (split; intros; simplify_eq; done).
  - rewrite Bool.eqb_true_iff. naive_solver.
  - rewrite number_sameValue_eq. naive_solver.
  - rewrite String.eqb_eq. naive_solver.
  - rewrite Nat.eqb_eq. naive_solver.
  - rewrite Nat.eqb_eq. naive_solver.
Qed.

Lemma Object_is_refl x : Object_is x x = true.
Proof. by apply Object_is_eq. Qed.

Lemma truthy_canon v : truthy v = true → canon v = v.
Proof. by destruct v as [| | |[[]| | |]| | |]. Qed.

Lemma canon_function f v : canon v = VFunction f ↔ v = VFunction f.
Proof. by destruct v as [| | |[[]| | |]| | |]. Qed.

Lemma canon_idemp v : canon (canon v) = canon v.
Proof. by destruct v as [| | |[[]| | |]| | |]. Qed.

Lemma didPropertyChange_Some c :
  didPropertyChange (Some c) =
  negb (SimpleChange.firstChange c) &&
  negb (Object_is (SimpleChange.currentValue c)
                  (SimpleChange.previousValue c)).
Proof.
  unfold didPropertyChange. simpl.
  destruct (SimpleChange.firstChange c); simpl; [done|].
  by destruct (Object_is _ _).
Qed.

(** ** C2: the derived [didChange] flag *)

(** C2. For every per-field change record, [didPropertyChange] is [false]
    whenever the record is absent or is a first observation, whatever the
    values are; otherwise it is [true] exactly when [currentValue] and
    [previousValue] are not the same value under [Object.is]. That
    comparison is by identity and not by structure: two distinct objects
    always count as a change, NaN against NaN never does, and the two
    zeros differ. *)
Theorem didPropertyChange_spec (simpleChange : option SimpleChange.t) :
  (simpleChange = None → didPropertyChange simpleChange = false) ∧
  (∀ c, simpleChange = Some c → SimpleChange.firstChange c = true →
        didPropertyChange simpleChange = false) ∧
  (∀ c, simpleChange = Some c → SimpleChange.firstChange c = false →
        (didPropertyChange simpleChange = true ↔
         Object_is (SimpleChange.currentValue c)
                   (SimpleChange.previousValue c) = false) ∧
        (didPropertyChange simpleChange = true ↔
         SimpleChange.currentValue c ≠ SimpleChange.previousValue c)) ∧
  (∀ r1 r2 first, r1 ≠ r2 →
        didPropertyChange
          (Some (SimpleChange.mk (VObject r1) (VObject r2) first))
        = negb first) ∧
  didPropertyChange
    (Some (SimpleChange.mk (VNumber NaN) (VNumber NaN) false)) = false ∧
  didPropertyChange
    (Some (SimpleChange.mk (VNumber neg_zero) (VNumber pos_zero) false))
    = true.
Proof.
  split; [by intros ->|]. split; [|split; [|split; [|done]]].
  - intros c -> Hf. by rewrite didPropertyChange_Some, Hf.
  - intros c -> Hf. rewrite didPropertyChange_Some, Hf. simpl.
    rewrite negb_true_iff. split; [done|].
    rewrite <- not_true_iff_false, Object_is_eq. done.
  - intros r1 r2 first Hne. rewrite didPropertyChange_Some. simpl.
    destruct (Nat.eqb r2 r1) eqn:E; [|by rewrite andb_true_r].
    apply Nat.eqb_eq in E. congruence.
Qed.

(** ** The monad *)

Lemma M_eq {A} (m1 m2 : M A) :
  trace m1 = trace m2 → result m1 = result m2 → m1 = m2.
Proof. destruct m1, m2; simpl; congruence. Qed.

Lemma bind_returns {A B} (m : M A) (k : A → M B) a :
  result m = Returns a →
  m ≫= k = mkM (trace m ++ trace (k a)) (result (k a)).
Proof. intros H. unfold mbind, M_bind. by rewrite H. Qed.

Lemma bind_throws {A B} (m : M A) (k : A → M B) e :
  result m = Throws e → m ≫= k = mkM (trace m) (Throws e).
Proof. intros H. unfold mbind, M_bind. by rewrite H. Qed.

Lemma ret_bind {A B} (a : A) (k : A → M B) : mret a ≫= k = k a.
Proof. by apply M_eq. Qed.

Lemma bind_result_returns {A B} (m : M A) (k : A → M B) b :
  result (m ≫= k) = Returns b →
  ∃ a, result m = Returns a ∧ result (k a) = Returns b.
Proof.
  unfold mbind, M_bind. destruct (result m) as [a|e] eqn:E; simpl; [|done].
  eauto.
Qed.

Lemma bind_result_throws {A B} (m : M A) (k : A → M B) e :
  result (m ≫= k) = Throws e →
  result m = Throws e ∨ ∃ a, result m = Returns a ∧ result (k a) = Throws e.
Proof.
  unfold mbind, M_bind. destruct (result m) as [a|e'] eqn:E; simpl.
  - intros H. right. by exists a.
  - intros [= ->]. by left.
Qed.

Lemma bind_assoc {A B C} (m : M A) (k1 : A → M B) (k2 : B → M C) :
  (m ≫= k1) ≫= k2 = m ≫= (λ a, k1 a ≫= k2).
Proof.
  unfold mbind, M_bind. destruct (result m) as [a|e]; simpl; [|done].
  destruct (result (k1 a)); simpl; [|done]. by rewrite (assoc_L (++)).
Qed.

Lemma bind_ext {A B} (m : M A) (k1 k2 : A → M B) :
  (∀ a, k1 a = k2 a) → m ≫= k1 = m ≫= k2.
Proof.
  intros H. unfold mbind, M_bind. destruct (result m); [|done].
  by rewrite H.
Qed.

(** ** [forEach] *)

Section ForEach.
Context {A : Type} (f : A → M unit).

Lemma forEach_cons_returns x l :
  result (f x) = Returns tt →
  forEach f (x :: l) =
  mkM (trace (f x) ++ trace (forEach f l)) (result (forEach f l)).
Proof. intros H. simpl. by rewrite (bind_returns _ _ tt). Qed.

Lemma forEach_cons_throws x l e :
  result (f x) = Throws e →
  forEach f (x :: l) = mkM (trace (f x)) (Throws e).
Proof. intros H. simpl. by rewrite (bind_throws _ _ e). Qed.

Lemma forEach_cons_trace x l :
  trace (forEach f (x :: l)) =
  trace (f x) ++
  match result (f x) with
  | Returns _ => trace (forEach f l)
  | Throws _ => []
  end.
Proof.
  destruct (result (f x)) as [[]|e] eqn:E.
  - by rewrite forEach_cons_returns.
  - rewrite (forEach_cons_throws _ _ e) by done. simpl.
    by rewrite app_nil_r.
Qed.

Lemma forEach_cons_result x l :
  result (forEach f (x :: l)) = Returns tt ↔
  result (f x) = Returns tt ∧ result (forEach f l) = Returns tt.
Proof.
  destruct (result (f x)) as [[]|e] eqn:E.
  - rewrite forEach_cons_returns by done. simpl. tauto.
  - rewrite (forEach_cons_throws _ _ e) by done. simpl.
    split; [done|by intros [? _]].
Qed.

(** A [forEach] that completes has run every element to completion. *)
Lemma forEach_returns l :
  result (forEach f l) = Returns tt →
  Forall (λ x, result (f x) = Returns tt) l ∧
  trace (forEach f l) = concat (map (λ x, trace (f x)) l).
Proof.
  induction l as [|x l IH]; simpl; [done|].
  intros H. apply bind_result_returns in H as ([] & Hx & Hl).
  destruct (IH Hl) as [IH1 IH2]. split; [by constructor|].
  rewrite (bind_returns _ _ tt) by done. simpl. by rewrite IH2.
Qed.

Lemma forEach_all_return l :
  Forall (λ x, result (f x) = Returns tt) l →
  result (forEach f l) = Returns tt.
Proof.
  induction 1 as [|x l Hx _ IH]; simpl; [done|].
  by rewrite (bind_returns _ _ tt).
Qed.

(** A [forEach] that throws stopped at the first element that threw:
    the elements before it completed, the elements after it never ran. *)
Lemma forEach_throws l e :
  result (forEach f l) = Throws e →
  ∃ ran x rest,
    l = ran ++ x :: rest ∧
    result (forEach f ran) = Returns tt ∧
    result (f x) = Throws e ∧
    trace (forEach f l) = trace (forEach f ran) ++ trace (f x).
Proof.
  induction l as [|x l IH]; simpl; [done|].
  intros H. destruct (result (f x)) as [[]|e'] eqn:Hx.
  - rewrite (bind_returns _ _ tt) in H |- * by done. simpl in *.
    destruct (IH H) as (ran & y & rest & -> & Hran & Hy & Htr).
    exists (x :: ran), y, rest. split; [done|].
    rewrite forEach_cons_returns by done. simpl.
    by rewrite Htr, (assoc_L (++)).
  - rewrite (bind_throws _ _ e') in H |- * by done. simpl in *.
    simplify_eq. exists [], x, l. by rewrite Hx.
Qed.

(** Whatever happens, the trace is made of traces of the elements. *)
Lemma forEach_trace_elem l ev :
  ev ∈ trace (forEach f l) → ∃ x, x ∈ l ∧ ev ∈ trace (f x).
Proof.
  induction l as [|x l IH]; simpl; [by intros ?%elem_of_nil|].
  unfold mbind, M_bind. destruct (result (f x)) as [[]|e']; simpl.
  - intros [?|?]%elem_of_app.
    + exists x. split; [left|done].
    + destruct IH as (y & ? & ?); [done|]. exists y. split; [by right|done].
  - intros ?. exists x. split; [left|done].
Qed.

Lemma forEach_app l1 l2 :
  forEach f (l1 ++ l2) = (forEach f l1;; forEach f l2).
Proof.
  induction l1 as [|x l1 IH]; cbn [forEach app].
  - by rewrite ret_bind.
  - rewrite bind_assoc. apply bind_ext. intros []. exact IH.
Qed.

Lemma forEach_cons_result_eq x l :
  result (f x) = Returns tt →
  result (forEach f (x :: l)) = result (forEach f l).
Proof. intros Hx. by rewrite forEach_cons_returns. Qed.
End ForEach.

(** ** [Map] and [Set] *)

Section CollectionFacts.
Context {K V : Type} `{EqDecision K}.
Implicit Types (m : list (K * V)) (s : list K).

Lemma Map_get_set k k' v m :
  Map_get k (Map_set k' v m) =
  if decide (k = k') then Some v else Map_get k m.
Proof.
  induction m as [|[k0 v0] m IH]; simpl.
  - by destruct (decide (k = k')).
  - destruct (decide (k' = k0)) as [->|Hne]; simpl.
    + by destruct (decide (k = k0)).
    + destruct (decide (k = k0)) as [->|?]; [|done].
      by rewrite decide_False by done.
Qed.

Lemma Map_set_keys k v m k' :
  k' ∈ (Map_set k v m).*1 ↔ k' = k ∨ k' ∈ m.*1.
Proof.
  induction m as [|[k0 v0] m IH]; simpl.
  - rewrite list_elem_of_singleton. set_solver.
  - destruct (decide (k = k0)) as [->|Hne]; simpl; set_solver.
Qed.

Lemma Map_set_NoDup k v m : NoDup m.*1 → NoDup (Map_set k v m).*1.
Proof.
  induction m as [|[k0 v0] m IH]; simpl; intros Hnd.
  - apply NoDup_singleton.
  - apply NoDup_cons in Hnd as [Hnotin Hnd].
    destruct (decide (k = k0)) as [->|Hne]; simpl.
    + by apply NoDup_cons.
    + apply NoDup_cons. split; [|by apply IH].
      rewrite Map_set_keys. intros [->|?]; done.
Qed.

Lemma Map_get_Some_elem k v m : Map_get k m = Some v → (k, v) ∈ m.
Proof.
  induction m as [|[k0 v0] m IH]; simpl; [done|].
  destruct (decide (k = k0)) as [->|?].
  - intros [= ->]. left.
  - intros ?. right. by apply IH.
Qed.

Lemma Map_get_None k m : Map_get k m = None ↔ k ∉ m.*1.
Proof.
  induction m as [|[k0 v0] m IH]; simpl.
  - split; [intros _ ?%elem_of_nil; done|done].
  - destruct (decide (k = k0)) as [->|?].
    + split; [done|]. intros []. left.
    + rewrite IH. set_solver.
Qed.

Lemma Map_get_is_Some k m : is_Some (Map_get k m) ↔ k ∈ m.*1.
Proof.
  rewrite <- not_eq_None_Some, Map_get_None.
  destruct (decide (k ∈ m.*1)); naive_solver.
Qed.

Lemma elem_Map_get k v m : NoDup m.*1 → (k, v) ∈ m → Map_get k m = Some v.
Proof.
  induction m as [|[k0 v0] m IH]; simpl; intros Hnd Hin.
  - by apply elem_of_nil in Hin.
  - apply NoDup_cons in Hnd as [Hnotin Hnd].
    apply elem_of_cons in Hin as [[= -> ->]|Hin].
    + by rewrite decide_True.
    + destruct (decide (k = k0)) as [->|?]; [|by apply IH].
      destruct Hnotin. apply list_elem_of_fmap. by exists (k0, v).
Qed.

Lemma Set_add_elem k s k' : k' ∈ Set_add k s ↔ k' = k ∨ k' ∈ s.
Proof.
  induction s as [|k0 s IH]; simpl.
  - rewrite list_elem_of_singleton. set_solver.
  - destruct (decide (k = k0)) as [->|?]; set_solver.
Qed.

Lemma Set_add_NoDup k s : NoDup s → NoDup (Set_add k s).
Proof.
  induction s as [|k0 s IH]; simpl; intros Hnd.
  - apply NoDup_singleton.
  - destruct (decide (k = k0)) as [->|?]; [done|].
    apply NoDup_cons in Hnd as [??]. apply NoDup_cons.
    split; [|by apply IH]. rewrite Set_add_elem. intros [->|?]; done.
Qed.
End CollectionFacts.

(** ** Reading a trace *)

Lemma handlerCalls_app h t1 t2 :
  handlerCalls h (t1 ++ t2) = handlerCalls h t1 ++ handlerCalls h t2.
Proof. apply omap_app. Qed.

Lemma handlersCalled_app t1 t2 :
  handlersCalled (t1 ++ t2) = handlersCalled t1 ++ handlersCalled t2.
Proof. apply omap_app. Qed.

Lemma validatorCalls_app t1 t2 :
  validatorCalls (t1 ++ t2) = validatorCalls t1 ++ validatorCalls t2.
Proof. apply omap_app. Qed.

Lemma onChangesCalls_app t1 t2 :
  onChangesCalls (t1 ++ t2) = onChangesCalls t1 ++ onChangesCalls t2.
Proof. apply omap_app. Qed.

Lemma detectChangesCount_app t1 t2 :
  detectChangesCount (t1 ++ t2) =
  detectChangesCount t1 + detectChangesCount t2.
Proof. unfold detectChangesCount. by rewrite omap_app, length_app. Qed.

Lemma handlerCalls_handlersCalled h tr :
  handlersCalled tr = [] → handlerCalls h tr = [].
Proof.
  induction tr as [|[] tr IH]; simpl; try done.
Qed.

Lemma handlerCalls_elem h b tr :
  b ∈ handlerCalls h tr ↔ EvHandler h b ∈ tr.
Proof.
  unfold handlerCalls. rewrite list_elem_of_omap. split.
  - intros (ev & Hin & Hev). destruct ev; try done.
    destruct (decide (f = h)); by simplify_eq.
  - intros Hin. exists (EvHandler h b). split; [done|].
    by rewrite decide_True.
Qed.

Lemma detectChangesCount_zero tr :
  detectChangesCount tr = 0 ↔ EvDetectChanges ∉ tr.
Proof.
  induction tr as [|ev tr IH]; simpl.
  - split; [intros _ ?%elem_of_nil; done|done].
  - rewrite not_elem_of_cons, <- IH.
    destruct ev; unfold detectChangesCount; simpl; naive_solver.
Qed.

(** ** Validators and handlers *)

Section DispatchFacts.
Context (run : FnId → ChangeBatch → outcome value).
Implicit Types (b : ChangeBatch) (vs : list value) (k callback v : value).

Lemma approves_function f b :
  approves run (VFunction f) b ↔
  ∃ r, run f b = Returns r ∧ truthy r = true.
Proof.
  unfold approves. split.
  - intros (f' & r & [= <-] & ? & ?). eauto.
  - intros (r & ? & ?). eauto.
Qed.

Lemma validatorsApprove_cons v vs b :
  validatorsApprove run (v :: vs) b =
  match v with
  | VFunction f =>
      match run f b with
      | Returns r =>
          if truthy r
          then mkM (EvValidator f b :: trace (validatorsApprove run vs b))
                   (result (validatorsApprove run vs b))
          else mkM [EvValidator f b] (Returns false)
      | Throws e => mkM [EvValidator f b] (Throws e)
      end
  | _ => mkM [] (Throws TypeError)
  end.
Proof.
  unfold validatorsApprove. simpl. destruct v; try reflexivity.
  unfold mbind, M_bind. simpl. destruct (run f b) as [r|e]; simpl; [|done].
  by destruct (truthy r).
Qed.

(** The validators are consulted in order until one rejects or throws;
    the conjunction holds exactly when each of them approves. *)
Lemma validatorsApprove_true vs b :
  result (validatorsApprove run vs b) = Returns true ↔
  Forall (λ v, approves run v b) vs.
Proof.
  induction vs as [|v vs IH].
  { split; [by constructor|done]. }
  rewrite Forall_cons, <- IH, validatorsApprove_cons. clear IH.
  destruct v as [| | | | | |f]; simpl;
    try (split; [done|by intros [(? & ? & ? & ?) _]]).
  rewrite approves_function.
  destruct (run f b) as [r|e]; simpl.
  - destruct (truthy r) eqn:Hr; simpl.
    + split; [|tauto]. intros ?. split; [eauto|done].
    + split; [done|]. intros [(r' & [= <-] & ?) _]. congruence.
  - split; [done|]. intros [(r' & ? & ?) _]. done.
Qed.

Lemma validatorsApprove_trace vs b :
  handlersCalled (trace (validatorsApprove run vs b)) = [] ∧
  onChangesCalls (trace (validatorsApprove run vs b)) = [] ∧
  detectChangesCount (trace (validatorsApprove run vs b)) = 0.
Proof.
  induction vs as [|v vs IH]; [done|].
  rewrite validatorsApprove_cons.
  destruct v as [| | | | | |f]; simpl; try done.
  destruct (run f b) as [r|e]; simpl; [|done].
  destruct (truthy r); simpl; [|done]. apply IH.
Qed.

(** Validators that are functions and do not throw give a verdict. *)
Lemma validatorsApprove_returns vs b :
  Forall (λ v, ∃ f r, v = VFunction f ∧ run f b = Returns r) vs →
  ∃ verdict, result (validatorsApprove run vs b) = Returns verdict.
Proof.
  induction 1 as [|v vs (f & r & -> & Hr) _ IH]; [by eexists|].
  rewrite validatorsApprove_cons, Hr.
  destruct (truthy r); simpl; [done|by eexists].
Qed.

Lemma dispatchHandler_unfold b k vs :
  dispatchHandler run b (k, vs) =
  match result (validatorsApprove run vs b) with
  | Returns true =>
      match k with
      | VFunction f =>
          mkM (trace (validatorsApprove run vs b) ++ [EvHandler f b])
              (match run f b with
               | Returns _ => Returns tt
               | Throws e => Throws e
               end)
      | _ => mkM (trace (validatorsApprove run vs b)) (Throws TypeError)
      end
  | Returns false => mkM (trace (validatorsApprove run vs b)) (Returns tt)
  | Throws e => mkM (trace (validatorsApprove run vs b)) (Throws e)
  end.
Proof.
  unfold dispatchHandler. unfold mbind at 1, M_bind at 1.
  destruct (result (validatorsApprove run vs b)) as [[]|e]; simpl.
  - destruct k; simpl; try (by rewrite app_nil_r).
    unfold mbind, M_bind. simpl. by destruct (run f b).
  - by rewrite app_nil_r.
  - done.
Qed.

(** One entry of the aggregation calls its handler at most once, with
    the batch, and only after every validator approved. *)
Lemma dispatchHandler_handlerCalls h b k vs :
  handlerCalls h (trace (dispatchHandler run b (k, vs))) =
  if decide (k = VFunction h ∧
             result (validatorsApprove run vs b) = Returns true)
  then [b] else [].
Proof.
  rewrite dispatchHandler_unfold.
  pose proof (validatorsApprove_trace vs b) as (Hh & _ & _).
  apply (handlerCalls_handlersCalled h) in Hh.
  destruct (result (validatorsApprove run vs b)) as [[]|e] eqn:E.
  - destruct k as [| | | | | |f]; simpl;
      rewrite ?handlerCalls_app, Hh; simpl; repeat case_decide;
      naive_solver.
  - simpl. rewrite Hh. case_decide; naive_solver.
  - simpl. rewrite Hh. case_decide; naive_solver.
Qed.

Lemma dispatchHandler_quiet b k vs :
  onChangesCalls (trace (dispatchHandler run b (k, vs))) = [] ∧
  detectChangesCount (trace (dispatchHandler run b (k, vs))) = 0.
Proof.
  rewrite dispatchHandler_unfold.
  pose proof (validatorsApprove_trace vs b) as (_ & Ho & Hd).
  destruct (result (validatorsApprove run vs b)) as [[]|e]; simpl; try done.
  destruct k; simpl; try done.
  by rewrite onChangesCalls_app, detectChangesCount_app, Ho, Hd.
Qed.

(** An entry whose validators approve completes only if its handler is
    a function that returns. *)
Lemma dispatchHandler_returns b k vs :
  result (dispatchHandler run b (k, vs)) = Returns tt →
  result (validatorsApprove run vs b) = Returns true →
  ∃ f r, k = VFunction f ∧ run f b = Returns r.
Proof.
  rewrite dispatchHandler_unfold. intros H Hv. rewrite Hv in H.
  destruct k as [| | | | | |f]; simpl in H; try done.
  destruct (run f b) as [r|e] eqn:E; [eauto|done].
Qed.

(** ** The [forEach] over the aggregation *)

Lemma forEach_dispatch_absent h b l :
  VFunction h ∉ l.*1 →
  handlerCalls h (trace (forEach (dispatchHandler run b) l)) = [].
Proof.
  induction l as [|[k vs] l IH]; [done|].
  intros [Hk Hl]%not_elem_of_cons. rewrite forEach_cons_trace.
  rewrite handlerCalls_app, dispatchHandler_handlerCalls.
  rewrite decide_False by (intros [-> _]; done). simpl.
  destruct (result (dispatchHandler run b (k, vs))); [by apply IH|done].
Qed.

(** Each handler is called at most once, and then with the batch and
    with the approval of all of its validators. *)
Lemma forEach_dispatch_handlerCalls h b l :
  NoDup l.*1 →
  handlerCalls h (trace (forEach (dispatchHandler run b) l)) = [] ∨
  (handlerCalls h (trace (forEach (dispatchHandler run b) l)) = [b] ∧
   ∃ vs, (VFunction h, vs) ∈ l ∧
         result (validatorsApprove run vs b) = Returns true).
Proof.
  induction l as [|[k vs] l IH]; [by left|].
  intros [Hk Hl]%NoDup_cons. rewrite forEach_cons_trace.
  rewrite handlerCalls_app, dispatchHandler_handlerCalls.
  case_decide as Hd.
  - destruct Hd as [-> Hv]. right. split.
    + destruct (result (dispatchHandler run b (VFunction h, vs))); [|done].
      by rewrite forEach_dispatch_absent.
    + exists vs. split; [left|done].
  - simpl. destruct (result (dispatchHandler run b (k, vs))); [|by left].
    destruct (IH Hl) as [?|[? (vs' & ? & ?)]]; [by left|right].
    split; [done|]. exists vs'. split; [by right|done].
Qed.

(** When the loop completes, a handler whose validators approve has
    been called. *)
Lemma forEach_dispatch_fires h b l vs :
  NoDup l.*1 →
  result (forEach (dispatchHandler run b) l) = Returns tt →
  (VFunction h, vs) ∈ l →
  result (validatorsApprove run vs b) = Returns true →
  handlerCalls h (trace (forEach (dispatchHandler run b) l)) = [b].
Proof.
  induction l as [|[k vs'] l IH]; [by intros _ _ ?%elem_of_nil|].
  intros [Hk Hl]%NoDup_cons Hret Hin Hv.
  rewrite forEach_cons_trace.
  apply forEach_cons_result in Hret as [Hx Hrest].
  rewrite Hx, handlerCalls_app, dispatchHandler_handlerCalls.
  apply elem_of_cons in Hin as [[= <- <-]|Hin].
  - rewrite decide_True by done. by rewrite forEach_dispatch_absent.
  - rewrite decide_False.
    + by apply IH.
    + intros [-> _]. apply Hk. apply list_elem_of_fmap.
      by exists (VFunction h, vs).
Qed.

(** An entry whose validators reject is passed over: the loop calls
    the same handlers and ends in the same way as without the entry. *)
Lemma forEach_dispatch_rejected b ran k vs rest :
  result (validatorsApprove run vs b) = Returns false →
  handlersCalled
    (trace (forEach (dispatchHandler run b) (ran ++ (k, vs) :: rest)))
  = handlersCalled (trace (forEach (dispatchHandler run b) (ran ++ rest))) ∧
  result (forEach (dispatchHandler run b) (ran ++ (k, vs) :: rest))
  = result (forEach (dispatchHandler run b) (ran ++ rest)).
Proof.
  intros Hrej. rewrite !forEach_app.
  assert (dispatchHandler run b (k, vs)
          = mkM (trace (validatorsApprove run vs b)) (Returns tt)) as Hentry.
  { by rewrite dispatchHandler_unfold, Hrej. }
  destruct (validatorsApprove_trace vs b) as (Hquiet & _ & _).
  destruct (result (forEach (dispatchHandler run b) ran)) as [[]|e] eqn:Hran.
  - rewrite !(bind_returns _ _ tt) by done. cbn [trace result forEach].
    rewrite Hentry, (bind_returns _ _ tt) by done. cbn [trace result].
    by rewrite !handlersCalled_app, Hquiet.
  - by rewrite !(bind_throws _ _ e) by done.
Qed.

Lemma forEach_dispatch_quiet b l :
  onChangesCalls (trace (forEach (dispatchHandler run b) l)) = [] ∧
  detectChangesCount (trace (forEach (dispatchHandler run b) l)) = 0.
Proof.
  induction l as [|[k vs] l [IH1 IH2]]; [done|].
  rewrite forEach_cons_trace, onChangesCalls_app, detectChangesCount_app.
  destruct (dispatchHandler_quiet b k vs) as [-> ->].
  by destruct (result (dispatchHandler run b (k, vs))).
Qed.

(** ** Which handlers are gathered *)

Lemma triggersb_triggers b (attrs : gset string) :
  triggersb b attrs = true ↔ triggers b attrs.
Proof.
  unfold triggersb, triggers. rewrite existsb_exists. split.
  - intros ([p c] & Hin & Hc). apply list_elem_of_In in Hin.
    apply elem_of_map_to_list in Hin.
    apply andb_true_iff in Hc as [? ?%bool_decide_eq_true]. eauto.
  - intros (p & c & Hl & Hc & Hp). exists (p, c). split.
    + apply list_elem_of_In. by apply elem_of_map_to_list.
    + rewrite Hc. simpl. by apply bool_decide_eq_true.
Qed.

Lemma groupTriggered_registered reg b g attrs :
  Map_get g (propertiesByGroup reg) = Some attrs →
  groupTriggered reg b g ↔ triggersb b attrs = true.
Proof.
  intros Hg. rewrite triggersb_triggers. unfold groupTriggered. split.
  - intros (attrs' & Hg' & ?). congruence.
  - intros ?. eauto.
Qed.

Lemma shouldIncludeGroup_registered mgr b g attrs :
  Map_get g (propertiesByGroup (registry mgr)) = Some attrs →
  shouldIncludeGroup mgr b g = mret (triggersb b attrs).
Proof.
  unfold shouldIncludeGroup, triggersb. intros ->.
  induction (map_to_list b) as [|[p c] l IH]; simpl; [done|].
  unfold M_bind. simpl.
  destruct (TChange.didChange c && bool_decide (p ∈ attrs)); [done|].
  by rewrite IH.
Qed.

Lemma collectGroup_registered mgr b acc g cb val attrs :
  Map_get g (propertiesByGroup (registry mgr)) = Some attrs →
  collectGroup mgr b acc (g, TCallbackConfig.mk cb val) =
  mret (if triggersb b attrs
        then Map_set (canon cb)
               (if truthy val
                then Set_add (canon val)
                       (default [] (Map_get (canon cb) acc))
                else default [] (Map_get (canon cb) acc))
               acc
        else acc).
Proof.
  intros Hg. unfold collectGroup.
  rewrite (shouldIncludeGroup_registered _ _ _ _ Hg), ret_bind.
  by destruct (triggersb b attrs).
Qed.

(** The aggregation has one entry per handler of a triggered group, and
    the validators of an entry are the truthy validators of the
    triggered groups registered with that handler. *)
Lemma reduce_collectGroup mgr b l acc :
  (∀ g cfg, (g, cfg) ∈ l →
            is_Some (Map_get g (propertiesByGroup (registry mgr)))) →
  NoDup acc.*1 →
  ∃ agg,
    reduce (collectGroup mgr b) l acc = mret agg ∧
    NoDup agg.*1 ∧
    (∀ k, k ∈ agg.*1 ↔
          k ∈ acc.*1 ∨
          ∃ g cfg, (g, cfg) ∈ l ∧ groupTriggered (registry mgr) b g ∧
                   canon (TCallbackConfig.callback cfg) = k) ∧
    (∀ k v, v ∈ default [] (Map_get k agg) ↔
            v ∈ default [] (Map_get k acc) ∨
            ∃ g cfg, (g, cfg) ∈ l ∧ groupTriggered (registry mgr) b g ∧
                     canon (TCallbackConfig.callback cfg) = k ∧
                     truthy (TCallbackConfig.validator cfg) = true ∧
                     v = TCallbackConfig.validator cfg).
Proof.
  revert acc. induction l as [|[g [cb val]] l IH]; intros acc Hreg Hnd.
  { exists acc. split; [done|]. split; [done|].
    split; intros; (split; [by left|]);
      (intros [?|(? & ? & ?%elem_of_nil & _)]; done). }
  destruct (Hreg g (TCallbackConfig.mk cb val)) as [attrs Hg]; [left|].
  cbn [reduce]. rewrite (collectGroup_registered _ _ _ _ _ _ _ Hg), ret_bind.
  pose proof (groupTriggered_registered _ b _ _ Hg) as Htrig.
  set (acc' := if triggersb b attrs then _ else acc).
  destruct (IH acc') as (agg & Hagg & Hnd' & Hkeys & Hvals).
  { intros g' cfg' Hin. apply (Hreg g' cfg'). by right. }
  { unfold acc'. destruct (triggersb b attrs); [|done].
    by apply Map_set_NoDup. }
  exists agg. split; [done|]. split; [done|]. split.
  - intros k. rewrite Hkeys. unfold acc'. clear Hkeys Hvals Hagg.
    destruct (triggersb b attrs) eqn:Ht.
    + rewrite Map_set_keys. split.
      * intros [[->|?]|(g' & cfg' & ? & ? & ?)]; [right|by left|right].
        -- exists g, (TCallbackConfig.mk cb val).
           split; [left|]. split; [by apply Htrig|done].
        -- exists g', cfg'. split; [by right|done].
      * intros [?|(g' & cfg' & Hin & Hg' & Hk)]; [left; by right|].
        apply elem_of_cons in Hin as [[= -> ->]|Hin].
        -- left. by left.
        -- right. by exists g', cfg'.
    + split.
      * intros [?|(g' & cfg' & ? & ? & ?)]; [by left|right].
        exists g', cfg'. split; [by right|done].
      * intros [?|(g' & cfg' & Hin & Hg' & Hk)]; [by left|].
        apply elem_of_cons in Hin as [[= -> ->]|Hin].
        -- apply Htrig in Hg'. congruence.
        -- right. by exists g', cfg'.
  - intros k v. rewrite Hvals. unfold acc'. clear Hkeys Hvals Hagg.
    destruct (triggersb b attrs) eqn:Ht.
    + rewrite Map_get_set. split.
      * intros [Hv|(g' & cfg' & ? & ? & ?)].
        -- destruct (decide (k = canon cb)) as [->|?]; [|by left].
           simpl in Hv. destruct (truthy val) eqn:Hval; [|by left].
           apply Set_add_elem in Hv as [->|?]; [|by left].
           right. exists g, (TCallbackConfig.mk cb val).
           split; [left|]. split; [by apply Htrig|].
           simpl. split; [done|]. split; [done|]. by apply truthy_canon.
        -- right. exists g', cfg'. split; [by right|done].
      * intros [Hv|(g' & cfg' & Hin & Hg' & Hk & Hval & ->)].
        -- left. destruct (decide (k = canon cb)) as [->|?]; [|done].
           simpl. destruct (truthy val); [|done].
           apply Set_add_elem. by right.
        -- apply elem_of_cons in Hin as [[= -> ->]|Hin].
           ++ left. simpl in *. subst k. rewrite decide_True by done.
              simpl. rewrite Hval. apply Set_add_elem. left.
              by rewrite truthy_canon.
           ++ right. exists g', cfg'. by repeat split.
    + split.
      * intros [?|(g' & cfg' & ? & ? & ?)]; [by left|right].
        exists g', cfg'. split; [by right|done].
      * intros [?|(g' & cfg' & Hin & Hg' & Hk)]; [by left|].
        apply elem_of_cons in Hin as [[= -> ->]|Hin].
        -- apply Htrig in Hg'. congruence.
        -- right. by exists g', cfg'.
Qed.

Lemma getCallbacksWhichShouldBeExecuted_spec mgr b :
  consistent (registry mgr) →
  ∃ agg,
    getCallbacksWhichShouldBeExecuted mgr b = mret agg ∧
    NoDup agg.*1 ∧
    (∀ k, k ∈ agg.*1 ↔
          ∃ g cfg, (g, cfg) ∈ callbacksByGroup (registry mgr) ∧
                   groupTriggered (registry mgr) b g ∧
                   canon (TCallbackConfig.callback cfg) = k) ∧
    (∀ k vs v, (k, vs) ∈ agg →
          v ∈ vs ↔
          ∃ g cfg, (g, cfg) ∈ callbacksByGroup (registry mgr) ∧
                   groupTriggered (registry mgr) b g ∧
                   canon (TCallbackConfig.callback cfg) = k ∧
                   truthy (TCallbackConfig.validator cfg) = true ∧
                   v = TCallbackConfig.validator cfg).
Proof.
  intros Hcons. unfold getCallbacksWhichShouldBeExecuted.
  destruct (reduce_collectGroup mgr b (callbacksByGroup (registry mgr)) [])
    as (agg & Hagg & Hnd & Hkeys & Hvals); [done|constructor|].
  exists agg. split; [done|]. split; [done|]. split.
  - intros k. rewrite Hkeys. split; [|by right].
    by intros [?%elem_of_nil|?].
  - intros k vs v Hin. apply (elem_Map_get _ _ _ Hnd) in Hin.
    specialize (Hvals k v). rewrite Hin in Hvals. simpl in Hvals.
    rewrite Hvals. split; [|by right]. by intros [?%elem_of_nil|?].
Qed.

Lemma executeChangesCallbacks_unfold mgr b agg :
  getCallbacksWhichShouldBeExecuted mgr b = mret agg →
  executeChangesCallbacks run mgr b =
  mkM (trace (forEach (dispatchHandler run b) agg) ++
       match result (forEach (dispatchHandler run b) agg) with
       | Returns _ => [EvDetectChanges]
       | Throws _ => []
       end)
      (result (forEach (dispatchHandler run b) agg)).
Proof.
  intros Hagg. unfold executeChangesCallbacks. rewrite Hagg, ret_bind.
  unfold mbind, M_bind, detectChanges, emit.
  destruct (result (forEach (dispatchHandler run b) agg)) as [[]|e];
    simpl; [done|by rewrite app_nil_r].
Qed.

(** The validators of an entry approve exactly when the validators of
    the handler do. *)
Lemma gathered_validators_approve mgr b k vs :
  (∀ v, v ∈ vs ↔
        ∃ g cfg, (g, cfg) ∈ callbacksByGroup (registry mgr) ∧
                 groupTriggered (registry mgr) b g ∧
                 canon (TCallbackConfig.callback cfg) = k ∧
                 truthy (TCallbackConfig.validator cfg) = true ∧
                 v = TCallbackConfig.validator cfg) →
  canon k = k →
  result (validatorsApprove run vs b) = Returns true ↔
  validatorsOfHandlerApprove run (registry mgr) b k.
Proof.
  intros Hvs Hk. rewrite validatorsApprove_true, Forall_forall.
  unfold validatorsOfHandlerApprove. rewrite Hk. split.
  - intros Hall g cfg Hin Htrig Hcb Hval. apply Hall, Hvs.
    by exists g, cfg.
  - intros Hall v (g & cfg & Hin & Htrig & Hcb & Hval & ->)%Hvs.
    by apply (Hall g cfg).
Qed.

(** ** The dispatch of one cycle *)

(** A handler is called at most once, and then with the batch itself. *)
Lemma dispatch_at_most_once mgr b h :
  consistent (registry mgr) →
  handlerCalls h (trace (executeChangesCallbacks run mgr b)) = [] ∨
  handlerCalls h (trace (executeChangesCallbacks run mgr b)) = [b].
Proof.
  intros Hcons.
  destruct (getCallbacksWhichShouldBeExecuted_spec mgr b Hcons)
    as (agg & Hagg & Hnd & _).
  rewrite (executeChangesCallbacks_unfold _ _ _ Hagg). simpl.
  rewrite handlerCalls_app.
  assert (∀ r : outcome unit,
            handlerCalls h match r with
                           | Returns _ => [EvDetectChanges]
                           | Throws _ => []
                           end = []) as -> by (by intros []).
  rewrite app_nil_r.
  destruct (forEach_dispatch_handlerCalls h b agg Hnd) as [?|[? _]]; auto.
Qed.

(** A handler is called only if one of its groups is triggered and
    every validator gathered for it approves. *)
Lemma dispatch_only_if_approved mgr b h :
  consistent (registry mgr) →
  handlerCalls h (trace (executeChangesCallbacks run mgr b)) ≠ [] →
  (∃ g cfg, (g, cfg) ∈ callbacksByGroup (registry mgr) ∧
            groupTriggered (registry mgr) b g ∧
            TCallbackConfig.callback cfg = VFunction h) ∧
  validatorsOfHandlerApprove run (registry mgr) b (VFunction h).
Proof.
  intros Hcons.
  destruct (getCallbacksWhichShouldBeExecuted_spec mgr b Hcons)
    as (agg & Hagg & Hnd & Hkeys & Hvals).
  rewrite (executeChangesCallbacks_unfold _ _ _ Hagg). simpl.
  rewrite handlerCalls_app.
  assert (∀ r : outcome unit,
            handlerCalls h match r with
                           | Returns _ => [EvDetectChanges]
                           | Throws _ => []
                           end = []) as -> by (by intros []).
  rewrite app_nil_r.
  destruct (forEach_dispatch_handlerCalls h b agg Hnd)
    as [->|[_ (vs & Hin & Hv)]]; [done|].
  intros _. split.
  - destruct (Hkeys (VFunction h)) as [(g & cfg & ? & ? & Hcb) _].
    { apply list_elem_of_fmap. by exists (VFunction h, vs). }
    rewrite canon_function in Hcb. by exists g, cfg.
  - apply (gathered_validators_approve mgr b (VFunction h) vs);
      [intros v; by apply Hvals|done..].
Qed.

(** When the dispatch completes, a handler of a triggered group whose
    validators approve has been called. *)
Lemma dispatch_fires mgr b g cfg h :
  consistent (registry mgr) →
  result (executeChangesCallbacks run mgr b) = Returns tt →
  (g, cfg) ∈ callbacksByGroup (registry mgr) →
  groupTriggered (registry mgr) b g →
  TCallbackConfig.callback cfg = VFunction h →
  validatorsOfHandlerApprove run (registry mgr) b (VFunction h) →
  handlerCalls h (trace (executeChangesCallbacks run mgr b)) = [b].
Proof.
  intros Hcons Hret Hin Htrig Hcb Happ.
  destruct (getCallbacksWhichShouldBeExecuted_spec mgr b Hcons)
    as (agg & Hagg & Hnd & Hkeys & Hvals).
  rewrite (executeChangesCallbacks_unfold _ _ _ Hagg) in Hret |- *.
  simpl in *. rewrite Hret, handlerCalls_app. simpl.
  rewrite app_nil_r.
  assert (VFunction h ∈ agg.*1) as ([k vs] & [= <-] & Hk)%list_elem_of_fmap.
  { apply Hkeys. exists g, cfg. by rewrite Hcb. }
  apply (forEach_dispatch_fires h b agg vs); [done..|].
  apply (gathered_validators_approve mgr b (VFunction h) vs);
    [intros v; by apply Hvals|done..].
Qed.

(** The re-render signal is given once, after the handlers, unless an
    exception stopped the dispatch; the hook is not called here. *)
Lemma dispatch_detectChanges mgr b :
  consistent (registry mgr) →
  detectChangesCount (trace (executeChangesCallbacks run mgr b)) =
  match result (executeChangesCallbacks run mgr b) with
  | Returns _ => 1
  | Throws _ => 0
  end ∧
  onChangesCalls (trace (executeChangesCallbacks run mgr b)) = [].
Proof.
  intros Hcons.
  destruct (getCallbacksWhichShouldBeExecuted_spec mgr b Hcons)
    as (agg & Hagg & _).
  rewrite (executeChangesCallbacks_unfold _ _ _ Hagg). simpl.
  rewrite detectChangesCount_app, onChangesCalls_app.
  destruct (forEach_dispatch_quiet b agg) as [-> ->].
  by destruct (result (forEach (dispatchHandler run b) agg)).
Qed.

(** With functions that do not throw, the dispatch completes: a
    rejection by a validator is not an error. *)
Lemma dispatch_completes mgr b :
  consistent (registry mgr) →
  wellBehaved run (registry mgr) b →
  result (executeChangesCallbacks run mgr b) = Returns tt.
Proof.
  intros Hcons Hwb.
  destruct (getCallbacksWhichShouldBeExecuted_spec mgr b Hcons)
    as (agg & Hagg & Hnd & Hkeys & Hvals).
  rewrite (executeChangesCallbacks_unfold _ _ _ Hagg). simpl.
  apply forEach_all_return, Forall_forall. intros [k vs] Hin.
  destruct (Hkeys k) as [(g & cfg & Hreg & _ & Hcb) _].
  { apply list_elem_of_fmap. by exists (k, vs). }
  destruct (Hwb g cfg Hreg) as [(f & r & Hf & Hr) _].
  rewrite Hf in Hcb. simpl in Hcb. subst k.
  rewrite dispatchHandler_unfold.
  destruct (validatorsApprove_returns vs b) as [verdict ->].
  { apply Forall_forall. intros v Hv.
    apply (Hvals _ _ _ Hin) in Hv as (g' & cfg' & Hreg' & _ & _ & Hval & ->).
    destruct (Hwb g' cfg' Hreg') as [_ Hv]. by apply Hv. }
  destruct verdict; [|done]. by rewrite Hr.
Qed.
End DispatchFacts.

(** ** Group ids *)

Lemma sort_Permutation props : sort props ≡ₚ props.
Proof. apply merge_sort_Permutation. Qed.

Lemma sort_Sorted props : Sorted String.le (sort props).
Proof. apply (Sorted_merge_sort String.le). Qed.

(** The sorted list is determined by the members and their multiplicities. *)
Lemma sort_unique props1 props2 :
  props1 ≡ₚ props2 → sort props1 = sort props2.
Proof.
  intros Hperm. apply (Sorted_unique String.le); [apply sort_Sorted..|].
  by rewrite !sort_Permutation.
Qed.

Lemma groupIdOf_Permutation props1 props2 :
  props1 ≡ₚ props2 → groupIdOf props1 = groupIdOf props2.
Proof. intros Hperm. unfold groupIdOf. by rewrite (sort_unique _ _ Hperm). Qed.

Lemma groupIdOf_singleton key : groupIdOf [key] = key.
Proof. reflexivity. Qed.

(** Field names without the separator are read back from the id. *)
Lemma split_clean c s : contains c s = false → split c s = [s].
Proof.
  induction s as [|a s IH]; simpl; [done|].
  destruct (decide (a = c)); [done|]. intros Hs. by rewrite IH.
Qed.

Lemma split_append c s rest :
  contains c s = false →
  split c (s ++ String c rest) = s :: split c rest.
Proof.
  induction s as [|a s IH]; simpl.
  - by rewrite decide_True.
  - destruct (decide (a = c)); [done|]. intros Hs. by rewrite IH.
Qed.

Lemma split_join c l :
  l ≠ [] → Forall (λ s, contains c s = false) l →
  split c (join (String c EmptyString) l) = l.
Proof.
  intros Hne Hall. induction Hall as [|s l Hs Hall IH]; [done|].
  destruct l as [|s' l]; [by apply split_clean|].
  change (join (String c EmptyString) (s :: s' :: l))
    with (s ++ String c (join (String c EmptyString) (s' :: l)))%string.
  rewrite split_append by done. by rewrite IH.
Qed.

Lemma split_groupIdOf props :
  props ≠ [] → Forall (λ s, contains "|" s = false) props →
  split "|" (groupIdOf props) = sort props.
Proof.
  intros Hne Hall. apply split_join.
  - intros Hnil. pose proof (sort_Permutation props) as Hp.
    rewrite Hnil in Hp. by apply Permutation_nil_l in Hp.
  - by rewrite sort_Permutation.
Qed.

(** ** Building the registry *)

Lemma getCallbacksConfigFromParameterObject_fold entries acc :
  fold_left
    (λ accumulator '(key, config),
       let callbackConfig := sanitize config in
       let keys := [key] in
       accumulator ++ [(keys, callbackConfig)])
    entries acc =
  acc ++ getCallbacksConfigFromParameter
           (map (λ '(key, d), ([key], d)) entries).
Proof.
  revert acc. induction entries as [|[key d] entries IH]; intros acc; simpl.
  - by rewrite app_nil_r.
  - rewrite IH. by rewrite <- (assoc_L (++)).
Qed.

(** The object shape is the array shape with one-property groups. *)
Lemma getCallbacksConfigFromParameterObject_singletons entries :
  getCallbacksConfigFromParameterObject entries =
  getCallbacksConfigFromParameter (map (λ '(key, d), ([key], d)) entries).
Proof. apply getCallbacksConfigFromParameterObject_fold. Qed.

Lemma registerGroup_Some reg props c :
  registerGroup reg (props, Some c) =
  mret (mkRegistry
          (Map_set (groupIdOf props) (list_to_set props)
                   (propertiesByGroup reg))
          (Map_set (groupIdOf props)
                   (stored c) (callbacksByGroup reg))).
Proof. by destruct c. Qed.

Lemma reduce_app {A B} (f : B → A → M B) l1 l2 acc :
  reduce f (l1 ++ l2) acc = reduce f l1 acc ≫= reduce f l2.
Proof.
  revert acc. induction l1 as [|x l1 IH]; intros acc; cbn [reduce app].
  - by rewrite ret_bind.
  - rewrite bind_assoc. by apply bind_ext.
Qed.

(** Building throws exactly when some declaration is [null] or
    [undefined], and it logs nothing. *)
Lemma reduce_registerGroup_returns config reg :
  Forall (λ entry, is_Some entry.2) config →
  ∃ reg', reduce registerGroup config reg = mret reg'.
Proof.
  intros Hall. revert reg.
  induction Hall as [|[props c] config [c' Hc] _ IH]; intros reg.
  - by exists reg.
  - simpl in Hc. subst c. cbn [reduce].
    rewrite registerGroup_Some, ret_bind. apply IH.
Qed.

Lemma reduce_registerGroup_throws config reg :
  ¬ Forall (λ entry, is_Some entry.2) config →
  reduce registerGroup config reg = throw TypeError.
Proof.
  revert reg. induction config as [|[props c] config IH]; intros reg Hnot.
  - destruct Hnot. constructor.
  - cbn [reduce]. destruct c as [c|].
    + rewrite registerGroup_Some, ret_bind. apply IH.
      intros Hall. apply Hnot. constructor; [by eexists|done].
    + done.
Qed.


Lemma Map_set_fst {K V} `{EqDecision K} (k : K) (v : V) m :
  (Map_set k v m).*1 = if decide (k ∈ m.*1) then m.*1 else m.*1 ++ [k].
Proof.
  induction m as [|[k0 v0] m IH]; cbn [Map_set fmap list_fmap].
  - case_decide as Hin; [by apply elem_of_nil in Hin|done].
  - destruct (decide (k = k0)) as [->|Hne]; cbn [fmap list_fmap fst].
    + rewrite decide_True; [done|left].
    + rewrite IH. destruct (decide (k ∈ m.*1)) as [Hin|Hnotin].
      * rewrite decide_True; [done|by right].
      * rewrite decide_False; [done|].
        by intros [?|?]%elem_of_cons.
Qed.

Lemma registryInvariant_empty : registryInvariant emptyRegistry.
Proof. split; [done|constructor]. Qed.

Lemma registryInvariant_step reg props c reg' :
  registryInvariant reg →
  registerGroup reg (props, Some c) = mret reg' →
  registryInvariant reg'.
Proof.
  intros [Hkeys Hnd]. rewrite registerGroup_Some. intros [= <-].
  split; simpl.
  - by rewrite !Map_set_fst, Hkeys.
  - by apply Map_set_NoDup.
Qed.

Lemma registryInvariant_reduce config reg reg' :
  registryInvariant reg →
  reduce registerGroup config reg = mret reg' →
  registryInvariant reg'.
Proof.
  revert reg. induction config as [|[props c] config IH]; intros reg Hinv.
  - by intros [= <-].
  - cbn [reduce]. destruct c as [c|]; [|done].
    rewrite registerGroup_Some, ret_bind. apply IH.
    by apply (registryInvariant_step reg props c); [|apply registerGroup_Some].
Qed.

Lemma registryInvariant_consistent reg :
  registryInvariant reg → consistent reg.
Proof.
  intros [Hkeys _] g cfg Hin. apply Map_get_is_Some. rewrite Hkeys.
  apply list_elem_of_fmap. by exists (g, cfg).
Qed.

(** Registrations that follow and have another group id leave a group
    as it is. *)
Lemma reduce_registerGroup_other config reg reg' g :
  Forall (λ entry, groupIdOf entry.1 ≠ g) config →
  reduce registerGroup config reg = mret reg' →
  Map_get g (callbacksByGroup reg') = Map_get g (callbacksByGroup reg) ∧
  Map_get g (propertiesByGroup reg') = Map_get g (propertiesByGroup reg).
Proof.
  intros Hall. revert reg.
  induction Hall as [|[props c] config Hne _ IH]; intros reg.
  - by intros [= <-].
  - cbn [reduce]. destruct c as [c|]; [|done].
    rewrite registerGroup_Some, ret_bind. intros Hred.
    destruct (IH _ Hred) as [-> ->]. simpl in *.
    by rewrite !Map_get_set, !decide_False.
Qed.

(** The last registration of a group id is the one the registry holds,
    in both maps. *)
Lemma reduce_registerGroup_last before props c after reg reg' :
  Forall (λ entry, groupIdOf entry.1 ≠ groupIdOf props) after →
  reduce registerGroup (before ++ (props, Some c) :: after) reg = mret reg' →
  Map_get (groupIdOf props) (callbacksByGroup reg') = Some (stored c) ∧
  Map_get (groupIdOf props) (propertiesByGroup reg') =
    Some (list_to_set props).
Proof.
  intros Hafter. rewrite reduce_app. intros Hred.
  assert (result (reduce registerGroup before reg ≫=
                  reduce registerGroup ((props, Some c) :: after))
          = Returns reg') as Hres by (by rewrite Hred).
  apply bind_result_returns in Hres as (reg1 & _ & Hres).
  cbn [reduce] in Hres. rewrite registerGroup_Some, ret_bind in Hres.
  destruct (reduce_registerGroup_returns after
    (mkRegistry
       (Map_set (groupIdOf props) (list_to_set props) (propertiesByGroup reg1))
       (Map_set (groupIdOf props) (stored c) (callbacksByGroup reg1))))
    as [reg2 Hreg2].
  { destruct (decide (Forall (λ entry : list string * option TCallbackConfig.t,
                                is_Some entry.2) after)) as [?|Hnot]; [done|].
    rewrite (reduce_registerGroup_throws _ _ Hnot) in Hres. done. }
  rewrite Hreg2 in Hres. injection Hres as <-.
  destruct (reduce_registerGroup_other _ _ _ _ Hafter Hreg2) as [-> ->].
  simpl. by rewrite !Map_get_set, !decide_True.
Qed.

Lemma setCallbacksConfig_invariant callbacksConfig reg :
  setCallbacksConfig callbacksConfig = mret reg → registryInvariant reg.
Proof.
  destruct callbacksConfig as [[entries|entries]|]; simpl.
  - apply registryInvariant_reduce, registryInvariant_empty.
  - apply registryInvariant_reduce, registryInvariant_empty.
  - intros [= <-]. apply registryInvariant_empty.
Qed.

Lemma setCallbacksConfig_trace callbacksConfig :
  trace (setCallbacksConfig callbacksConfig) = [].
Proof.
  assert (∀ config, trace (computeCallbackConfigDerivatives config) = [])
    as Hbuild.
  { intros config. unfold computeCallbackConfigDerivatives.
    destruct (decide (Forall (λ entry : list string * option TCallbackConfig.t,
                                is_Some entry.2) config)) as [Hall|Hnot].
    - by destruct (reduce_registerGroup_returns _ emptyRegistry Hall) as [? ->].
    - by rewrite (reduce_registerGroup_throws _ _ Hnot). }
  destruct callbacksConfig as [[entries|entries]|]; simpl; done.
Qed.

(** A manager that was constructed has a consistent registry. *)
Lemma constructor_consistent params mgr :
  result (constructor params) = Returns mgr → consistent (registry mgr).
Proof.
  unfold constructor. intros (reg & Hreg & [= <-])%bind_result_returns.
  simpl. apply registryInvariant_consistent.
  apply (setCallbacksConfig_invariant (p_callbacks params)).
  apply M_eq; [apply setCallbacksConfig_trace|done].
Qed.

(** ** One cycle *)

Lemma getChangesSummary_lookup simpleChanges key :
  getChangesSummary simpleChanges !! key =
  summarise <$> simpleChanges !! key.
Proof. apply lookup_fmap. Qed.

(** The batch has an entry for each property reported, and no other. *)
Lemma getChangesSummary_dom simpleChanges :
  dom (getChangesSummary simpleChanges) = dom simpleChanges.
Proof. apply dom_fmap_L. Qed.

Lemma shouldProcessChanges_spec simpleChanges :
  existsb (λ key, from_option TChange.didChange false
                    (getChangesSummary simpleChanges !! key))
          (map_to_list simpleChanges).*1 =
  existsb (λ '(_, c), didPropertyChange (Some c)) (map_to_list simpleChanges).
Proof.
  apply Bool.eq_iff_eq_true. rewrite !existsb_exists. split.
  - intros (key & Hin & Hkey). apply list_elem_of_In in Hin.
    apply list_elem_of_fmap in Hin as ([key' c] & -> & Hin). simpl in *.
    exists (key', c). split; [by apply list_elem_of_In|].
    apply elem_of_map_to_list in Hin.
    by rewrite getChangesSummary_lookup, Hin in Hkey.
  - intros ([key c] & Hin & Hc). apply list_elem_of_In in Hin.
    exists key. split.
    + apply list_elem_of_In, list_elem_of_fmap. by exists (key, c).
    + apply elem_of_map_to_list in Hin.
      by rewrite getChangesSummary_lookup, Hin.
Qed.

Lemma nothingChanged_spec simpleChanges :
  nothingChanged simpleChanges ↔
  existsb (λ '(_, c), didPropertyChange (Some c))
          (map_to_list simpleChanges) = false.
Proof.
  rewrite <- not_true_iff_false, existsb_exists. unfold nothingChanged. split.
  - intros Hno ([key c] & Hin & Hc). apply list_elem_of_In in Hin.
    apply elem_of_map_to_list in Hin. rewrite (Hno key c Hin) in Hc. done.
  - intros Hno key c Hin. apply not_true_iff_false. intros Hc. apply Hno.
    exists (key, c). split; [|done].
    by apply list_elem_of_In, elem_of_map_to_list.
Qed.

Lemma triggers_changed simpleChanges attrs :
  triggers (getChangesSummary simpleChanges) attrs →
  existsb (λ '(_, c), didPropertyChange (Some c))
          (map_to_list simpleChanges) = true.
Proof.
  intros (property & change & Hl & Hc & _).
  rewrite getChangesSummary_lookup in Hl.
  destruct (simpleChanges !! property) as [c|] eqn:E; [|done].
  injection Hl as <-. apply existsb_exists. exists (property, c).
  split; [|done]. by apply list_elem_of_In, elem_of_map_to_list.
Qed.

(** A batch that triggers a group is never cut short by the strict mode. *)
Lemma groupTriggered_processed mgr simpleChanges g :
  groupTriggered (registry mgr) (getChangesSummary simpleChanges) g →
  cycleProcessed mgr simpleChanges = true.
Proof.
  intros (attrs & _ & Htrig). unfold cycleProcessed.
  rewrite (triggers_changed _ _ Htrig). apply orb_true_r.
Qed.

Lemma nothingChanged_not_triggered reg simpleChanges g :
  nothingChanged simpleChanges →
  ¬ groupTriggered reg (getChangesSummary simpleChanges) g.
Proof.
  intros Hno (attrs & _ & Htrig). apply triggers_changed in Htrig.
  apply nothingChanged_spec in Hno. congruence.
Qed.

Section CycleFacts.
Context (run : FnId → ChangeBatch → outcome value).

Lemma _manageChanges_unfold mgr simpleChanges :
  _manageChanges run mgr simpleChanges =
  if cycleProcessed mgr simpleChanges
  then executeChangesCallbacks run mgr (getChangesSummary simpleChanges);;
       callOnChanges run mgr (getChangesSummary simpleChanges);;
       mret (getChangesSummary simpleChanges)
  else mret (getChangesSummary simpleChanges).
Proof.
  unfold _manageChanges, cycleProcessed.
  rewrite shouldProcessChanges_spec.
  by destruct (strict mgr), (existsb _ _).
Qed.

Lemma callOnChanges_trace mgr b :
  handlersCalled (trace (callOnChanges run mgr b)) = [] ∧
  detectChangesCount (trace (callOnChanges run mgr b)) = 0.
Proof.
  unfold callOnChanges. destruct (onChanges mgr); simpl; try done.
  unfold mbind, M_bind. simpl. by destruct (run f b).
Qed.

(** A processed cycle runs the dispatch first; what the hook adds to
    the trace is neither a handler call nor a re-render. *)
Lemma _manageChanges_processed mgr simpleChanges :
  cycleProcessed mgr simpleChanges = true →
  let b := getChangesSummary simpleChanges in
  ∃ hook,
    trace (_manageChanges run mgr simpleChanges) =
      trace (executeChangesCallbacks run mgr b) ++ hook ∧
    handlersCalled hook = [] ∧ detectChangesCount hook = 0 ∧
    (∀ e, result (executeChangesCallbacks run mgr b) = Throws e →
          hook = [] ∧
          result (_manageChanges run mgr simpleChanges) = Throws e).
Proof.
  intros Hp b. rewrite _manageChanges_unfold, Hp. fold b.
  destruct (result (executeChangesCallbacks run mgr b)) as [[]|e] eqn:E.
  - rewrite (bind_returns _ _ tt) by done. simpl.
    exists (trace (callOnChanges run mgr b ≫= λ _, mret b)).
    split; [done|]. destruct (callOnChanges_trace mgr b) as [Hh Hd].
    unfold mbind, M_bind.
    destruct (result (callOnChanges run mgr b)); simpl;
      rewrite ?app_nil_r; done.
  - rewrite (bind_throws _ _ e) by done. simpl. exists [].
    rewrite app_nil_r. split; [done|]. split; [done|]. split; [done|].
    intros e0 [= ->]. by split.
Qed.
End CycleFacts.

(** ** Evaluating the scenarios *)

Lemma built_constructor params mgr :
  result (constructor params) = Returns mgr → Scenario.built params = mgr.
Proof. unfold Scenario.built. by intros ->. Qed.

Lemma built_consistent params :
  (∃ mgr, result (constructor params) = Returns mgr) →
  consistent (registry (Scenario.built params)).
Proof.
  intros [mgr Hmgr]. rewrite (built_constructor _ _ Hmgr).
  by apply (constructor_consistent params).
Qed.

(** Membership in a registry that has been computed. *)
Ltac registered_group Hin :=
  match type of Hin with
  | _ ∈ ?l =>
      let l' := eval vm_compute in l in
      change l with l' in Hin;
      repeat (apply elem_of_cons in Hin as [Hin|Hin];
              [injection Hin as -> ->|]);
      try (by apply elem_of_nil in Hin)
  end.

(** ** C1: a triggered group runs its handler once, with the full batch *)

(** Where the entry of a handler stands in the aggregation decides
    whether it is reached: the entries before it must complete. *)
Lemma forEach_dispatch_at run h b earlier vs later :
  VFunction h ∉ earlier.*1 → VFunction h ∉ later.*1 →
  handlerCalls h
    (trace (forEach (dispatchHandler run b)
              (earlier ++ (VFunction h, vs) :: later)))
  = if decide (result (forEach (dispatchHandler run b) earlier) = Returns tt ∧
               result (validatorsApprove run vs b) = Returns true)
    then [b] else [].
Proof.
  intros Hearlier Hlater. rewrite forEach_app.
  unfold mbind, M_bind.
  destruct (result (forEach (dispatchHandler run b) earlier))
    as [[]|e] eqn:Hres; cbn [trace].
  - rewrite handlerCalls_app, forEach_dispatch_absent by done.
    rewrite forEach_cons_trace, handlerCalls_app.
    rewrite dispatchHandler_handlerCalls.
    assert (handlerCalls h
              match result (dispatchHandler run b (VFunction h, vs)) with
              | Returns _ => trace (forEach (dispatchHandler run b) later)
              | Throws _ => []
              end = []) as ->.
    { destruct (result (dispatchHandler run b (VFunction h, vs)));
        [by apply forEach_dispatch_absent|done]. }
    repeat case_decide; naive_solver.
  - rewrite forEach_dispatch_absent by done.
    rewrite decide_False; [done|]. by intros [? _].
Qed.

(** C1 (as amended). For every registered group and every cycle in which
    a property of the group is reported with [didChange], the handler of
    the group is called exactly once, with the batch of the whole cycle,
    which has an entry for every property reported, provided that every
    validator gathered for that handler approves the batch and that the
    handlers which the cycle dispatches before it complete; when one of
    the two conditions fails the handler is not called at all. What
    comes after the call does not matter: the handler itself, a later
    handler or the hook may throw. *)
Theorem triggered_handler_called_once
    run mgr simpleChanges groupId cfg h :
  let changesSummary := getChangesSummary simpleChanges in
  let tr := trace (_manageChanges run mgr simpleChanges) in
  consistent (registry mgr) →
  (groupId, cfg) ∈ callbacksByGroup (registry mgr) →
  TCallbackConfig.callback cfg = VFunction h →
  groupTriggered (registry mgr) changesSummary groupId →
  ∃ callbacks earlier validators later,
    getCallbacksWhichShouldBeExecuted mgr changesSummary = mret callbacks ∧
    callbacks = earlier ++ (VFunction h, validators) :: later ∧
    (handlerCalls h tr = [changesSummary] ↔
     validatorsOfHandlerApprove run (registry mgr) changesSummary
       (VFunction h) ∧
     result (forEach (dispatchHandler run changesSummary) earlier)
       = Returns tt) ∧
    (handlerCalls h tr = [changesSummary] ∨ handlerCalls h tr = []) ∧
    dom changesSummary = dom simpleChanges.
Proof.
  intros b tr Hcons Hin Hcb Htrig. subst tr.
  destruct (getCallbacksWhichShouldBeExecuted_spec mgr b Hcons)
    as (agg & Hagg & Hnd & Hkeys & Hvals).
  assert (VFunction h ∈ agg.*1) as Hk.
  { apply Hkeys. exists groupId, cfg. by rewrite Hcb. }
  apply list_elem_of_fmap in Hk as ([k vs] & Hkeq & Hentry).
  simpl in Hkeq. subst k.
  assert (∀ v, v ∈ vs ↔
            ∃ g cfg', (g, cfg') ∈ callbacksByGroup (registry mgr) ∧
                      groupTriggered (registry mgr) b g ∧
                      canon (TCallbackConfig.callback cfg') = VFunction h ∧
                      truthy (TCallbackConfig.validator cfg') = true ∧
                      v = TCallbackConfig.validator cfg') as Hvs
    by (intros v; by apply Hvals).
  apply list_elem_of_split in Hentry as (earlier & later & ->).
  rewrite fmap_app, fmap_cons in Hnd. cbn [fst] in Hnd.
  apply NoDup_app in Hnd as (_ & Hfresh & [Hlater _]%NoDup_cons).
  assert (VFunction h ∉ earlier.*1) as Hearlier.
  { intros Hin'. apply (Hfresh _ Hin'). left. }
  exists (earlier ++ (VFunction h, vs) :: later), earlier, vs, later.
  split; [done|]. split; [done|].
  assert (handlerCalls h (trace (_manageChanges run mgr simpleChanges))
          = if decide
                 (result (forEach (dispatchHandler run b) earlier)
                    = Returns tt ∧
                  result (validatorsApprove run vs b) = Returns true)
            then [b] else []) as Hcalls.
  { destruct (_manageChanges_processed run mgr simpleChanges)
      as (hook & -> & Hh & _); [by eapply groupTriggered_processed|].
    rewrite handlerCalls_app, (handlerCalls_handlersCalled _ _ Hh), app_nil_r.
    fold b. rewrite (executeChangesCallbacks_unfold run _ _ _ Hagg).
    cbn [trace]. rewrite handlerCalls_app.
    rewrite forEach_dispatch_at by done.
    destruct (result (forEach _ (earlier ++ _ :: later))); simpl;
      by rewrite app_nil_r. }
  pose proof (gathered_validators_approve run mgr b (VFunction h) vs Hvs
                eq_refl) as Happrove.
  rewrite Hcalls. split; [|split; [|apply getChangesSummary_dom]].
  - rewrite <- Happrove. case_decide; naive_solver.
  - case_decide; [by left|by right].
Qed.

(** Two handlers triggered by one cycle, the first of which throws: the
    first handler was called once with the batch of the cycle, although
    the dispatch throws. *)
Lemma triggered_handler_called_once_witness :
  let mgr := Scenario.built (Scenario.twoHandlers (DelayNumber S754_nan)) in
  handlerCalls 1
    (trace (_manageChanges Scenario.failing mgr Scenario.abChanged))
    = [getChangesSummary Scenario.abChanged] ∧
  result (_manageChanges Scenario.failing mgr Scenario.abChanged)
    = Throws Scenario.boom.
Proof.
  intros mgr.
  destruct (triggered_handler_called_once Scenario.failing mgr
              Scenario.abChanged "a"
              (TCallbackConfig.mk (VFunction 1) VNull) 1)
    as (callbacks & earlier & vs & later & Hagg & Hsplit & Hiff & _).
  - apply built_consistent. eexists. vm_compute. reflexivity.
  - vm_compute. left.
  - reflexivity.
  - apply (groupTriggered_registered _ _ _ (list_to_set ["a"]));
      vm_compute; reflexivity.
  - split; [|vm_compute; reflexivity]. apply Hiff. split.
    + intros g cfg Hin _ _ Hval. registered_group Hin; discriminate Hval.
    + vm_compute in Hagg. injection Hagg as <-.
      destruct earlier as [|entry earlier]; [reflexivity|].
      exfalso. injection Hsplit as _ Hrest.
      destruct earlier as [|entry' earlier]; [discriminate Hrest|].
      injection Hrest as _ Hrest. by destruct earlier.
Defined.

(** The second handler of the same cycle is triggered and has no
    validator, and is not called: the first handler threw before it. *)
Example triggered_handler_not_called_after_exception :
  let mgr := Scenario.built (Scenario.twoHandlers (DelayNumber S754_nan)) in
  groupTriggered (registry mgr) (getChangesSummary Scenario.abChanged) "b" ∧
  handlerCalls 2
    (trace (_manageChanges Scenario.failing mgr Scenario.abChanged)) = [].
Proof.
  split; [|vm_compute; reflexivity].
  apply (groupTriggered_registered _ _ _ (list_to_set ["b"]));
    vm_compute; reflexivity.
Qed.

(** Both properties of the group changed: still one call, and one
    re-render. *)
Example both_properties_changed_one_call :
  let m := _manageChanges Scenario.quiet
             (Scenario.built Scenario.fullNameParams) Scenario.bothChanged in
  handlerCalls 1 (trace m) = [getChangesSummary Scenario.bothChanged] ∧
  detectChangesCount (trace m) = 1 ∧
  result m = Returns (getChangesSummary Scenario.bothChanged).
Proof. repeat split; vm_compute; reflexivity. Qed.

(** C1 as stated fails: a group whose validator rejects the batch is
    triggered and its handler is not called. *)
Lemma triggered_handler_not_called_when_rejected :
  ¬ (∀ run mgr simpleChanges groupId cfg h,
       consistent (registry mgr) →
       (groupId, cfg) ∈ callbacksByGroup (registry mgr) →
       TCallbackConfig.callback cfg = VFunction h →
       groupTriggered (registry mgr) (getChangesSummary simpleChanges)
         groupId →
       length (handlerCalls h (trace (_manageChanges run mgr simpleChanges)))
         = 1).
Proof.
  intros Hclaim.
  specialize (Hclaim Scenario.rejecting
                (Scenario.built Scenario.gatedParams) Scenario.aChanged
                "a" (TCallbackConfig.mk (VFunction 1) (VFunction 2)) 1).
  assert (length (handlerCalls 1
            (trace (_manageChanges Scenario.rejecting
                      (Scenario.built Scenario.gatedParams)
                      Scenario.aChanged))) = 0) as Hzero
    by (vm_compute; reflexivity).
  rewrite Hzero in Hclaim. discriminate Hclaim.
  - apply built_consistent. eexists. vm_compute. reflexivity.
  - vm_compute. left.
  - reflexivity.
  - apply (groupTriggered_registered _ _ _ (list_to_set ["a"]));
      vm_compute; reflexivity.
Qed.

(** ** C3: validators of overlapping groups are conjoined *)

(** C3. In the dispatch of a cycle, a handler that is reachable through
    several triggered groups, each with its validator, is called at most
    once; it is called only if every validator gathered for it returns a
    truthy value on the batch of the cycle; and a validator that rejects
    stops nothing else: the dispatch calls the same handlers and ends in
    the same way as if the rejected handler had not been gathered at
    all. Hence, whenever the dispatch ends without an exception, as it
    does when no registered function throws, every handler of a
    triggered group whose own validators approve has been called once
    and the re-render signal has been given. *)
Theorem overlapping_validators_all_required run mgr changesSummary h :
  consistent (registry mgr) →
  let tr := trace (executeChangesCallbacks run mgr changesSummary) in
  (handlerCalls h tr = [] ∨ handlerCalls h tr = [changesSummary]) ∧
  (handlerCalls h tr ≠ [] →
   validatorsOfHandlerApprove run (registry mgr) changesSummary
     (VFunction h)) ∧
  (∀ callbacks ran k vs rest,
     getCallbacksWhichShouldBeExecuted mgr changesSummary = mret callbacks →
     callbacks = ran ++ (k, vs) :: rest →
     result (validatorsApprove run vs changesSummary) = Returns false →
     handlersCalled tr =
       handlersCalled
         (trace (forEach (dispatchHandler run changesSummary) (ran ++ rest))) ∧
     result (executeChangesCallbacks run mgr changesSummary) =
       result (forEach (dispatchHandler run changesSummary) (ran ++ rest))) ∧
  (result (executeChangesCallbacks run mgr changesSummary) = Returns tt →
   detectChangesCount tr = 1 ∧
   ∀ h' g cfg,
     (g, cfg) ∈ callbacksByGroup (registry mgr) →
     groupTriggered (registry mgr) changesSummary g →
     TCallbackConfig.callback cfg = VFunction h' →
     validatorsOfHandlerApprove run (registry mgr) changesSummary
       (VFunction h') →
     handlerCalls h' tr = [changesSummary]) ∧
  (wellBehaved run (registry mgr) changesSummary →
   result (executeChangesCallbacks run mgr changesSummary) = Returns tt).
Proof.
  intros Hcons tr. split; [by apply dispatch_at_most_once|].
  split; [intros Hcalled; by apply dispatch_only_if_approved|].
  split; [|split; [|by apply dispatch_completes]].
  - intros callbacks ran k vs rest Hagg -> Hrej. unfold tr.
    rewrite (executeChangesCallbacks_unfold _ _ _ _ Hagg). simpl.
    destruct (forEach_dispatch_rejected run changesSummary ran k vs rest Hrej)
      as [Hcalls Hres].
    rewrite handlersCalled_app, Hcalls, Hres. split; [|done].
    destruct (result (forEach _ (ran ++ rest))); simpl;
      by rewrite app_nil_r.
  - intros Hret. split.
    + destruct (dispatch_detectChanges run mgr changesSummary Hcons)
        as [Hd _].
      unfold tr. by rewrite Hd, Hret.
    + intros h' g cfg Hin Htrig Hcb Happ. by eapply dispatch_fires.
Qed.

(** Handler [1] sits on the groups [a], [b] and [b], [c] with the
    validators [2] and [3], which approve; handler [4] has the validator
    [5], which rejects; handler [6] has none. When [b] changes, [1] and
    [6] run once each, [4] does not run, and the view is re-rendered. *)
Lemma overlapping_validators_all_required_witness :
  let mgr := Scenario.built Scenario.overlappingParams in
  let b := getChangesSummary Scenario.bChanged in
  let tr := trace (executeChangesCallbacks Scenario.verdicts mgr b) in
  handlerCalls 1 tr = [b] ∧ handlerCalls 4 tr = [] ∧
  handlerCalls 6 tr = [b] ∧ detectChangesCount tr = 1.
Proof.
  intros mgr b tr.
  assert (consistent (registry mgr)) as Hcons.
  { apply built_consistent. eexists. vm_compute. reflexivity. }
  assert (wellBehaved Scenario.verdicts (registry mgr) b) as Hwb.
  { intros g cfg Hin. registered_group Hin;
      (split; [by eexists _, _|]); intros Hval;
      first [discriminate Hval | by eexists _, _]. }
  destruct (overlapping_validators_all_required Scenario.verdicts mgr b 4
              Hcons) as (_ & Honly & _ & _ & _).
  destruct (overlapping_validators_all_required Scenario.verdicts mgr b 1
              Hcons) as (_ & _ & _ & Hfires & Hcompletes).
  destruct (Hfires (Hcompletes Hwb)) as [Hdetect Hcalled].
  split; [|split; [|split; [|exact Hdetect]]].
  - apply (Hcalled 1 "a|b" (TCallbackConfig.mk (VFunction 1) (VFunction 2))).
    + vm_compute. left.
    + apply (groupTriggered_registered _ _ _ (list_to_set ["a"; "b"]));
        vm_compute; reflexivity.
    + reflexivity.
    + intros g cfg Hin _ Hcb Hval. registered_group Hin;
        first [discriminate Hcb | discriminate Hval
              | eexists _, _; split; [reflexivity|];
                split; vm_compute; reflexivity].
  - destruct (handlerCalls 4 tr) as [|b' calls] eqn:E; [done|].
    exfalso. assert (b' :: calls ≠ []) as Hne by done.
    rewrite <- E in Hne.
    destruct (Honly Hne "b" (TCallbackConfig.mk (VFunction 4) (VFunction 5)))
      as (f & r & [= <-] & Hr & Htruthy).
    + vm_compute. do 2 right. left.
    + apply (groupTriggered_registered _ _ _ (list_to_set ["b"]));
        vm_compute; reflexivity.
    + reflexivity.
    + reflexivity.
    + vm_compute in Hr. injection Hr as <-. discriminate Htruthy.
  - apply (Hcalled 6 "b|d" (TCallbackConfig.mk (VFunction 6) VNull)).
    + vm_compute. do 3 right. left.
    + apply (groupTriggered_registered _ _ _ (list_to_set ["d"; "b"]));
        vm_compute; reflexivity.
    + reflexivity.
    + intros g cfg Hin _ Hcb Hval. registered_group Hin;
        first [discriminate Hcb | discriminate Hval].
Defined.

(** ** C5: a cycle in which nothing changed *)

Lemma trace_bind_ret {A B} (m : M A) (b : B) :
  trace (m ≫= λ _, mret b) = trace m.
Proof.
  unfold mbind, M_bind. destruct (result m); simpl; [|done].
  by rewrite app_nil_r.
Qed.

Lemma constructor_strict params mgr :
  result (constructor params) = Returns mgr →
  strict mgr = default true (p_strict params).
Proof.
  unfold constructor. by intros (reg & _ & [= <-])%bind_result_returns.
Qed.

(** Without a change no group is triggered, so no handler is gathered. *)
Lemma nothingChanged_no_callbacks mgr simpleChanges :
  consistent (registry mgr) →
  nothingChanged simpleChanges →
  getCallbacksWhichShouldBeExecuted mgr (getChangesSummary simpleChanges)
    = mret [].
Proof.
  intros Hcons Hno.
  destruct (getCallbacksWhichShouldBeExecuted_spec mgr
              (getChangesSummary simpleChanges) Hcons)
    as (agg & -> & _ & Hkeys & _).
  destruct agg as [|[k vs] agg]; [done|].
  destruct (Hkeys k) as [(g & cfg & _ & Htrig & _) _]; [left|].
  by apply nothingChanged_not_triggered in Htrig.
Qed.

(** C5. When no property of the batch has [didChange]: in strict mode,
    which is the mode of a manager constructed without a [strict]
    argument, the cycle ends at once, with no handler, no validator, no
    hook and no re-render; in non-strict mode the dispatch completes
    without calling any handler or validator and gives the re-render
    signal exactly once (the [onChanges] hook, if any, follows). *)
Theorem unchanged_cycle_strict_and_lenient run mgr simpleChanges :
  consistent (registry mgr) →
  nothingChanged simpleChanges →
  let changesSummary := getChangesSummary simpleChanges in
  (∀ params, p_strict params = None →
             result (constructor params) = Returns mgr →
             strict mgr = true) ∧
  (strict mgr = true →
   _manageChanges run mgr simpleChanges = mret changesSummary) ∧
  (strict mgr = false →
   executeChangesCallbacks run mgr changesSummary
     = mkM [EvDetectChanges] (Returns tt) ∧
   trace (_manageChanges run mgr simpleChanges)
     = EvDetectChanges :: trace (callOnChanges run mgr changesSummary) ∧
   handlersCalled (trace (_manageChanges run mgr simpleChanges)) = [] ∧
   validatorCalls (trace (_manageChanges run mgr simpleChanges)) = [] ∧
   detectChangesCount (trace (_manageChanges run mgr simpleChanges)) = 1).
Proof.
  intros Hcons Hno b.
  assert (executeChangesCallbacks run mgr b
          = mkM [EvDetectChanges] (Returns tt)) as Hexec.
  { by rewrite (executeChangesCallbacks_unfold run mgr b []
                  (nothingChanged_no_callbacks _ _ Hcons Hno)). }
  split; [|split].
  - intros params Hdefault Hmgr.
    by rewrite (constructor_strict _ _ Hmgr), Hdefault.
  - intros Hstrict. rewrite _manageChanges_unfold. unfold cycleProcessed.
    apply nothingChanged_spec in Hno. by rewrite Hstrict, Hno.
  - intros Hstrict. split; [done|].
    assert (trace (_manageChanges run mgr simpleChanges)
            = EvDetectChanges :: trace (callOnChanges run mgr b)) as Htr.
    { rewrite _manageChanges_unfold. unfold cycleProcessed.
      rewrite Hstrict. simpl. fold b. rewrite Hexec.
      rewrite (bind_returns _ _ tt) by done. simpl.
      by rewrite trace_bind_ret. }
    split; [done|]. rewrite Htr.
    destruct (callOnChanges_trace run mgr b) as [Hh Hd].
    unfold callOnChanges in *. destruct (onChanges mgr); simpl; try done.
    unfold mbind, M_bind. simpl. by destruct (run f b).
Qed.

(** The README registration and a cycle that reports [name] unchanged:
    nothing happens in strict mode, one re-render in non-strict mode. *)
Lemma unchanged_cycle_strict_and_lenient_witness :
  trace (_manageChanges Scenario.quiet
           (Scenario.built Scenario.fullNameParams) Scenario.nameUnchanged)
    = [] ∧
  trace (_manageChanges Scenario.quiet
           (Scenario.built Scenario.lenientParams) Scenario.nameUnchanged)
    = [EvDetectChanges].
Proof.
  assert (nothingChanged Scenario.nameUnchanged) as Hno.
  { apply nothingChanged_spec. vm_compute. reflexivity. }
  split.
  - destruct (unchanged_cycle_strict_and_lenient Scenario.quiet
                (Scenario.built Scenario.fullNameParams)
                Scenario.nameUnchanged) as (_ & Hstrict & _); [|done|].
    + apply built_consistent. eexists. vm_compute. reflexivity.
    + by rewrite Hstrict.
  - destruct (unchanged_cycle_strict_and_lenient Scenario.quiet
                (Scenario.built Scenario.lenientParams)
                Scenario.nameUnchanged) as (_ & _ & Hlenient); [|done|].
    + apply built_consistent. eexists. vm_compute. reflexivity.
    + destruct Hlenient as (_ & -> & _); [reflexivity|]. reflexivity.
Defined.

(** ** C6: exceptions *)

Lemma _manageChanges_pending run mgr pending simpleChanges :
  _manageChanges run (withPendingManageChanges mgr pending) simpleChanges
  = _manageChanges run mgr simpleChanges.
Proof. reflexivity. Qed.

(** A dispatch can only throw in a cycle that reports a change, which
    the strict mode does not cut short. *)
Lemma dispatch_throws_processed run mgr simpleChanges e :
  consistent (registry mgr) →
  result (executeChangesCallbacks run mgr (getChangesSummary simpleChanges))
    = Throws e →
  cycleProcessed mgr simpleChanges = true.
Proof.
  intros Hcons Hthrow.
  destruct (getCallbacksWhichShouldBeExecuted_spec mgr
              (getChangesSummary simpleChanges) Hcons)
    as (agg & Hagg & _ & Hkeys & _).
  rewrite (executeChangesCallbacks_unfold _ _ _ _ Hagg) in Hthrow.
  simpl in Hthrow. destruct agg as [|[k vs] agg]; [done|].
  destruct (Hkeys k) as [(g & cfg & _ & Htrig & _) _]; [left|].
  by eapply groupTriggered_processed.
Qed.

(** C6 (as amended). If a validator or a handler throws during the
    dispatch of a cycle, nothing catches the exception: the cycle ends
    with it, the handlers that were still to run are not called, and
    neither the re-render signal nor the [onChanges] hook is. The caller
    of [manageChanges] receives the exception when the manager is not
    debounced; with the debounce of the default configuration the call
    of [manageChanges] has already returned, and it is the callback of
    the timer that ends with the exception. *)
Theorem dispatch_exception_stops_cycle run mgr simpleChanges e :
  let changesSummary := getChangesSummary simpleChanges in
  let tr := trace (_manageChanges run mgr simpleChanges) in
  consistent (registry mgr) →
  result (executeChangesCallbacks run mgr changesSummary) = Throws e →
  result (_manageChanges run mgr simpleChanges) = Throws e ∧
  detectChangesCount tr = 0 ∧ onChangesCalls tr = [] ∧
  (∃ callbacks ran entry rest,
     getCallbacksWhichShouldBeExecuted mgr changesSummary = mret callbacks ∧
     callbacks = ran ++ entry :: rest ∧
     result (forEach (dispatchHandler run changesSummary) ran)
       = Returns tt ∧
     result (dispatchHandler run changesSummary entry) = Throws e ∧
     tr = trace (forEach (dispatchHandler run changesSummary) ran) ++
          trace (dispatchHandler run changesSummary entry) ∧
     ∀ h vs, (VFunction h, vs) ∈ rest → handlerCalls h tr = []) ∧
  (shouldDebounceDetection mgr = false →
   manageChanges run mgr simpleChanges = mkM tr (Throws e)) ∧
  (shouldDebounceDetection mgr = true →
   manageChanges run mgr simpleChanges
     = mret (None, withPendingManageChanges mgr (Some simpleChanges)) ∧
   (manageChangesTimeout run
      (withPendingManageChanges mgr (Some simpleChanges))).2
     = mkM tr (Throws e)).
Proof.
  intros b tr Hcons Hthrow.
  pose proof (dispatch_throws_processed _ _ _ _ Hcons Hthrow) as Hproc.
  destruct (_manageChanges_processed run mgr simpleChanges Hproc)
    as (hook & Htr & _ & _ & Hstop).
  destruct (Hstop e Hthrow) as [-> Hres]. rewrite app_nil_r in Htr.
  fold b in Htr. fold tr in Htr.
  destruct (dispatch_detectChanges run mgr b Hcons) as [Hd Ho].
  rewrite Hthrow in Hd.
  split; [done|]. split; [by rewrite Htr|]. split; [by rewrite Htr|].
  split; [|split].
  - destruct (getCallbacksWhichShouldBeExecuted_spec mgr b Hcons)
      as (agg & Hagg & Hnd & _).
    rewrite (executeChangesCallbacks_unfold _ _ _ _ Hagg) in Hthrow, Htr.
    simpl in Hthrow, Htr. rewrite Hthrow, app_nil_r in Htr.
    destruct (forEach_throws _ _ _ Hthrow)
      as (ran & [k vs] & rest & -> & Hran & Hentry & Hsplit).
    exists (ran ++ (k, vs) :: rest), ran, (k, vs), rest.
    split; [done|]. split; [done|]. split; [done|]. split; [done|].
    rewrite Htr, Hsplit. split; [done|]. intros h vs' Hin.
    rewrite fmap_app, fmap_cons in Hnd.
    apply NoDup_app in Hnd as (_ & Hdisj & [Hk _]%NoDup_cons).
    assert (VFunction h ∈ rest.*1) as Hrest.
    { apply list_elem_of_fmap. by exists (VFunction h, vs'). }
    rewrite handlerCalls_app, dispatchHandler_handlerCalls.
    rewrite forEach_dispatch_absent, decide_False; [done| |].
    + intros [-> _]. done.
    + intros Hran'. apply (Hdisj _ Hran'). by right.
  - intros Hdeb. unfold manageChanges. rewrite Hdeb.
    rewrite (bind_throws _ _ e) by done. done.
  - intros Hdeb. unfold manageChanges, manageChangesTimeout.
    rewrite Hdeb. split; [done|]. simpl.
    rewrite _manageChanges_pending.
    rewrite (bind_throws _ _ e) by done. done.
Qed.

(** The first of two handlers throws: without debounce the caller of
    [manageChanges] gets the exception and the view is not re-rendered. *)
Lemma dispatch_exception_stops_cycle_witness :
  let mgr := Scenario.built (Scenario.twoHandlers (DelayNumber S754_nan)) in
  result (manageChanges Scenario.failing mgr Scenario.abChanged)
    = Throws Scenario.boom ∧
  detectChangesCount
    (trace (_manageChanges Scenario.failing mgr Scenario.abChanged)) = 0.
Proof.
  intros mgr.
  destruct (dispatch_exception_stops_cycle Scenario.failing mgr
              Scenario.abChanged Scenario.boom)
    as (_ & Hd & _ & _ & Hcaller & _).
  - apply built_consistent. eexists. vm_compute. reflexivity.
  - vm_compute. reflexivity.
  - split; [|exact Hd]. rewrite Hcaller; reflexivity.
Defined.

(** C6 as stated fails: under the default configuration the handler
    throws in the dispatch and [manageChanges] returns normally. *)
Lemma exception_does_not_reach_debounced_caller :
  ¬ (∀ run mgr simpleChanges e,
       consistent (registry mgr) →
       result (executeChangesCallbacks run mgr
                 (getChangesSummary simpleChanges)) = Throws e →
       result (manageChanges run mgr simpleChanges) = Throws e).
Proof.
  intros Hclaim.
  specialize (Hclaim Scenario.failing
                (Scenario.built (Scenario.twoHandlers DelayOmitted))
                Scenario.abChanged Scenario.boom).
  assert (result (manageChanges Scenario.failing
                    (Scenario.built (Scenario.twoHandlers DelayOmitted))
                    Scenario.abChanged)
          = Returns (None,
                     withPendingManageChanges
                       (Scenario.built (Scenario.twoHandlers DelayOmitted))
                       (Some Scenario.abChanged))) as Hret
    by reflexivity.
  rewrite Hret in Hclaim. discriminate Hclaim.
  - apply built_consistent. eexists. vm_compute. reflexivity.
  - vm_compute. reflexivity.
Qed.

(** ** C9: malformed declarations *)

Lemma sanitize_is_Some d : is_Some (sanitize d) ↔ d ≠ DeclNullish.
Proof.
  destruct d; simpl; split; try done; try (by intros _; eexists).
Qed.

Lemma sanitized_all_Some entries :
  Forall (λ entry : list string * option TCallbackConfig.t, is_Some entry.2)
         (getCallbacksConfigFromParameter entries) ↔
  DeclNullish ∉ entries.*2.
Proof.
  unfold getCallbacksConfigFromParameter.
  induction entries as [|[keys d] entries IH]; simpl.
  - split; [by intros _ ?%elem_of_nil|constructor].
  - rewrite Forall_cons, IH, not_elem_of_cons. simpl.
    rewrite sanitize_is_Some. naive_solver.
Qed.

Lemma singletons_declarations (entries : list (string * CallbackDecl)) :
  (map (λ '(key, d), ([key], d)) entries).*2 = entries.*2.
Proof.
  induction entries as [|[key d] entries IH]; [done|].
  cbn [map fmap list_fmap snd]. f_equal. exact IH.
Qed.

(** The configuration as [computeCallbackConfigDerivatives] receives it. *)
Lemma setCallbacksConfig_Some config :
  ∃ entries,
    entries.*2 = declarations config ∧
    setCallbacksConfig (Some config) =
    computeCallbackConfigDerivatives (getCallbacksConfigFromParameter entries).
Proof.
  destruct config as [entries|entries]; simpl.
  - by exists entries.
  - exists (map (λ '(key, d), ([key], d)) entries).
    split; [apply singletons_declarations|].
    by rewrite getCallbacksConfigFromParameterObject_singletons.
Qed.

(** C9 (as amended). Declarations are not validated when the registry is
    built. The build throws, at once, exactly when a declaration is
    [null] or [undefined]; every other value that is not a function is
    registered as it is, whatever its [callback] and [validator] are.
    The error of such a declaration comes at dispatch: a cycle that
    triggers a group whose registered handler is not a function, with
    validators that approve, ends in an exception. *)
Theorem malformed_declaration_fails_at_dispatch :
  (∀ config,
     (DeclNullish ∈ declarations config →
      setCallbacksConfig (Some config) = throw TypeError) ∧
     (DeclNullish ∉ declarations config →
      ∃ reg, setCallbacksConfig (Some config) = mret reg)) ∧
  (∀ run mgr changesSummary g cfg,
     consistent (registry mgr) →
     (g, cfg) ∈ callbacksByGroup (registry mgr) →
     groupTriggered (registry mgr) changesSummary g →
     isFunction (TCallbackConfig.callback cfg) = false →
     validatorsOfHandlerApprove run (registry mgr) changesSummary
       (TCallbackConfig.callback cfg) →
     ∃ e, result (executeChangesCallbacks run mgr changesSummary)
          = Throws e).
Proof.
  split.
  - intros config.
    destruct (setCallbacksConfig_Some config) as (entries & <- & ->).
    unfold computeCallbackConfigDerivatives. split.
    + intros Hin. apply reduce_registerGroup_throws.
      rewrite sanitized_all_Some. by intros Hnotin.
    + intros Hnotin. apply reduce_registerGroup_returns.
      by rewrite sanitized_all_Some.
  - intros run mgr b g cfg Hcons Hin Htrig Hfun Happ.
    destruct (result (executeChangesCallbacks run mgr b)) as [[]|e] eqn:Hres;
      [exfalso|by exists e].
    destruct (getCallbacksWhichShouldBeExecuted_spec mgr b Hcons)
      as (agg & Hagg & Hnd & Hkeys & Hvals).
    rewrite (executeChangesCallbacks_unfold _ _ _ _ Hagg) in Hres.
    simpl in Hres. apply forEach_returns in Hres as [Hall _].
    assert (canon (TCallbackConfig.callback cfg) ∈ agg.*1)
      as ([k vs] & Hk & Hentry)%list_elem_of_fmap.
    { apply Hkeys. by exists g, cfg. }
    simpl in Hk. rewrite Forall_forall in Hall.
    specialize (Hall _ Hentry). simpl in Hall.
    apply dispatchHandler_returns in Hall as (f & r & Hf & _).
    + rewrite Hf in Hk. rewrite canon_function in Hk.
      by rewrite Hk in Hfun.
    + apply (gathered_validators_approve run mgr b k vs);
        [intros v; by apply Hvals|by rewrite <- Hk, canon_idemp|].
      intros g' cfg' Hin' Htrig' Hcb' Hval'.
      apply (Happ g' cfg'); [done..| |done].
      by rewrite Hcb', <- Hk, canon_idemp.
Qed.

(** A declaration such as [42] or [{}] on the property [a]: the build
    succeeds, and the cycle in which [a] changes throws. *)
Lemma malformed_declaration_fails_at_dispatch_witness :
  (∃ mgr, constructor Scenario.malformedParams = mret mgr) ∧
  ∃ e, result (executeChangesCallbacks Scenario.quiet
                 (Scenario.built Scenario.malformedParams)
                 (getChangesSummary Scenario.aChanged)) = Throws e.
Proof.
  split; [eexists; vm_compute; reflexivity|].
  apply (proj2 malformed_declaration_fails_at_dispatch Scenario.quiet
           (Scenario.built Scenario.malformedParams)
           (getChangesSummary Scenario.aChanged)
           "a" (TCallbackConfig.mk VUndefined VNull)).
  - apply built_consistent. eexists. vm_compute. reflexivity.
  - vm_compute. left.
  - apply (groupTriggered_registered _ _ _ (list_to_set ["a"]));
      vm_compute; reflexivity.
  - reflexivity.
  - intros g cfg Hin _ _ Hval. registered_group Hin. discriminate Hval.
Defined.

(** C9 as stated fails: a malformed declaration does not make the build
    of the registry throw. *)
Lemma malformed_declaration_accepted_at_build :
  ¬ (∀ config d,
       d ∈ declarations config → wellFormedDecl d = false →
       ∃ e, result (setCallbacksConfig (Some config)) = Throws e).
Proof.
  intros Hclaim.
  destruct (Hclaim (ConfigArray [(["a"], DeclValue VUndefined VUndefined)])
              (DeclValue VUndefined VUndefined)) as [e He].
  - simpl. left.
  - reflexivity.
  - vm_compute in He. discriminate He.
Qed.

(** ** C4: the group id of a registration *)

Lemma computeCallbackConfigDerivatives_invariant config reg :
  computeCallbackConfigDerivatives config = mret reg → registryInvariant reg.
Proof. apply registryInvariant_reduce, registryInvariant_empty. Qed.

(** C4 (as amended). Two registrations whose field lists are
    permutations of one another, that is with the same members with the
    same multiplicities in any order, have the same group id, in either
    declaration shape: the object shape registers each property as the
    one-member group of the array shape, whose id is the property name.
    When two registrations have the same group id, the later one
    replaces the earlier one in both maps of the registry, which keep a
    single entry for that id. *)
Theorem permuted_registration_replaces_earlier :
  (∀ props1 props2,
     props1 ≡ₚ props2 → groupIdOf props1 = groupIdOf props2) ∧
  (∀ entries,
     getCallbacksConfigFromParameterObject entries =
     getCallbacksConfigFromParameter
       (map (λ '(key, d), ([key], d)) entries)) ∧
  (∀ key, groupIdOf [key] = key) ∧
  (∀ before props1 c1 between props2 c2 after reg,
     groupIdOf props1 = groupIdOf props2 →
     Forall (λ entry : list string * option TCallbackConfig.t,
               groupIdOf entry.1 ≠ groupIdOf props2) after →
     computeCallbackConfigDerivatives
       (before ++ (props1, Some c1) :: between ++ (props2, Some c2) :: after)
       = mret reg →
     Map_get (groupIdOf props1) (callbacksByGroup reg) = Some (stored c2) ∧
     Map_get (groupIdOf props1) (propertiesByGroup reg)
       = Some (list_to_set props2) ∧
     NoDup (callbacksByGroup reg).*1 ∧ NoDup (propertiesByGroup reg).*1).
Proof.
  split; [apply groupIdOf_Permutation|].
  split; [apply getCallbacksConfigFromParameterObject_singletons|].
  split; [apply groupIdOf_singleton|].
  intros before props1 c1 between props2 c2 after reg Hid Hafter Hreg.
  destruct (computeCallbackConfigDerivatives_invariant _ _ Hreg)
    as [Hkeys Hnd].
  unfold computeCallbackConfigDerivatives in Hreg.
  replace (before ++ (props1, Some c1) :: between ++ (props2, Some c2) :: after)
    with ((before ++ (props1, Some c1) :: between) ++
          (props2, Some c2) :: after) in Hreg
    by (by rewrite <- (assoc_L (++))).
  destruct (reduce_registerGroup_last _ _ _ _ _ _ Hafter Hreg) as [Hcb Hp].
  rewrite Hid. by rewrite Hkeys.
Qed.

(** The group [surname], [name] registered with handler [1], then the
    group [name], [surname] with handler [2]: one group id, and the
    registry holds handler [2]. *)
Lemma permuted_registration_replaces_earlier_witness :
  groupIdOf ["surname"; "name"] = groupIdOf ["name"; "surname"] ∧
  ∃ reg,
    computeCallbackConfigDerivatives
      [(["surname"; "name"], Some (TCallbackConfig.mk (VFunction 1) VNull));
       (["name"; "surname"], Some (TCallbackConfig.mk (VFunction 2) VNull))]
      = mret reg ∧
    Map_get "name|surname" (callbacksByGroup reg)
      = Some (TCallbackConfig.mk (VFunction 2) VNull).
Proof.
  destruct permuted_registration_replaces_earlier
    as (Hperm & _ & _ & Hlast).
  assert (["surname"; "name"] ≡ₚ ["name"; "surname"]) as Hp
    by apply Permutation_swap.
  split; [exact (Hperm _ _ Hp)|].
  eexists. split; [vm_compute; reflexivity|].
  destruct (Hlast [] ["surname"; "name"]
              (TCallbackConfig.mk (VFunction 1) VNull) []
              ["name"; "surname"]
              (TCallbackConfig.mk (VFunction 2) VNull) []
              (mkRegistry
                 [("name|surname", list_to_set ["name"; "surname"])]
                 [("name|surname", TCallbackConfig.mk (VFunction 2) VNull)]))
    as (Hcb & _).
  - exact (Hperm _ _ Hp).
  - constructor.
  - vm_compute. reflexivity.
  - exact Hcb.
Defined.

(** C4 as stated fails: a field list that repeats a member has the same
    members as the list without the repetition, and another group id. *)
Lemma repeated_member_changes_group_id :
  ¬ (∀ props1 props2 : list string,
       (∀ x, x ∈ props1 ↔ x ∈ props2) →
       groupIdOf props1 = groupIdOf props2).
Proof.
  intros Hclaim. specialize (Hclaim ["a"] ["a"; "a"]).
  assert (groupIdOf ["a"] ≠ groupIdOf ["a"; "a"]) as Hne by done.
  apply Hne, Hclaim. intros x. set_solver.
Qed.

(** ** C10: the group id does not determine the field set *)

(** C10. The group id is the sorted field names joined with the
    separator, so the one-field group of the property named with the
    separator and the two-field group of its two halves have the same
    group id although their field sets differ; registered one after the
    other, the second replaces the first, and [executeCallbacks] reads
    the two halves back from the id as the attributes of the group. *)
Theorem group_id_collision :
  groupIdOf ["a|b"] = groupIdOf ["a"; "b"] ∧
  (list_to_set ["a|b"] : gset string) ≠ list_to_set ["a"; "b"] ∧
  setCallbacksConfig (p_callbacks Scenario.collidingParams)
    = mret (mkRegistry
              [("a|b", list_to_set ["a"; "b"])]
              [("a|b", TCallbackConfig.mk (VFunction 2) VNull)]) ∧
  split "|" (groupIdOf ["a|b"]) = ["a"; "b"].
Proof.
  split; [reflexivity|]. split; [|split; [|reflexivity]].
  - intros Heq. assert ("a|b" ∈ (list_to_set ["a"; "b"] : gset string)) as Hin.
    { rewrite <- Heq. set_solver. }
    set_solver.
  - vm_compute. reflexivity.
Qed.

(** ** C7: [executeCallbacks] *)

Section ManualRun.
Context (run : FnId → ChangeBatch → outcome value).

Lemma validatorsApprove_events vs b ev :
  ev ∈ trace (validatorsApprove run vs b) → ∃ f, ev = EvValidator f b.
Proof.
  induction vs as [|v vs IH]; [by intros ?%elem_of_nil|].
  rewrite validatorsApprove_cons.
  destruct v as [| | | | | |f]; simpl; try (by intros ?%elem_of_nil).
  destruct (run f b) as [r|e]; simpl.
  - destruct (truthy r); simpl.
    + intros [->|?]%elem_of_cons; [by eexists|by apply IH].
    + intros ->%list_elem_of_singleton. by eexists.
  - intros ->%list_elem_of_singleton. by eexists.
Qed.

Lemma runHandler_skip b k vs :
  runHandler run true b (k, vs) =
  match k with
  | VFunction f =>
      mkM [EvHandler f b]
          (match run f b with
           | Returns _ => Returns tt
           | Throws e => Throws e
           end)
  | _ => throw TypeError
  end.
Proof.
  unfold runHandler. rewrite ret_bind. destruct k; try done.
  unfold mbind, M_bind. simpl. by destruct (run f b).
Qed.

Lemma runHandler_events avoidValidations b entry ev :
  ev ∈ trace (runHandler run avoidValidations b entry) →
  (∃ f, ev = EvValidator f b) ∨ (∃ f, ev = EvHandler f b).
Proof.
  destruct entry as [k vs]. destruct avoidValidations.
  - rewrite runHandler_skip. destruct k; simpl;
      try (by intros ?%elem_of_nil).
    intros ->%list_elem_of_singleton. right. by eexists.
  - unfold runHandler. unfold mbind at 1, M_bind at 1.
    destruct (result (validatorsApprove run vs b)) as [[]|e]; simpl.
    + intros [?|Hev]%elem_of_app; [left; by eapply validatorsApprove_events|].
      destruct k; simpl in Hev; try (by apply elem_of_nil in Hev).
      unfold mbind, M_bind in Hev. simpl in Hev.
      destruct (run f b); simpl in Hev;
        apply list_elem_of_singleton in Hev as ->; right; by eexists.
    + rewrite app_nil_r. intros ?. left. by eapply validatorsApprove_events.
    + intros ?. left. by eapply validatorsApprove_events.
Qed.

(** The manual run never gives the re-render signal and never calls the
    [onChanges] hook. *)
Lemma executeCallbacks_no_detectChanges mgr options :
  detectChangesCount (trace (executeCallbacks run mgr options)) = 0.
Proof.
  apply detectChangesCount_zero. unfold executeCallbacks.
  destruct (fold_left collectAll _ _) as [callbacks attributes].
  intros (entry & _ & Hev)%forEach_trace_elem.
  apply runHandler_events in Hev as [[f Hf]|[f Hf]]; discriminate.
Qed.

(** The synthetic batch: each attribute read twice from the component,
    not a first change. *)
Lemma syntheticChanges_lookup mgr attributes attribute :
  syntheticChanges mgr attributes !! attribute =
  if decide (attribute ∈ attributes)
  then Some (SimpleChange.mk
               (readComponent mgr ReadPreviousValue attribute)
               (readComponent mgr ReadCurrentValue attribute) false)
  else None.
Proof.
  unfold syntheticChanges.
  assert (∀ acc : SimpleChanges,
            fold_left
              (λ accumulator attribute,
                 <[attribute :=
                     SimpleChange.mk
                       (readComponent mgr ReadPreviousValue attribute)
                       (readComponent mgr ReadCurrentValue attribute)
                       false]> accumulator)
              attributes acc !! attribute =
            if decide (attribute ∈ attributes)
            then Some (SimpleChange.mk
                         (readComponent mgr ReadPreviousValue attribute)
                         (readComponent mgr ReadCurrentValue attribute)
                         false)
            else acc !! attribute) as Hfold.
  { induction attributes as [|a attributes IH]; intros acc;
      cbn [fold_left].
    - case_decide as Hin; [by apply elem_of_nil in Hin|done].
    - rewrite IH. destruct (decide (attribute ∈ attributes)) as [Hin|Hnotin].
      + rewrite decide_True; [done|by right].
      + destruct (decide (attribute = a)) as [->|Hne].
        * rewrite decide_True; [|left]. by rewrite lookup_insert_eq.
        * rewrite decide_False; [by rewrite lookup_insert_ne|].
          by intros [?|?]%elem_of_cons. }
  by rewrite Hfold, lookup_empty.
Qed.

(** Nothing changed in the synthetic batch when the two reads of every
    attribute agree. *)
Lemma syntheticChanges_unchanged mgr attributes :
  Forall (stableRead mgr) attributes →
  nothingChanged (syntheticChanges mgr attributes).
Proof.
  rewrite Forall_forall. intros Hstable attribute c.
  rewrite syntheticChanges_lookup.
  case_decide as Hin; [|done]. intros [= <-].
  rewrite didPropertyChange_Some. simpl.
  by rewrite (Hstable _ Hin), Object_is_refl.
Qed.

(** A property that is not an accessor reads the same every time. *)
Lemma readComponent_data mgr attribute :
  (∀ get, findProperty attribute
            (ownProperties (component mgr) :: prototypeChain (component mgr))
          ≠ Some (AccessorProperty get)) →
  stableRead mgr attribute.
Proof.
  unfold stableRead, readComponent. intros Hdata.
  destruct (findProperty _ _) as [[v|get]|]; [done| |done].
  by destruct (Hdata get).
Qed.

(** The aggregation of the manual run has one entry per registered
    handler. *)
Lemma collectAll_keys groups acc :
  NoDup acc.1.*1 →
  NoDup (fold_left collectAll groups acc).1.*1 ∧
  ∀ k, k ∈ (fold_left collectAll groups acc).1.*1 ↔
       k ∈ acc.1.*1 ∨
       ∃ g cfg, (g, cfg) ∈ groups ∧ canon (TCallbackConfig.callback cfg) = k.
Proof.
  revert acc. induction groups as [|[g [cb val]] groups IH];
    intros [callbacks attributes] Hnd; cbn [fold_left].
  - split; [done|]. intros k. split; [by left|].
    by intros [?|(? & ? & ?%elem_of_nil & _)].
  - cbn [collectAll].
    destruct (IH (Map_set (canon cb)
                    (Set_add (canon val)
                       (default [] (Map_get (canon cb) callbacks)))
                    callbacks,
                  fold_left (λ attributes attribute,
                               Set_add attribute attributes)
                            (split "|" g) attributes))
      as [Hnd' Hkeys]; [by apply Map_set_NoDup|].
    split; [done|]. intros k. rewrite Hkeys. cbn [fst].
    rewrite Map_set_keys. split.
    + intros [[->|?]|(g' & cfg' & ? & ?)]; [right|by left|right].
      * exists g, (TCallbackConfig.mk cb val). split; [left|done].
      * exists g', cfg'. split; [by right|done].
    + intros [?|(g' & cfg' & Hin & Hk)]; [left; by right|].
      apply elem_of_cons in Hin as [[= -> ->]|Hin].
      * left. by left.
      * right. by exists g', cfg'.
Qed.

Lemma forEach_runHandler_skip_absent h b l :
  VFunction h ∉ l.*1 →
  handlerCalls h (trace (forEach (runHandler run true b) l)) = [].
Proof.
  induction l as [|[k vs] l IH]; [done|].
  intros [Hk Hl]%not_elem_of_cons. rewrite forEach_cons_trace.
  rewrite handlerCalls_app, runHandler_skip.
  destruct k as [| | | | | |f]; simpl; try done.
  rewrite decide_False by (intros ->; done). simpl.
  destruct (run f b); [by apply IH|done].
Qed.

(** Skipping the validators, a manual run that completes has called
    every handler of the aggregation once, and no validator. *)
Lemma forEach_runHandler_skip_calls h b l :
  NoDup l.*1 →
  result (forEach (runHandler run true b) l) = Returns tt →
  VFunction h ∈ l.*1 →
  handlerCalls h (trace (forEach (runHandler run true b) l)) = [b].
Proof.
  induction l as [|[k vs] l IH]; [by intros _ _ ?%elem_of_nil|].
  intros [Hk Hl]%NoDup_cons Hret Hin.
  rewrite forEach_cons_trace.
  apply forEach_cons_result in Hret as [Hx Hrest].
  rewrite Hx, handlerCalls_app. rewrite runHandler_skip in Hx |- *.
  apply elem_of_cons in Hin as [Hin|Hin].
  - simpl in Hin. subst k. simpl. rewrite decide_True by done.
    by rewrite forEach_runHandler_skip_absent.
  - destruct k as [| | | | | |f]; simpl in *; try done.
    rewrite decide_False; [by apply IH|]. intros ->. done.
Qed.

Lemma forEach_runHandler_skip_validators b l :
  validatorCalls (trace (forEach (runHandler run true b) l)) = [].
Proof.
  induction l as [|[k vs] l IH]; [done|].
  rewrite forEach_cons_trace, validatorCalls_app, runHandler_skip.
  destruct k as [| | | | | |f]; simpl; try done.
  by destruct (run f b).
Qed.

(** With the flag that skips the validators, a manual run that
    completes has called every registered handler exactly once, with a
    batch in which nothing changed when the reads of the component are
    stable, and has consulted no validator. *)
Lemma executeCallbacks_skip_calls_every_handler mgr g cfg h :
  (∀ attribute, stableRead mgr attribute) →
  (g, cfg) ∈ callbacksByGroup (registry mgr) →
  TCallbackConfig.callback cfg = VFunction h →
  result (executeCallbacks run mgr (Some true)) = Returns tt →
  ∃ simpleChanges,
    nothingChanged simpleChanges ∧
    handlerCalls h (trace (executeCallbacks run mgr (Some true)))
      = [getChangesSummary simpleChanges] ∧
    validatorCalls (trace (executeCallbacks run mgr (Some true))) = [].
Proof.
  intros Hstable Hin Hcb. unfold executeCallbacks.
  destruct (collectAll_keys (callbacksByGroup (registry mgr)) ([], []))
    as [Hnd Hkeys]; [constructor|].
  destruct (fold_left collectAll _ _) as [callbacks attributes].
  simpl in *. intros Hret. exists (syntheticChanges mgr attributes).
  split; [apply syntheticChanges_unchanged, Forall_forall; auto|].
  split; [|apply forEach_runHandler_skip_validators].
  apply forEach_runHandler_skip_calls; [done..|].
  apply Hkeys. right. exists g, cfg. by rewrite Hcb.
Qed.

Lemma Map_set_elem {K V} `{EqDecision K} (k : K) (v : V) m entry :
  entry ∈ Map_set k v m → entry ∈ m ∨ entry.2 = v.
Proof.
  induction m as [|[k0 v0] m IH]; cbn [Map_set].
  - intros ->%list_elem_of_singleton. by right.
  - destruct (decide (k = k0)) as [->|Hne].
    + intros [->|?]%elem_of_cons; [by right|left; by right].
    + intros [->|Hin]%elem_of_cons; [left; left|].
      destruct (IH Hin) as [?|?]; [left; by right|by right].
Qed.

Lemma Set_add_nonempty {K} `{EqDecision K} (k : K) s : Set_add k s ≠ [].
Proof. destruct s as [|k0 s]; simpl; [done|]. by destruct (decide (k = k0)). Qed.

(** In the manual run every entry has a validator to call, and only
    validators that were registered, absent ones included. *)
Lemma collectAll_validators (P : value → Prop) groups acc :
  (∀ entry, entry ∈ acc.1 → entry.2 ≠ [] ∧ Forall P entry.2) →
  (∀ g cfg, (g, cfg) ∈ groups → P (canon (TCallbackConfig.validator cfg))) →
  ∀ entry, entry ∈ (fold_left collectAll groups acc).1 →
           entry.2 ≠ [] ∧ Forall P entry.2.
Proof.
  revert acc. induction groups as [|[g [cb val]] groups IH];
    intros [callbacks attributes] Hacc Hgroups; cbn [fold_left]; [done|].
  apply IH.
  - cbn [collectAll fst]. intros entry [Hin| ->]%Map_set_elem; [by apply Hacc|].
    split; [apply Set_add_nonempty|].
    apply Forall_forall. intros v [->|Hv]%Set_add_elem.
    + apply (Hgroups g (TCallbackConfig.mk cb val)). left.
    + destruct (Map_get (canon cb) callbacks) as [vs|] eqn:E;
        [|by apply elem_of_nil in Hv].
      apply Map_get_Some_elem in E. destruct (Hacc _ E) as [_ Hall].
      rewrite Forall_forall in Hall. by apply Hall.
  - intros g' cfg' Hin. apply (Hgroups g' cfg'). by right.
Qed.

(** Whenever some group is registered and no group has a validator, the
    manual run without the flag throws a [TypeError] before any call. *)
Lemma executeCallbacks_without_validators mgr :
  callbacksByGroup (registry mgr) ≠ [] →
  (∀ g cfg, (g, cfg) ∈ callbacksByGroup (registry mgr) →
            TCallbackConfig.validator cfg = VNull) →
  executeCallbacks run mgr None = throw TypeError.
Proof.
  intros Hne Hnull. unfold executeCallbacks.
  pose proof (collectAll_validators (λ v, v = VNull)
                (callbacksByGroup (registry mgr)) ([], [])) as Hvals.
  destruct (collectAll_keys (callbacksByGroup (registry mgr)) ([], []))
    as [_ Hkeys]; [constructor|].
  destruct (fold_left collectAll _ _) as [callbacks attributes].
  simpl in *. destruct callbacks as [|[k vs] callbacks].
  - destruct (callbacksByGroup (registry mgr)) as [|[g cfg] groups]; [done|].
    destruct (Hkeys (canon (TCallbackConfig.callback cfg))) as [_ Hk].
    exfalso. eapply elem_of_nil, Hk. right. exists g, cfg. split; [left|done].
  - destruct (Hvals) with (entry := (k, vs)) as [Hvs Hall].
    + by intros ? ?%elem_of_nil.
    + intros g cfg Hin. by rewrite (Hnull g cfg Hin).
    + left.
    + simpl in *. destruct vs as [|v vs]; [done|].
      apply Forall_cons in Hall as [-> _].
      assert (runHandler run false
                (getChangesSummary (syntheticChanges mgr attributes))
                (k, VNull :: vs) = throw TypeError) as ->.
      { unfold runHandler. by rewrite validatorsApprove_cons. }
      done.
Qed.
End ManualRun.

(** C7 (the code at the input of its own test). With the registration
    of the test [should execute all the callbacks when calling
    executeCallbacks], two handlers without validators, the call
    [executeCallbacks()] throws a [TypeError] before any handler runs:
    the [null] validator of a group is added to the set of validators
    and then called. *)
Theorem executeCallbacks_without_validators_throws run :
  executeCallbacks run (Scenario.built Scenario.testParams) None
    = throw TypeError ∧
  handlersCalled
    (trace (executeCallbacks run (Scenario.built Scenario.testParams) None))
    = [].
Proof. split; vm_compute; reflexivity. Qed.

(** With the flag that skips the validators the same registration runs
    both handlers once, on a batch in which nothing changed, without a
    re-render. *)
Lemma executeCallbacks_skipping_validators_runs_all :
  let m := executeCallbacks Scenario.quiet
             (Scenario.built Scenario.testParams) (Some true) in
  handlersCalled (trace m) = [1; 2] ∧ validatorCalls (trace m) = [] ∧
  detectChangesCount (trace m) = 0 ∧ result m = Returns tt.
Proof. repeat split; vm_compute; reflexivity. Qed.

(** ** C8: what [manageChanges] returns *)

(** C8 (the code under the default configuration). Unless the
    [debounceDelay] given to the constructor is NaN, and so for the
    default [0], the public [manageChanges] is the debounced wrapper of
    [_manageChanges]: it returns [undefined] to its caller, not the
    changes summary, runs nothing, and leaves the cycle to the timer. *)
Theorem manageChanges_debounced_returns_undefined
    run params mgr simpleChanges :
  isNaN (p_debounceDelay params) = false →
  result (constructor params) = Returns mgr →
  manageChanges run mgr simpleChanges
    = mret (None, withPendingManageChanges mgr (Some simpleChanges)) ∧
  (manageChangesTimeout run
     (withPendingManageChanges mgr (Some simpleChanges))).2
    = (_manageChanges run mgr simpleChanges;; mret tt).
Proof.
  intros Hnan Hmgr. unfold constructor in Hmgr.
  apply bind_result_returns in Hmgr as (reg & _ & [= <-]).
  unfold manageChanges. simpl. by rewrite Hnan.
Qed.

(** The manager of the first example of the README, constructed with
    the component and the change detector only. *)
Lemma manageChanges_debounced_returns_undefined_witness :
  let mgr := Scenario.built (Scenario.defaultParams ∅) in
  manageChanges Scenario.quiet mgr Scenario.surnameChanged
    = mret (None,
            withPendingManageChanges mgr (Some Scenario.surnameChanged)).
Proof.
  intros mgr.
  apply (manageChanges_debounced_returns_undefined Scenario.quiet
           (Scenario.defaultParams ∅) mgr Scenario.surnameChanged).
  - reflexivity.
  - reflexivity.
Defined.

(** * Further properties of the code *)

(** ** What a cycle returns *)

Section SharedBatch.
Context (runW : FnId → ChangeBatch → outcome value * ChangeBatch).

Lemma threaded_app b t1 b1 t2 b2 :
  Shared.threaded runW b t1 b1 → Shared.threaded runW b1 t2 b2 →
  Shared.threaded runW b (t1 ++ t2) b2.
Proof.
  revert b. induction t1 as [|ev t1 IH]; intros b; cbn [Shared.threaded app].
  - by intros ->.
  - destruct (eventCall ev) as [[f arg]|]; [|by apply IH].
    intros [-> H1] H2. split; [done|]. by apply IH.
Qed.

Lemma W_ret_threaded {A} (a : A) b :
  Shared.threaded runW b (trace ((mret a : W A) b).2) ((mret a : W A) b).1.
Proof. done. Qed.

Lemma W_bind_threaded {A B} (m : W A) (k : A → W B) b :
  Shared.threaded runW b (trace (m b).2) (m b).1 →
  (∀ a b1, Shared.threaded runW b1 (trace (k a b1).2) (k a b1).1) →
  Shared.threaded runW b (trace ((m ≫= k) b).2) ((m ≫= k) b).1.
Proof.
  intros Hm Hk. unfold mbind, W_bind.
  destruct (m b) as [b1 m1]. cbn [fst snd] in Hm.
  destruct (result m1) as [a|e]; [|done].
  specialize (Hk a b1). destruct (k a b1) as [b2 m2].
  cbn [fst snd trace] in *. by apply (threaded_app _ _ b1).
Qed.

Lemma liftW_threaded {A} (m : M A) b :
  Forall (λ ev, eventCall ev = None) (trace m) →
  Shared.threaded runW b (trace (liftW m b).2) (liftW m b).1.
Proof.
  unfold liftW. cbn [fst snd].
  induction 1 as [|ev tr Hev _ IH]; [done|].
  cbn [Shared.threaded]. by rewrite Hev.
Qed.

Lemma call_threaded role callee b :
  (∀ f arg, eventCall (role f arg) = Some (f, arg)) →
  Shared.threaded runW b (trace (Shared.call runW role callee b).2)
    (Shared.call runW role callee b).1.
Proof.
  intros Hrole. unfold Shared.call.
  destruct callee as [| | | | | |f]; try done.
  cbn [fst snd trace Shared.threaded]. by rewrite Hrole.
Qed.

Lemma everyW_threaded {A} (f : A → W bool) l b :
  (∀ x b, Shared.threaded runW b (trace (f x b).2) (f x b).1) →
  Shared.threaded runW b (trace (everyW f l b).2) (everyW f l b).1.
Proof.
  intros Hf. revert b. induction l as [|x l IH]; intros b; [done|].
  cbn [everyW]. apply W_bind_threaded; [apply Hf|].
  intros [] b1; [apply IH|done].
Qed.

Lemma forEachW_threaded {A} (f : A → W unit) l b :
  (∀ x b, Shared.threaded runW b (trace (f x b).2) (f x b).1) →
  Shared.threaded runW b (trace (forEachW f l b).2) (forEachW f l b).1.
Proof.
  intros Hf. revert b. induction l as [|x l IH]; intros b; [done|].
  cbn [forEachW]. apply W_bind_threaded; [apply Hf|].
  intros [] b1. apply IH.
Qed.

Lemma dispatchHandler_threaded entry b :
  Shared.threaded runW b (trace (Shared.dispatchHandler runW entry b).2)
    (Shared.dispatchHandler runW entry b).1.
Proof.
  destruct entry as [k vs]. unfold Shared.dispatchHandler.
  apply W_bind_threaded.
  - apply everyW_threaded. intros v b'.
    apply W_bind_threaded; [by apply call_threaded|done].
  - intros [] b1; [|done].
    apply W_bind_threaded; [by apply call_threaded|done].
Qed.

Lemma some_trace {A} (f : A → M bool) l :
  (∀ x, trace (f x) = []) → trace (some f l) = [].
Proof.
  intros Hf. induction l as [|x l IH]; [done|]. cbn [some].
  unfold mbind, M_bind. destruct (result (f x)) as [[]|e];
    cbn [trace]; by rewrite ?Hf, ?IH.
Qed.

Lemma reduce_trace {A B} (f : B → A → M B) l acc :
  (∀ acc x, trace (f acc x) = []) → trace (reduce f l acc) = [].
Proof.
  intros Hf. revert acc. induction l as [|x l IH]; intros acc; [done|].
  cbn [reduce]. unfold mbind, M_bind.
  destruct (result (f acc x)) as [acc'|e]; cbn [trace];
    by rewrite ?Hf, ?IH.
Qed.

Lemma getCallbacksWhichShouldBeExecuted_trace mgr b :
  trace (getCallbacksWhichShouldBeExecuted mgr b) = [].
Proof.
  apply reduce_trace. intros acc [g [cb val]]. unfold collectGroup.
  unfold mbind, M_bind.
  assert (trace (shouldIncludeGroup mgr b g) = []) as Hsome.
  { apply some_trace. intros [property change].
    by destruct (Map_get g (propertiesByGroup (registry mgr))). }
  destruct (result (shouldIncludeGroup mgr b g)) as [[]|e];
    cbn [trace]; by rewrite Hsome.
Qed.

Lemma executeChangesCallbacks_threaded mgr b :
  Shared.threaded runW b
    (trace (Shared.executeChangesCallbacks runW mgr b).2)
    (Shared.executeChangesCallbacks runW mgr b).1.
Proof.
  unfold Shared.executeChangesCallbacks. apply W_bind_threaded.
  - apply liftW_threaded.
    by rewrite getCallbacksWhichShouldBeExecuted_trace.
  - intros callbacks b1. apply W_bind_threaded.
    + apply forEachW_threaded. intros entry b'.
      apply dispatchHandler_threaded.
    + intros [] b2. apply liftW_threaded. by repeat constructor.
Qed.

Lemma callOnChanges_threaded mgr b :
  Shared.threaded runW b (trace (Shared.callOnChanges runW mgr b).2)
    (Shared.callOnChanges runW mgr b).1.
Proof.
  unfold Shared.callOnChanges. destruct (nullish (onChanges mgr)); [done|].
  apply W_bind_threaded; [by apply call_threaded|done].
Qed.

(** What a computation returns after it, when that is the batch. *)
Lemma W_bind_returns_batch {A} (m : W A) (k : W ChangeBatch) b returned :
  (∀ b1 returned, result (k b1).2 = Returns returned →
                  returned = (k b1).1) →
  result ((m ≫= λ _, k) b).2 = Returns returned →
  returned = ((m ≫= λ _, k) b).1.
Proof.
  intros Hk. unfold mbind, W_bind. destruct (m b) as [b1 m1].
  destruct (result m1) as [a|e]; [|done].
  specialize (Hk b1 returned). destruct (k b1) as [b2 m2].
  cbn [fst snd result] in *. done.
Qed.

(** When no function writes into the batch, the computations on the
    shared batch are the computations on the batch as a value. *)
Lemma W_bind_pure {A B} (m : W A) (k : A → W B) (m0 : M A) (k0 : A → M B) b :
  m b = (b, m0) → (∀ a, k a b = (b, k0 a)) →
  (m ≫= k) b = (b, m0 ≫= k0).
Proof.
  intros Hm Hk. unfold mbind at 1, W_bind. rewrite Hm.
  unfold mbind, M_bind. destruct (result m0) as [a|e]; [|done].
  by rewrite Hk.
Qed.

Lemma everyW_pure {A} (f : A → W bool) (f0 : A → M bool) l b :
  (∀ x, f x b = (b, f0 x)) → everyW f l b = (b, every f0 l).
Proof.
  intros Hf. induction l as [|x l IH]; [done|]. cbn [everyW every].
  apply W_bind_pure; [apply Hf|]. by intros [].
Qed.

Lemma forEachW_pure {A} (f : A → W unit) (f0 : A → M unit) l b :
  (∀ x, f x b = (b, f0 x)) → forEachW f l b = (b, forEach f0 l).
Proof.
  intros Hf. induction l as [|x l IH]; [done|]. cbn [forEachW forEach].
  apply W_bind_pure; [apply Hf|]. by intros [].
Qed.

Lemma call_pure role callee b :
  (∀ f b, (runW f b).2 = b) →
  Shared.call runW role callee b
  = (b, call (λ f b, (runW f b).1) role callee b).
Proof.
  intros Hpure. unfold Shared.call, call.
  destruct callee as [| | | | | |f]; try done. by rewrite Hpure.
Qed.

Lemma dispatchHandler_pure entry b :
  (∀ f b, (runW f b).2 = b) →
  Shared.dispatchHandler runW entry b
  = (b, dispatchHandler (λ f b, (runW f b).1) b entry).
Proof.
  intros Hpure. destruct entry as [k vs].
  unfold Shared.dispatchHandler, dispatchHandler.
  apply W_bind_pure.
  - unfold Shared.validatorsApprove, validatorsApprove.
    apply everyW_pure. intros v.
    apply W_bind_pure; [by apply call_pure|done].
  - intros []; [|done]. apply W_bind_pure; [by apply call_pure|done].
Qed.

Lemma executeChangesCallbacks_pure mgr b :
  (∀ f b, (runW f b).2 = b) →
  Shared.executeChangesCallbacks runW mgr b
  = (b, executeChangesCallbacks (λ f b, (runW f b).1) mgr b).
Proof.
  intros Hpure. unfold Shared.executeChangesCallbacks, executeChangesCallbacks.
  apply W_bind_pure; [done|]. intros callbacks.
  apply W_bind_pure; [|done].
  apply forEachW_pure. intros entry. by apply dispatchHandler_pure.
Qed.

Lemma callOnChanges_pure mgr b :
  (∀ f b, (runW f b).2 = b) →
  Shared.callOnChanges runW mgr b
  = (b, callOnChanges (λ f b, (runW f b).1) mgr b).
Proof.
  intros Hpure. unfold Shared.callOnChanges, callOnChanges.
  destruct (nullish (onChanges mgr)); [done|].
  apply W_bind_pure; [by apply call_pure|done].
Qed.

Lemma _manageChanges_pure mgr simpleChanges :
  (∀ f b, (runW f b).2 = b) →
  Shared._manageChanges runW mgr simpleChanges
  = (getChangesSummary simpleChanges,
     _manageChanges (λ f b, (runW f b).1) mgr simpleChanges).
Proof.
  intros Hpure. unfold Shared._manageChanges, _manageChanges.
  destruct (strict mgr && negb _); [done|].
  apply W_bind_pure; [by apply executeChangesCallbacks_pure|]. intros [].
  apply W_bind_pure; [by apply callOnChanges_pure|done].
Qed.
End SharedBatch.

(** X1. The batch of a cycle is one object, shared by the cycle, the
    functions it calls and its caller. The first call of the cycle
    receives the summary of the changes; every later call, validator,
    handler or hook, receives the batch as the call before it left it;
    and a cycle that returns returns the batch as the last call left it.
    A cycle that is not processed returns the summary untouched. When
    no function writes into the batch, the cycle is the cycle on the
    batch as a value, and what it returns is the summary of the changes
    it was given: one entry for each property reported, none for any
    other property. *)
Theorem cycle_returns_shared_batch runW mgr simpleChanges :
  let summary := getChangesSummary simpleChanges in
  let out := Shared._manageChanges runW mgr simpleChanges in
  Shared.threaded runW summary (trace out.2) out.1 ∧
  (∀ returned, result out.2 = Returns returned → returned = out.1) ∧
  (cycleProcessed mgr simpleChanges = false → out = (summary, mret summary)) ∧
  ((∀ f changesSummary, (runW f changesSummary).2 = changesSummary) →
   out = (summary,
          _manageChanges (λ f changesSummary, (runW f changesSummary).1)
            mgr simpleChanges) ∧
   ∀ returned, result out.2 = Returns returned →
               returned = summary ∧
               dom returned = dom simpleChanges ∧
               ∀ key, returned !! key = summarise <$> simpleChanges !! key).
Proof.
  intros summary out. subst summary out.
  assert (strict mgr &&
          negb (existsb (λ key, from_option TChange.didChange false
                                  (getChangesSummary simpleChanges !! key))
                        (map_to_list simpleChanges).*1)
          = negb (cycleProcessed mgr simpleChanges)) as Hcond.
  { unfold cycleProcessed. rewrite shouldProcessChanges_spec.
    by destruct (strict mgr), (existsb _ _). }
  assert (∀ returned,
            result (Shared._manageChanges runW mgr simpleChanges).2
              = Returns returned →
            returned = (Shared._manageChanges runW mgr simpleChanges).1)
    as Hreturned.
  { unfold Shared._manageChanges. rewrite Hcond.
    destruct (cycleProcessed mgr simpleChanges); cbn [negb];
      [|by intros returned [= <-]].
    intros returned. apply W_bind_returns_batch.
    intros b1 returned'. apply W_bind_returns_batch.
    by intros b2 returned'' [= <-]. }
  split; [|split; [done|split]].
  - unfold Shared._manageChanges. rewrite Hcond.
    destruct (cycleProcessed mgr simpleChanges); cbn [negb]; [|done].
    apply W_bind_threaded; [apply executeChangesCallbacks_threaded|].
    intros [] b1.
    apply W_bind_threaded; [apply callOnChanges_threaded|done].
  - intros Hproc. unfold Shared._manageChanges.
    by rewrite Hcond, Hproc.
  - intros Hpure. split; [by apply _manageChanges_pure|].
    intros returned Hret. apply Hreturned in Hret.
    rewrite _manageChanges_pure in Hret by done. cbn [fst] in Hret.
    subst returned. split; [done|].
    split; [apply getChangesSummary_dom|].
    intros key. apply getChangesSummary_lookup.
Qed.

(** The first handler of the cycle deletes an entry of the batch: the
    hook is called with the batch without that entry, and so is what
    the caller receives. *)
Example cycle_returns_what_handlers_wrote :
  let out := Shared._manageChanges Shared.deleting
               (Scenario.built hookedParams) Scenario.bothChanged in
  trace out.2
    = [EvHandler 1 (getChangesSummary Scenario.bothChanged);
       EvDetectChanges;
       EvOnChanges 7 (delete "surname"
                        (getChangesSummary Scenario.bothChanged))] ∧
  result out.2
    = Returns (delete "surname" (getChangesSummary Scenario.bothChanged)) ∧
  delete "surname" (getChangesSummary Scenario.bothChanged)
    ≠ getChangesSummary Scenario.bothChanged.
Proof.
  split; [vm_compute; reflexivity|]. split; [vm_compute; reflexivity|].
  intros Heq.
  assert (delete "surname" (getChangesSummary Scenario.bothChanged)
            !! "surname"
          = getChangesSummary Scenario.bothChanged !! "surname") as Hlookup
    by (by rewrite Heq).
  rewrite lookup_delete_eq in Hlookup. vm_compute in Hlookup.
  discriminate Hlookup.
Qed.

(** ** [tryComponentSimpleChange] *)

(** X2. [tryComponentSimpleChange] calls the callback at most once, with
    the current value of the change, and only for a record that is
    present, not a first change, and whose value changed; it returns
    [true] exactly when that call was made and returned. For a change
    that does not count it returns [false] without touching the
    callback, even one that is not a function. *)
Theorem tryComponentSimpleChange_spec runValue simpleChange callback :
  let calls := (tryComponentSimpleChange runValue simpleChange callback).1 in
  let res := (tryComponentSimpleChange runValue simpleChange callback).2 in
  (didPropertyChange simpleChange = false →
   calls = [] ∧ res = Returns false) ∧
  (res = Returns true ↔
   ∃ c f r, simpleChange = Some c ∧ didPropertyChange simpleChange = true ∧
            callback = VFunction f ∧
            runValue f (SimpleChange.currentValue c) = Returns r) ∧
  (∀ f v, EvCallback f v ∈ calls →
          calls = [EvCallback f v] ∧ callback = VFunction f ∧
          didPropertyChange simpleChange = true ∧
          ∃ c, simpleChange = Some c ∧ v = SimpleChange.currentValue c) ∧
  (didPropertyChange simpleChange = true → isFunction callback = false →
   calls = [] ∧ res = Throws TypeError).
Proof.
  intros calls res. unfold calls, res, tryComponentSimpleChange.
  destruct (didPropertyChange simpleChange) eqn:Hd; simpl.
  - destruct simpleChange as [c|]; [|done].
    destruct callback as [| | | | | |f]; simpl;
      try (split; [done|]; split; [|split; [by intros ? ? ?%elem_of_nil|done]];
           split; [done|]; by intros (? & ? & ? & _ & _ & ? & _)).
    split; [done|]. split; [|split; [|done]].
    + destruct (runValue f (SimpleChange.currentValue c)) as [r|e] eqn:Hr.
      * split; [|done]. intros _. by exists c, f, r.
      * split; [done|]. intros (c' & f' & r & [= <-] & _ & [= <-] & Hr').
        congruence.
    + intros f' v [= -> ->]%list_elem_of_singleton.
      split; [done|]. split; [done|]. split; [done|]. by exists c.
  - split; [done|]. split; [|split; [by intros ? ? ?%elem_of_nil|done]].
    split; [done|]. by intros (? & ? & ? & _ & ? & _).
Qed.

(** ** Debounce *)

Lemma manageChangesAll_debounced run mgr cycles :
  shouldDebounceDetection mgr = true →
  manageChangesAll run mgr cycles =
  mret (match last cycles with
        | Some simpleChanges =>
            withPendingManageChanges mgr (Some simpleChanges)
        | None => mgr
        end).
Proof.
  unfold manageChangesAll. revert mgr.
  induction cycles as [|simpleChanges cycles IH]; intros mgr Hdeb; [done|].
  assert (manageChanges run mgr simpleChanges
          = mret (None, withPendingManageChanges mgr (Some simpleChanges)))
    as Hstep by (unfold manageChanges; by rewrite Hdeb).
  cbn [reduce]. rewrite Hstep, !ret_bind.
  cbn [snd]. rewrite IH by done. rewrite last_cons.
  by destruct (last cycles).
Qed.

(** X3. With the debounce of the default configuration, any number of
    calls of [manageChanges] in a row runs nothing and leaves one
    pending cycle, that of the last call; when the timer fires, that
    cycle alone is processed, and a later firing finds nothing to do.
    The changes of the earlier calls are never processed. *)
Theorem debounced_calls_keep_last run mgr cycles simpleChanges :
  shouldDebounceDetection mgr = true →
  last cycles = Some simpleChanges →
  manageChangesAll run mgr cycles
    = mret (withPendingManageChanges mgr (Some simpleChanges)) ∧
  manageChangesTimeout run
    (withPendingManageChanges mgr (Some simpleChanges))
    = (withPendingManageChanges mgr None,
       _manageChanges run mgr simpleChanges;; mret tt) ∧
  manageChangesTimeout run (withPendingManageChanges mgr None)
    = (withPendingManageChanges mgr None, mret tt).
Proof.
  intros Hdeb Hlast. rewrite manageChangesAll_debounced by done.
  by rewrite Hlast.
Qed.

(** Two cycles in a row on the README registration: only the second is
    processed when the timer fires. *)
Lemma debounced_calls_keep_last_witness :
  let mgr := Scenario.built Scenario.fullNameParams in
  manageChangesAll Scenario.quiet mgr
    [Scenario.surnameChanged; Scenario.bothChanged]
    = mret (withPendingManageChanges mgr (Some Scenario.bothChanged)).
Proof.
  intros mgr.
  apply (debounced_calls_keep_last Scenario.quiet mgr
           [Scenario.surnameChanged; Scenario.bothChanged]
           Scenario.bothChanged); reflexivity.
Defined.

Lemma detectChangesDebouncedTimes_S n mgr :
  detectChangesDebouncedTimes (S n) mgr = withPendingDetectChanges mgr true.
Proof. induction n as [|n IH]; [done|]. simpl in *. by rewrite IH. Qed.

(** X4. Any positive number of calls of [detectChangesDebounced] gives
    the re-render signal once, when the timer fires, and not before;
    the pending cycle of the debounced [manageChanges] is a timer of its
    own and is left alone. *)
Theorem detectChangesDebounced_coalesces n mgr :
  0 < n →
  let mgr' := detectChangesDebouncedTimes n mgr in
  pendingManageChanges mgr' = pendingManageChanges mgr ∧
  registry mgr' = registry mgr ∧
  detectChangesTimeout mgr'
    = (withPendingDetectChanges mgr false, mkM [EvDetectChanges] (Returns tt)) ∧
  detectChangesTimeout (withPendingDetectChanges mgr false)
    = (withPendingDetectChanges mgr false, mret tt).
Proof.
  intros Hn mgr'. unfold mgr'. destruct n as [|n]; [lia|].
  by rewrite detectChangesDebouncedTimes_S.
Qed.

Lemma detectChangesDebounced_coalesces_witness :
  (detectChangesTimeout
     (detectChangesDebouncedTimes 3
        (Scenario.built Scenario.fullNameParams))).2
    = mkM [EvDetectChanges] (Returns tt).
Proof.
  destruct (detectChangesDebounced_coalesces 3
              (Scenario.built Scenario.fullNameParams)) as (_ & _ & -> & _);
    [lia|reflexivity].
Defined.

(** ** The constructor *)

(** X5. Constructing a manager calls nothing: no handler, no validator
    and no re-render. It throws, a [TypeError], exactly when a callback
    declaration is [null] or [undefined]; otherwise it returns a manager
    with the given component and hook, strict unless [strict] was given
    as [false], debounced unless [debounceDelay] is NaN, no timer
    pending, and a registry whose two maps have the same keys; without
    callbacks the registry is empty. *)
Theorem constructor_spec params :
  trace (constructor params) = [] ∧
  ((∃ config, p_callbacks params = Some config ∧
              DeclNullish ∈ declarations config) →
   result (constructor params) = Throws TypeError) ∧
  ((∀ config, p_callbacks params = Some config →
              DeclNullish ∉ declarations config) →
   ∃ reg,
     result (constructor params)
       = Returns (mkManager (p_component params) reg
                    (default true (p_strict params)) (p_onChanges params)
                    (negb (isNaN (p_debounceDelay params))) None false) ∧
     registryInvariant reg ∧
     (p_callbacks params = None → reg = emptyRegistry)).
Proof.
  unfold constructor.
  pose proof (setCallbacksConfig_trace (p_callbacks params)) as Htr.
  split; [|split].
  - unfold mbind, M_bind.
    destruct (result (setCallbacksConfig (p_callbacks params)));
      simpl; by rewrite Htr.
  - intros (config & Hconfig & Hin). rewrite Hconfig.
    destruct (setCallbacksConfig_Some config) as (entries & Hdecl & ->).
    unfold computeCallbackConfigDerivatives.
    rewrite reduce_registerGroup_throws; [done|].
    rewrite sanitized_all_Some, Hdecl. by intros Hnot.
  - intros Hclean.
    assert (∃ reg, setCallbacksConfig (p_callbacks params) = mret reg)
      as [reg Hreg].
    { destruct (p_callbacks params) as [config|] eqn:Hconfig;
        [|by exists emptyRegistry].
      destruct (setCallbacksConfig_Some config) as (entries & Hdecl & ->).
      apply reduce_registerGroup_returns.
      rewrite sanitized_all_Some, Hdecl. by apply Hclean. }
    exists reg. rewrite Hreg, ret_bind. split; [done|].
    split; [by apply (setCallbacksConfig_invariant (p_callbacks params))|].
    intros Hnone. rewrite Hnone in Hreg. by injection Hreg.
Qed.

(** ** The registry *)

Lemma filter_all_true {A} (P : A → Prop) `{∀ x, Decision (P x)} (l : list A) :
  (∀ x, x ∈ l → P x) → filter P l = l.
Proof.
  induction l as [|x l IH]; intros Hall; [done|].
  rewrite filter_cons_True by (apply Hall; left).
  f_equal. apply IH. intros y Hy. apply Hall. by right.
Qed.

Lemma firstOccurrences_elem {A} `{EqDecision A} (l : list A) x :
  x ∈ firstOccurrences l ↔ x ∈ l.
Proof.
  induction l as [|y l IH]; simpl; [done|].
  rewrite !elem_of_cons, list_elem_of_filter, IH.
  destruct (decide (x = y)); naive_solver.
Qed.

Lemma firstOccurrences_NoDup {A} `{EqDecision A} (l : list A) :
  NoDup (firstOccurrences l).
Proof.
  induction l as [|y l IH]; simpl; [constructor|].
  apply NoDup_cons. split; [|by apply NoDup_filter].
  rewrite list_elem_of_filter. by intros [? _].
Qed.

(** Setting the keys of a list in order into a [Map] that holds the
    keys [keys] appends the new ones at their first occurrence. *)
Lemma firstOccurrences_step {A} `{EqDecision A} (keys : list A) x l :
  (if decide (x ∈ keys) then keys else keys ++ [x]) ++
  filter (λ y, y ∉ (if decide (x ∈ keys) then keys else keys ++ [x]))
         (firstOccurrences l)
  = keys ++ filter (λ y, y ∉ keys) (firstOccurrences (x :: l)).
Proof.
  simpl. destruct (decide (x ∈ keys)) as [Hin|Hnotin].
  - rewrite filter_cons_False by (by intros Hx; apply Hx).
    f_equal. rewrite list_filter_filter. apply list_filter_iff.
    intros y. split; [|by intros [? _]].
    intros Hy. split; [done|]. by intros ->.
  - rewrite filter_cons_True by done. rewrite <- (assoc_L (++)). simpl.
    do 2 f_equal. rewrite list_filter_filter. apply list_filter_iff.
    intros y. rewrite not_elem_of_app, list_elem_of_singleton. tauto.
Qed.

Lemma reduce_registerGroup_keys config reg reg' :
  reduce registerGroup config reg = mret reg' →
  (callbacksByGroup reg').*1 =
  (callbacksByGroup reg).*1 ++
  filter (λ g, g ∉ (callbacksByGroup reg).*1)
         (firstOccurrences (map (λ entry, groupIdOf entry.1) config)).
Proof.
  revert reg. induction config as [|[props c] config IH]; intros reg.
  - intros [= <-]. simpl. by rewrite app_nil_r.
  - cbn [reduce]. destruct c as [c|]; [|done].
    rewrite registerGroup_Some, ret_bind. intros Hred.
    rewrite (IH _ Hred). cbn [callbacksByGroup map fst].
    rewrite Map_set_fst. apply firstOccurrences_step.
Qed.

(** Every group of the registry has the handler and the attributes of
    one and the same declaration. *)
Lemma reduce_registerGroup_paired config seen reg reg' :
  (∀ g cfg, Map_get g (callbacksByGroup reg) = Some cfg →
            ∃ props c, (props, Some c) ∈ seen ∧ g = groupIdOf props ∧
                       cfg = stored c ∧
                       Map_get g (propertiesByGroup reg)
                         = Some (list_to_set props)) →
  reduce registerGroup config reg = mret reg' →
  ∀ g cfg, Map_get g (callbacksByGroup reg') = Some cfg →
           ∃ props c, (props, Some c) ∈ seen ++ config ∧
                      g = groupIdOf props ∧ cfg = stored c ∧
                      Map_get g (propertiesByGroup reg')
                        = Some (list_to_set props).
Proof.
  revert seen reg. induction config as [|[props c] config IH];
    intros seen reg Hinv.
  - intros [= <-]. by rewrite app_nil_r.
  - cbn [reduce]. destruct c as [c|]; [|done].
    rewrite registerGroup_Some, ret_bind. intros Hred g cfg Hg.
    set (reg1 := mkRegistry
                   (Map_set (groupIdOf props) (list_to_set props)
                            (propertiesByGroup reg))
                   (Map_set (groupIdOf props) (stored c)
                            (callbacksByGroup reg))) in *.
    assert (∀ g cfg, Map_get g (callbacksByGroup reg1) = Some cfg →
              ∃ props0 c0, (props0, Some c0) ∈ seen ++ [(props, Some c)] ∧
                           g = groupIdOf props0 ∧ cfg = stored c0 ∧
                           Map_get g (propertiesByGroup reg1)
                             = Some (list_to_set props0)) as Hinv1.
    { clear g cfg Hg. intros g cfg. unfold reg1.
      cbn [callbacksByGroup propertiesByGroup].
      rewrite !Map_get_set. destruct (decide (g = groupIdOf props)) as [->|?].
      - intros [= <-]. exists props, c. split; [|done].
        apply elem_of_app. right. left.
      - intros Hg. destruct (Hinv g cfg Hg) as (p & c0 & ? & ?).
        exists p, c0. split; [|done]. apply elem_of_app. by left. }
    destruct (IH _ _ Hinv1 Hred g cfg Hg) as (props' & c' & Hin & Hrest).
    exists props', c'. split; [|done]. by rewrite <- (assoc_L (++)) in Hin.
Qed.

(** X6. In a registry that was built, the groups are listed in the
    order in which their ids first occur in the configuration, each id
    once, and identically in both maps; an id that no declaration has
    is in neither map; and the handler and the attribute set of a group
    come from one and the same declaration, with a validator that is
    never [undefined]. *)
Theorem registry_lists_groups_in_declaration_order config reg :
  computeCallbackConfigDerivatives config = mret reg →
  let ids := map (λ entry : list string * option TCallbackConfig.t,
                    groupIdOf entry.1) config in
  (callbacksByGroup reg).*1 = firstOccurrences ids ∧
  (propertiesByGroup reg).*1 = firstOccurrences ids ∧
  (∀ g, g ∉ ids →
        Map_get g (callbacksByGroup reg) = None ∧
        Map_get g (propertiesByGroup reg) = None) ∧
  (∀ g cfg, (g, cfg) ∈ callbacksByGroup reg →
            TCallbackConfig.validator cfg ≠ VUndefined ∧
            ∃ props c, (props, Some c) ∈ config ∧ g = groupIdOf props ∧
                       cfg = stored c ∧
                       Map_get g (propertiesByGroup reg)
                         = Some (list_to_set props)).
Proof.
  intros Hreg ids.
  destruct (computeCallbackConfigDerivatives_invariant _ _ Hreg)
    as [Hsame Hnd].
  assert ((callbacksByGroup reg).*1 = firstOccurrences ids) as Hkeys.
  { rewrite (reduce_registerGroup_keys _ _ _ Hreg). simpl.
    apply filter_all_true. intros g _. by intros ?%elem_of_nil. }
  split; [done|]. split; [by rewrite Hsame|]. split.
  - intros g Hg. rewrite !Map_get_None, Hsame, Hkeys.
    by rewrite firstOccurrences_elem.
  - intros g cfg Hin. apply (elem_Map_get _ _ _ Hnd) in Hin.
    destruct (reduce_registerGroup_paired config [] emptyRegistry reg)
      with (g := g) (cfg := cfg) as (props & c & ? & ? & -> & ?);
      [done|done|done|].
    split; [|by exists props, c].
    unfold stored, coalesce. simpl.
    by destruct (TCallbackConfig.validator c).
Qed.

(** Three declarations, the third with the fields of the first in
    another order: two groups, in the order of the first and second
    declarations, the first with the handler of the third. *)
Lemma registry_lists_groups_in_declaration_order_witness :
  ∃ reg,
    computeCallbackConfigDerivatives
      [(["b"; "a"], Some (TCallbackConfig.mk (VFunction 1) VUndefined));
       (["c"], Some (TCallbackConfig.mk (VFunction 2) (VFunction 9)));
       (["a"; "b"], Some (TCallbackConfig.mk (VFunction 3) VUndefined))]
      = mret reg ∧
    (callbacksByGroup reg).*1 = ["a|b"; "c"] ∧
    (propertiesByGroup reg).*1 = ["a|b"; "c"].
Proof.
  eexists. split; [vm_compute; reflexivity|].
  match goal with
  | |- (callbacksByGroup ?reg).*1 = _ ∧ _ =>
      destruct (registry_lists_groups_in_declaration_order
                  [(["b"; "a"],
                    Some (TCallbackConfig.mk (VFunction 1) VUndefined));
                   (["c"],
                    Some (TCallbackConfig.mk (VFunction 2) (VFunction 9)));
                   (["a"; "b"],
                    Some (TCallbackConfig.mk (VFunction 3) VUndefined))]
                  reg) as (Hc & Hp & _)
  end.
  - vm_compute. reflexivity.
  - rewrite Hc, Hp. split; vm_compute; reflexivity.
Defined.

(** ** The attributes of the manual run *)

Lemma fold_Set_add_elem {K} `{EqDecision K} (l s : list K) k :
  k ∈ fold_left (λ s x, Set_add x s) l s ↔ k ∈ s ∨ k ∈ l.
Proof.
  revert s. induction l as [|x l IH]; intros s; cbn [fold_left].
  - split; [by left|]. by intros [?|?%elem_of_nil].
  - rewrite IH, Set_add_elem, elem_of_cons. tauto.
Qed.

Lemma fold_Set_add_NoDup {K} `{EqDecision K} (l s : list K) :
  NoDup s → NoDup (fold_left (λ s x, Set_add x s) l s).
Proof.
  revert s. induction l as [|x l IH]; intros s Hnd; cbn [fold_left]; [done|].
  by apply IH, Set_add_NoDup.
Qed.

Lemma collectAll_attributes groups acc :
  (NoDup acc.2 → NoDup (fold_left collectAll groups acc).2) ∧
  ∀ a, a ∈ (fold_left collectAll groups acc).2 ↔
       a ∈ acc.2 ∨ ∃ g cfg, (g, cfg) ∈ groups ∧ a ∈ split "|" g.
Proof.
  revert acc. induction groups as [|[g [cb val]] groups IH];
    intros [callbacks attributes]; cbn [fold_left].
  - split; [done|]. intros a. split; [by left|].
    by intros [?|(? & ? & ?%elem_of_nil & _)].
  - cbn [collectAll].
    destruct (IH (Map_set (canon cb)
                    (Set_add (canon val)
                       (default [] (Map_get (canon cb) callbacks)))
                    callbacks,
                  fold_left (λ attributes attribute,
                               Set_add attribute attributes)
                            (split "|" g) attributes))
      as [Hnd Helem].
    split.
    + intros Hacc. apply Hnd. cbn [snd] in *. by apply fold_Set_add_NoDup.
    + intros a. rewrite Helem. cbn [snd]. rewrite fold_Set_add_elem. split.
      * intros [[?|?]|(g' & cfg' & ? & ?)]; [by left|right|right].
        -- exists g, (TCallbackConfig.mk cb val). split; [left|done].
        -- exists g', cfg'. split; [by right|done].
      * intros [?|(g' & cfg' & Hin & Ha)]; [left; by left|].
        apply elem_of_cons in Hin as [[= -> ->]|Hin].
        -- left. by right.
        -- right. by exists g', cfg'.
Qed.

Lemma attributesOf_elem groups a :
  a ∈ attributesOf groups ↔
  ∃ g cfg, (g, cfg) ∈ groups ∧ a ∈ split "|" g.
Proof.
  unfold attributesOf.
  destruct (collectAll_attributes groups ([], [])) as [_ ->]. simpl.
  split; [|by right]. by intros [?%elem_of_nil|?].
Qed.

Lemma attributesOf_NoDup groups : NoDup (attributesOf groups).
Proof.
  unfold attributesOf.
  destruct (collectAll_attributes groups ([], [])) as [Hnd _].
  apply Hnd. constructor.
Qed.

(** X7. The manual run reads the attributes back from the group ids.
    For a registry built from declarations whose property lists are not
    empty and whose property names do not hold the separator, it reads
    back exactly the properties declared, each once. *)
Theorem manual_run_reads_back_declared_properties config reg :
  computeCallbackConfigDerivatives config = mret reg →
  Forall (λ entry : list string * option TCallbackConfig.t,
            entry.1 ≠ [] ∧ Forall (λ s, contains "|" s = false) entry.1)
         config →
  NoDup (attributesOf (callbacksByGroup reg)) ∧
  ∀ attribute,
    attribute ∈ attributesOf (callbacksByGroup reg) ↔
    ∃ props c, (props, c) ∈ config ∧ attribute ∈ props.
Proof.
  intros Hreg Hclean. split; [apply attributesOf_NoDup|].
  destruct (computeCallbackConfigDerivatives_invariant _ _ Hreg)
    as [Hsame Hnd].
  rewrite Forall_forall in Hclean.
  intros attribute. rewrite attributesOf_elem. split.
  - intros (g & cfg & Hin & Ha). apply (elem_Map_get _ _ _ Hnd) in Hin.
    destruct (reduce_registerGroup_paired config [] emptyRegistry reg)
      with (g := g) (cfg := cfg) as (props & c & Hc & -> & _);
      [done|done|done|].
    exists props, (Some c). split; [done|].
    destruct (Hclean _ Hc) as [Hne Hsep]. simpl in *.
    rewrite split_groupIdOf in Ha by done.
    by rewrite sort_Permutation in Ha.
  - intros (props & c & Hc & Ha).
    assert (groupIdOf props ∈ (callbacksByGroup reg).*1) as Hg.
    { rewrite (reduce_registerGroup_keys _ _ _ Hreg). simpl.
      rewrite filter_all_true by (intros ? _; by intros ?%elem_of_nil).
      rewrite firstOccurrences_elem. apply list_elem_of_fmap.
      by exists (props, c). }
    apply list_elem_of_fmap in Hg as ([g cfg] & Hg & Hin). simpl in Hg.
    exists g, cfg. split; [done|]. subst g.
    destruct (Hclean _ Hc) as [Hne Hsep]. simpl in *.
    rewrite split_groupIdOf by done. by rewrite sort_Permutation.
Qed.

Lemma manual_run_reads_back_declared_properties_witness :
  NoDup (attributesOf
           (callbacksByGroup
              (registry (Scenario.built Scenario.fullNameParams)))) ∧
  "surname" ∈ attributesOf
                (callbacksByGroup
                   (registry (Scenario.built Scenario.fullNameParams))).
Proof.
  destruct (manual_run_reads_back_declared_properties
              [(["name"; "surname"],
                Some (TCallbackConfig.mk (VFunction 1) VNull))]
              (registry (Scenario.built Scenario.fullNameParams)))
    as [Hnd Helem].
  - vm_compute. reflexivity.
  - repeat constructor; done.
  - split; [exact Hnd|]. apply Helem.
    exists ["name"; "surname"],
           (Some (TCallbackConfig.mk (VFunction 1) VNull)).
    split; [left|]. right. left.
Defined.

(** ** The manual run *)

Section ManualRunOrder.
Context (run : FnId → ChangeBatch → outcome value).

Lemma executeCallbacks_unfold mgr options :
  executeCallbacks run mgr options =
  forEach (runHandler run (default false options) (manualBatch mgr))
          (fold_left collectAll (callbacksByGroup (registry mgr)) ([], [])).1.
Proof.
  unfold executeCallbacks, manualBatch, attributesOf.
  by destruct (fold_left collectAll _ _).
Qed.

Lemma collectAll_key_order groups acc :
  (fold_left collectAll groups acc).1.*1 =
  acc.1.*1 ++
  filter (λ k, k ∉ acc.1.*1)
         (firstOccurrences
            (map (λ group : string * TCallbackConfig.t,
                    canon (TCallbackConfig.callback group.2)) groups)).
Proof.
  revert acc. induction groups as [|[g [cb val]] groups IH];
    intros [callbacks attributes]; cbn [fold_left].
  - simpl. by rewrite app_nil_r.
  - rewrite IH. cbn [collectAll fst map snd TCallbackConfig.callback].
    rewrite Map_set_fst. apply firstOccurrences_step.
Qed.

Lemma collectAll_registeredHandlers reg :
  (fold_left collectAll (callbacksByGroup reg) ([], [])).1.*1
  = registeredHandlers reg.
Proof.
  rewrite collectAll_key_order. simpl.
  apply filter_all_true. intros k _. by intros ?%elem_of_nil.
Qed.

Lemma forEach_runHandler_skip_order b l :
  handlersCalled (trace (forEach (runHandler run true b) l))
    `prefix_of` omap fnOf l.*1 ∧
  (result (forEach (runHandler run true b) l) = Returns tt ↔
   Forall (λ k, ∃ f r, k = VFunction f ∧ run f b = Returns r) l.*1) ∧
  (result (forEach (runHandler run true b) l) = Returns tt →
   handlersCalled (trace (forEach (runHandler run true b) l))
     = omap fnOf l.*1).
Proof.
  induction l as [|[k vs] l (IHp & IHr & IHe)].
  { split; [done|]. split; [|done]. split; [constructor|done]. }
  rewrite forEach_cons_trace, forEach_cons_result, runHandler_skip.
  rewrite handlersCalled_app, fmap_cons, Forall_cons. cbn [fst].
  destruct k as [| | | | | |f]; cbn [trace result];
    try (split; [apply prefix_nil|];
         split; [|by intros [? _]];
         split; [by intros [? _]|by intros [(? & ? & ? & _) _]]).
  cbn [omap fnOf handlersCalled app]. destruct (run f b) as [r|e] eqn:Hr.
  - split; [by apply prefix_cons|]. split.
    + rewrite <- IHr. split; [intros [_ ?]|by intros [_ ?]].
      split; [by exists f, r|done].
    + intros [_ Hl]. by rewrite (IHe Hl).
  - split; [apply prefix_cons, prefix_nil|]. split; [|by intros [? _]].
    split; [by intros [? _]|]. intros [(? & ? & [= <-] & ?) _]. congruence.
Qed.

(** A manual run that skips the validators and throws stopped at the
    first handler that is not a function or that throws. *)
Lemma forEach_runHandler_skip_throws b l e :
  result (forEach (runHandler run true b) l) = Throws e →
  ∃ ran k rest,
    l.*1 = ran ++ k :: rest ∧
    Forall (λ k, ∃ f r, k = VFunction f ∧ run f b = Returns r) ran ∧
    ((isFunction k = false ∧ e = TypeError ∧
      handlersCalled (trace (forEach (runHandler run true b) l))
        = omap fnOf ran) ∨
     (∃ f, k = VFunction f ∧ run f b = Throws e ∧
           handlersCalled (trace (forEach (runHandler run true b) l))
             = omap fnOf ran ++ [f])).
Proof.
  intros (ran & [k vs] & rest & -> & Hran & Hk & ->)%forEach_throws.
  destruct (forEach_runHandler_skip_order b ran) as (_ & Hall & Hcalled).
  exists ran.*1, k, rest.*1. split; [by rewrite fmap_app, fmap_cons|].
  split; [by apply Hall|].
  rewrite handlersCalled_app, (Hcalled Hran).
  rewrite runHandler_skip in Hk |- *.
  destruct k as [| | | | | |f]; cbn [result trace] in Hk |- *;
    try (left; injection Hk as <-; by rewrite app_nil_r).
  right. exists f. destruct (run f b) as [r|e'] eqn:Hr; [done|].
  by injection Hk as ->.
Qed.

Lemma handler_events_trace b tr :
  (∀ ev, ev ∈ tr → ∃ f, ev = EvHandler f b) →
  tr = map (λ f, EvHandler f b) (handlersCalled tr).
Proof.
  induction tr as [|ev tr IH]; intros Hall; [done|].
  destruct (Hall ev) as [f ->]; [left|].
  cbn [handlersCalled omap list_omap map]. f_equal.
  apply IH. intros ev' Hin. apply Hall. by right.
Qed.

Lemma collectAll_head groups k v vs tl attributes :
  ∃ vs' tl' attributes',
    fold_left collectAll groups ((k, v :: vs) :: tl, attributes)
    = ((k, v :: vs') :: tl', attributes').
Proof.
  revert vs tl attributes.
  induction groups as [|[g [cb val]] groups IH]; intros vs tl attributes;
    cbn [fold_left]; [by eexists _, _, _|].
  cbn [collectAll Map_get Map_set].
  destruct (decide (canon cb = k)) as [Hk|Hk]; [|apply IH].
  cbn [from_option id Set_add]. destruct (decide (canon val = v)); apply IH.
Qed.
End ManualRunOrder.

(** X8. With the flag that skips the validators, the manual run calls
    no validator and calls the registered handlers in the order of their
    first registration, each with the batch it built. It completes
    exactly when every registered handler is a function that returns on
    that batch, and then it has called every one of them, once.
    Otherwise it stops at the first registered handler that is not a
    function or that throws: the handlers before that one were called,
    a handler that throws was called too, and no handler after it was;
    the exception is that of the handler, or a [TypeError] for a handler
    that is not a function. *)
Theorem executeCallbacks_avoidValidations_runs_in_order run mgr :
  let m := executeCallbacks run mgr (Some true) in
  let handlers := registeredHandlers (registry mgr) in
  let returns := λ k, ∃ f r, k = VFunction f ∧
                             run f (manualBatch mgr) = Returns r in
  validatorCalls (trace m) = [] ∧
  trace m
    = map (λ f, EvHandler f (manualBatch mgr)) (handlersCalled (trace m)) ∧
  NoDup handlers ∧
  (result m = Returns tt ↔ Forall returns handlers) ∧
  (result m = Returns tt → handlersCalled (trace m) = omap fnOf handlers) ∧
  (∀ e, result m = Throws e →
     ∃ ran k rest,
       handlers = ran ++ k :: rest ∧
       Forall returns ran ∧
       ((isFunction k = false ∧ e = TypeError ∧
         handlersCalled (trace m) = omap fnOf ran) ∨
        (∃ f, k = VFunction f ∧
              run f (manualBatch mgr) = Throws e ∧
              handlersCalled (trace m) = omap fnOf ran ++ [f]))).
Proof.
  intros m handlers returns. unfold m, handlers, returns.
  rewrite executeCallbacks_unfold. cbn [from_option id].
  rewrite <- collectAll_registeredHandlers.
  set (callbacks := (fold_left collectAll _ _).1).
  destruct (forEach_runHandler_skip_order run (manualBatch mgr) callbacks)
    as (Hp & Hr & He).
  split; [apply forEach_runHandler_skip_validators|]. split.
  { apply handler_events_trace.
    intros ev (entry & _ & Hev)%forEach_trace_elem. destruct entry as [k vs].
    rewrite runHandler_skip in Hev.
    destruct k; simpl in Hev; try (by apply elem_of_nil in Hev).
    apply list_elem_of_singleton in Hev as ->. by eexists. }
  split; [unfold callbacks; rewrite collectAll_registeredHandlers;
          apply firstOccurrences_NoDup|].
  split; [done|]. split; [done|].
  intros e. apply forEach_runHandler_skip_throws.
Qed.

(** Two handlers, the first of which throws: only the first is
    called. *)
Lemma executeCallbacks_avoidValidations_runs_in_order_witness :
  handlersCalled
    (trace (executeCallbacks Scenario.failing
              (Scenario.built (Scenario.twoHandlers DelayOmitted))
              (Some true))) = [1].
Proof.
  destruct (executeCallbacks_avoidValidations_runs_in_order
              Scenario.failing
              (Scenario.built (Scenario.twoHandlers DelayOmitted)))
    as (_ & _ & _ & _ & _ & Hthrows).
  destruct (Hthrows Scenario.boom) as (ran & k & rest & Hsplit & Hran & Hk);
    [vm_compute; reflexivity|].
  change (registeredHandlers _) with [VFunction 1; VFunction 2] in Hsplit.
  destruct ran as [|k0 ran].
  - injection Hsplit as <- _.
    destruct Hk as [(Hfun & _)|(f & [= <-] & _ & ->)]; [done|reflexivity].
  - exfalso. injection Hsplit as <- _.
    apply Forall_cons in Hran as [(f & r & [= <-] & Hr) _].
    vm_compute in Hr. discriminate Hr.
Defined.

(** X9. The batch of the manual run has one entry for each piece of a
    registered group id. The entry holds what the two reads of that
    property of the component answer, each through the prototype chain
    and the getters, the current value being read first; it is not a
    first change, and it counts as changed exactly when the two reads
    differ under [Object.is]. They agree for a data property, own or
    inherited, and for a property that no object of the chain has, whose
    values are both [undefined]; for an accessor they are what the
    getter answers at each read. When the reads of every attribute
    agree, the batch triggers no group. Every call the manual run
    makes, to a validator or to a handler, receives that batch. *)
Theorem manual_run_batch_spec run mgr options :
  let chain :=
    ownProperties (component mgr) :: prototypeChain (component mgr) in
  (∀ attribute,
     manualBatch mgr !! attribute =
     if decide (attribute ∈ attributesOf (callbacksByGroup (registry mgr)))
     then Some {| TChange.previousValue :=
                    readComponent mgr ReadPreviousValue attribute;
                  TChange.currentValue :=
                    readComponent mgr ReadCurrentValue attribute;
                  TChange.firstChange := false;
                  TChange.didChange :=
                    negb (Object_is
                            (readComponent mgr ReadCurrentValue attribute)
                            (readComponent mgr ReadPreviousValue attribute)) |}
     else None) ∧
  (∀ attribute,
     attribute ∈ attributesOf (callbacksByGroup (registry mgr)) ↔
     ∃ g cfg, (g, cfg) ∈ callbacksByGroup (registry mgr) ∧
              attribute ∈ split "|" g) ∧
  (∀ attribute change,
     manualBatch mgr !! attribute = Some change →
     TChange.firstChange change = false ∧
     (TChange.didChange change = false ↔
      TChange.currentValue change = TChange.previousValue change) ∧
     (∀ v, findProperty attribute chain = Some (DataProperty v) →
           TChange.currentValue change = v ∧
           TChange.previousValue change = v ∧
           TChange.didChange change = false) ∧
     (findProperty attribute chain = None →
      TChange.currentValue change = VUndefined ∧
      TChange.previousValue change = VUndefined ∧
      TChange.didChange change = false) ∧
     (∀ get, findProperty attribute chain = Some (AccessorProperty get) →
             TChange.currentValue change = get ReadCurrentValue ∧
             TChange.previousValue change = get ReadPreviousValue)) ∧
  ((∀ attribute,
      attribute ∈ attributesOf (callbacksByGroup (registry mgr)) →
      stableRead mgr attribute) →
   ∀ g, ¬ groupTriggered (registry mgr) (manualBatch mgr) g) ∧
  (∀ ev, ev ∈ trace (executeCallbacks run mgr options) →
         (∃ f, ev = EvValidator f (manualBatch mgr)) ∨
         (∃ f, ev = EvHandler f (manualBatch mgr))).
Proof.
  intros chain. subst chain.
  assert (∀ attribute,
            manualBatch mgr !! attribute =
            if decide
                 (attribute ∈ attributesOf (callbacksByGroup (registry mgr)))
            then Some {| TChange.previousValue :=
                           readComponent mgr ReadPreviousValue attribute;
                         TChange.currentValue :=
                           readComponent mgr ReadCurrentValue attribute;
                         TChange.firstChange := false;
                         TChange.didChange :=
                           negb (Object_is
                                   (readComponent mgr ReadCurrentValue
                                      attribute)
                                   (readComponent mgr ReadPreviousValue
                                      attribute)) |}
            else None) as Hlookup.
  { intros attribute. unfold manualBatch.
    rewrite getChangesSummary_lookup, syntheticChanges_lookup.
    case_decide; [|done]. simpl. unfold summarise. simpl.
    by rewrite didPropertyChange_Some. }
  split; [done|]. split; [intros attribute; apply attributesOf_elem|].
  split; [|split].
  - intros attribute change. rewrite Hlookup.
    case_decide; [|done]. intros [= <-].
    cbn [TChange.firstChange TChange.didChange TChange.currentValue
         TChange.previousValue].
    split; [done|]. split.
    { rewrite negb_false_iff. apply Object_is_eq. }
    unfold readComponent. split; [|split].
    + intros v ->. by rewrite Object_is_refl.
    + intros ->. done.
    + by intros get ->.
  - intros Hstable g.
    apply nothingChanged_not_triggered, syntheticChanges_unchanged.
    apply Forall_forall. intros attribute Hin. by apply Hstable.
  - rewrite executeCallbacks_unfold.
    intros ev (entry & _ & Hev)%forEach_trace_elem.
    by apply runHandler_events in Hev.
Qed.

(** An inherited function is read as it is, a getter is read twice,
    and a property that is nowhere is [undefined]. *)
Lemma manual_run_batch_spec_witness :
  let mgr := Scenario.built accessorParams in
  manualBatch mgr !! "toString"
    = Some {| TChange.previousValue := VFunction 9;
              TChange.currentValue := VFunction 9;
              TChange.firstChange := false;
              TChange.didChange := false |} ∧
  manualBatch mgr !! "now"
    = Some {| TChange.previousValue := VString "2";
              TChange.currentValue := VString "1";
              TChange.firstChange := false;
              TChange.didChange := true |} ∧
  manualBatch mgr !! "absent"
    = Some {| TChange.previousValue := VUndefined;
              TChange.currentValue := VUndefined;
              TChange.firstChange := false;
              TChange.didChange := false |}.
Proof.
  intros mgr.
  destruct (manual_run_batch_spec Scenario.quiet mgr None) as (Hlookup & _).
  rewrite !Hlookup. vm_compute. done.
Defined.

(** X10. Without the flag, the manual run throws a [TypeError] before
    any call as soon as the first registered group has no validator
    function, as is the case for every declaration given as a bare
    function. *)
Theorem executeCallbacks_first_group_needs_validator run mgr g cfg rest :
  callbacksByGroup (registry mgr) = (g, cfg) :: rest →
  isFunction (TCallbackConfig.validator cfg) = false →
  executeCallbacks run mgr None = throw TypeError ∧
  executeCallbacks run mgr (Some false) = throw TypeError.
Proof.
  intros Hgroups Hval.
  assert (∀ options, default false options = false →
            executeCallbacks run mgr options = throw TypeError) as Hthrow.
  { intros options Hopt. rewrite executeCallbacks_unfold, Hopt, Hgroups.
    destruct cfg as [cb val]. cbn [fold_left collectAll Map_get Map_set].
    cbn [from_option id Set_add].
    destruct (collectAll_head rest (canon cb) (canon val) [] [] 
                (fold_left (λ attributes attribute,
                              Set_add attribute attributes)
                           (split "|" g) []))
      as (vs' & tl' & attributes' & ->).
    cbn [fst forEach].
    assert (runHandler run false (manualBatch mgr)
              (canon cb, canon val :: vs') = throw TypeError) as ->.
    { unfold runHandler. rewrite validatorsApprove_cons.
      simpl in Hval. by destruct val as [| | |[[]| | |]| | |]. }
    done. }
  split; by apply Hthrow.
Qed.

Lemma executeCallbacks_first_group_needs_validator_witness :
  executeCallbacks Scenario.quiet (Scenario.built Scenario.testParams) None
    = throw TypeError ∧
  executeCallbacks Scenario.quiet (Scenario.built Scenario.testParams)
    (Some false) = throw TypeError.
Proof.
  apply (executeCallbacks_first_group_needs_validator Scenario.quiet
           (Scenario.built Scenario.testParams)
           "name" (TCallbackConfig.mk (VFunction 1) VNull)
           [("surname", TCallbackConfig.mk (VFunction 2) VNull)]).
  - vm_compute. reflexivity.
  - reflexivity.
Defined.

(** ** The order and the events of a dispatch *)

Lemma omap_fnOf_NoDup l : NoDup l → NoDup (omap fnOf l).
Proof.
  induction 1 as [|x l Hx _ IH]; [constructor|].
  cbn [omap list_omap]. destruct (fnOf x) as [f|] eqn:Hf; [|done].
  apply NoDup_cons. split; [|done].
  intros (y & Hy & Hfy)%list_elem_of_omap.
  destruct x, y; simplify_eq/=. done.
Qed.

Lemma reduce_collectGroup_key_order mgr b l acc agg :
  (∀ g cfg, (g, cfg) ∈ l →
            is_Some (Map_get g (propertiesByGroup (registry mgr)))) →
  reduce (collectGroup mgr b) l acc = mret agg →
  agg.*1 =
  acc.*1 ++
  filter (λ k, k ∉ acc.*1)
         (firstOccurrences
            (map (λ group : string * TCallbackConfig.t,
                    canon (TCallbackConfig.callback group.2))
                 (filter (λ group : string * TCallbackConfig.t,
                            groupTriggeredb (registry mgr) b group.1 = true)
                         l))).
Proof.
  revert acc. induction l as [|[g [cb val]] l IH]; intros acc Hreg.
  - intros [= <-]. simpl. by rewrite app_nil_r.
  - destruct (Hreg g (TCallbackConfig.mk cb val)) as [attrs Hattrs]; [left|].
    cbn [reduce]. rewrite (collectGroup_registered _ _ _ _ _ _ attrs) by done.
    rewrite ret_bind. intros Hred.
    assert (groupTriggeredb (registry mgr) b g = triggersb b attrs) as Hb.
    { unfold groupTriggeredb. by rewrite Hattrs. }
    rewrite (IH _ (λ g' cfg' Hin, Hreg g' cfg' (list_elem_of_further _ _ _ Hin))
               Hred).
    destruct (triggersb b attrs) eqn:Htrig.
    + rewrite filter_cons_True by done.
      cbn [map snd TCallbackConfig.callback].
      rewrite Map_set_fst. apply firstOccurrences_step.
    + rewrite filter_cons_False; [done|]. simpl. by rewrite Hb.
Qed.

Section DispatchOrder.
Context (run : FnId → ChangeBatch → outcome value).

Lemma validatorsApprove_events_elem vs b ev :
  ev ∈ trace (validatorsApprove run vs b) →
  ∃ f, ev = EvValidator f b ∧ VFunction f ∈ vs.
Proof.
  induction vs as [|v vs IH]; [by intros ?%elem_of_nil|].
  rewrite validatorsApprove_cons.
  destruct v as [| | | | | |f]; simpl; try (by intros ?%elem_of_nil).
  assert (ev = EvValidator f b → ∃ f0, ev = EvValidator f0 b ∧
                                       VFunction f0 ∈ VFunction f :: vs)
    as Hhead by (intros ->; exists f; split; [done|left]).
  destruct (run f b) as [r|e]; simpl.
  - destruct (truthy r); simpl.
    + intros [?|Hev]%elem_of_cons; [by apply Hhead|].
      destruct (IH Hev) as (f0 & ? & ?). exists f0. split; [done|by right].
    + intros ?%list_elem_of_singleton. by apply Hhead.
  - intros ?%list_elem_of_singleton. by apply Hhead.
Qed.

Lemma dispatchHandler_events b k vs ev :
  ev ∈ trace (dispatchHandler run b (k, vs)) →
  (∃ f, ev = EvValidator f b ∧ VFunction f ∈ vs) ∨
  (∃ f, ev = EvHandler f b ∧ k = VFunction f).
Proof.
  rewrite dispatchHandler_unfold.
  destruct (result (validatorsApprove run vs b)) as [[]|e]; simpl;
    try (intros ?; left; by apply validatorsApprove_events_elem).
  destruct k as [| | | | | |f]; simpl;
    try (intros ?; left; by apply validatorsApprove_events_elem).
  intros [?|Hev]%elem_of_app;
    [left; by apply validatorsApprove_events_elem|].
  apply list_elem_of_singleton in Hev as ->. right. by exists f.
Qed.

Lemma dispatchHandler_handlersCalled b k vs :
  handlersCalled (trace (dispatchHandler run b (k, vs))) =
  match result (validatorsApprove run vs b), fnOf k with
  | Returns true, Some f => [f]
  | _, _ => []
  end.
Proof.
  rewrite dispatchHandler_unfold.
  pose proof (validatorsApprove_trace run vs b) as (Hh & _ & _).
  destruct (result (validatorsApprove run vs b)) as [[]|e]; simpl;
    [|by destruct (fnOf k)..].
  destruct k as [| | | | | |f]; simpl; try done.
  by rewrite handlersCalled_app, Hh.
Qed.

Lemma forEach_dispatch_sublist b l :
  handlersCalled (trace (forEach (dispatchHandler run b) l))
    `sublist_of` omap fnOf l.*1.
Proof.
  induction l as [|[k vs] l IH]; [done|].
  rewrite forEach_cons_trace, handlersCalled_app.
  rewrite dispatchHandler_handlersCalled. rewrite fmap_cons.
  cbn [fst omap list_omap].
  assert (match result (dispatchHandler run b (k, vs)) with
          | Returns _ =>
              handlersCalled (trace (forEach (dispatchHandler run b) l))
          | Throws _ => handlersCalled []
          end `sublist_of` omap fnOf l.*1) as Hrest.
  { destruct (result (dispatchHandler run b (k, vs)));
      [done|apply sublist_nil_l]. }
  assert (handlersCalled
            match result (dispatchHandler run b (k, vs)) with
            | Returns _ => trace (forEach (dispatchHandler run b) l)
            | Throws _ => []
            end `sublist_of` omap fnOf l.*1) as Hrest'.
  { by destruct (result (dispatchHandler run b (k, vs))). }
  destruct (result (validatorsApprove run vs b)) as [[]|e];
    destruct (fnOf k) as [f|]; simpl;
    by (try apply sublist_skip; try apply sublist_cons).
Qed.

Lemma forEach_dispatch_all b l :
  result (forEach (dispatchHandler run b) l) = Returns tt →
  Forall (λ entry, result (validatorsApprove run entry.2 b) = Returns true)
         l →
  handlersCalled (trace (forEach (dispatchHandler run b) l))
    = omap fnOf l.*1.
Proof.
  induction l as [|[k vs] l IH]; [done|].
  intros [Hx Hl]%forEach_cons_result [Hv Hvs]%Forall_cons.
  rewrite forEach_cons_trace, Hx, handlersCalled_app.
  rewrite dispatchHandler_handlersCalled. simpl in Hv. rewrite Hv.
  destruct (dispatchHandler_returns run b k vs Hx Hv) as (f & r & -> & _).
  rewrite fmap_cons. cbn [fst omap list_omap fnOf]. simpl.
  by rewrite IH.
Qed.
End DispatchOrder.

(** X11. A dispatch runs the handlers of the triggered groups in the
    order in which those handlers were first registered among the
    triggered groups: the handlers called form a subsequence of that
    list, none called twice, and the whole list when the dispatch
    completes and the validators gathered for every handler approve. *)
Theorem dispatch_follows_registration_order run mgr changesSummary :
  consistent (registry mgr) →
  let tr := trace (executeChangesCallbacks run mgr changesSummary) in
  let handlers :=
    firstOccurrences (triggeredHandlers (registry mgr) changesSummary) in
  (∃ callbacks,
     getCallbacksWhichShouldBeExecuted mgr changesSummary = mret callbacks ∧
     callbacks.*1 = handlers) ∧
  handlersCalled tr `sublist_of` omap fnOf handlers ∧
  NoDup (handlersCalled tr) ∧
  (result (executeChangesCallbacks run mgr changesSummary) = Returns tt →
   (∀ k, k ∈ handlers →
         validatorsOfHandlerApprove run (registry mgr) changesSummary k) →
   handlersCalled tr = omap fnOf handlers).
Proof.
  intros Hcons tr handlers.
  destruct (getCallbacksWhichShouldBeExecuted_spec mgr changesSummary Hcons)
    as (agg & Hagg & Hnd & Hkeys & Hvals).
  assert (agg.*1 = handlers) as Horder.
  { rewrite (reduce_collectGroup_key_order mgr changesSummary
               (callbacksByGroup (registry mgr)) [] agg); [|done|done].
    simpl. apply filter_all_true. intros k _. by intros ?%elem_of_nil. }
  assert (handlersCalled tr
          = handlersCalled
              (trace (forEach (dispatchHandler run changesSummary) agg)))
    as Hcalled.
  { unfold tr. rewrite (executeChangesCallbacks_unfold run _ _ agg) by done.
    simpl. rewrite handlersCalled_app.
    destruct (result (forEach _ agg)); simpl; by rewrite app_nil_r. }
  assert (handlersCalled tr `sublist_of` omap fnOf handlers) as Hsub.
  { rewrite Hcalled, <- Horder. apply forEach_dispatch_sublist. }
  split; [by exists agg|]. split; [done|]. split.
  - eapply sublist_NoDup; [|done].
    apply omap_fnOf_NoDup, firstOccurrences_NoDup.
  - rewrite (executeChangesCallbacks_unfold run _ _ agg) by done. simpl.
    intros Hret Happrove. rewrite Hcalled, <- Horder.
    apply forEach_dispatch_all; [done|].
    apply Forall_forall. intros [k vs] Hin. simpl.
    assert (k ∈ agg.*1) as Hk.
    { apply list_elem_of_fmap. by exists (k, vs). }
    apply (gathered_validators_approve run mgr changesSummary k vs).
    + intros v. by apply Hvals.
    + apply Hkeys in Hk as (g & cfg & _ & _ & <-). apply canon_idemp.
    + apply Happrove. by rewrite <- Horder.
Qed.

Lemma dispatch_follows_registration_order_witness :
  handlersCalled
    (trace (executeChangesCallbacks Scenario.verdicts
              (Scenario.built Scenario.overlappingParams)
              (getChangesSummary Scenario.bChanged)))
    `sublist_of` [1; 4; 6].
Proof.
  destruct (dispatch_follows_registration_order Scenario.verdicts
              (Scenario.built Scenario.overlappingParams)
              (getChangesSummary Scenario.bChanged)) as (_ & Hsub & _).
  - apply built_consistent. eexists. vm_compute. reflexivity.
  - exact Hsub.
Defined.

(** X12. Every call of a dispatch receives the batch of the cycle, and
    goes to the validator or to the handler of a registered group that
    the batch triggers: the validator of a group that is not triggered
    is never consulted, and its handler never runs on its account. The
    only other event is the re-render signal. *)
Theorem dispatch_calls_only_triggered_groups run mgr changesSummary ev :
  consistent (registry mgr) →
  ev ∈ trace (executeChangesCallbacks run mgr changesSummary) →
  ev = EvDetectChanges ∨
  ∃ f g cfg,
    (g, cfg) ∈ callbacksByGroup (registry mgr) ∧
    groupTriggered (registry mgr) changesSummary g ∧
    ((ev = EvValidator f changesSummary ∧
      TCallbackConfig.validator cfg = VFunction f) ∨
     (ev = EvHandler f changesSummary ∧
      TCallbackConfig.callback cfg = VFunction f)).
Proof.
  intros Hcons.
  destruct (getCallbacksWhichShouldBeExecuted_spec mgr changesSummary Hcons)
    as (agg & Hagg & Hnd & Hkeys & Hvals).
  rewrite (executeChangesCallbacks_unfold run _ _ agg) by done. simpl.
  intros [Hev|Hev]%elem_of_app.
  - right. apply forEach_trace_elem in Hev as ([k vs] & Hin & Hev).
    apply dispatchHandler_events in Hev as [(f & -> & Hf)|(f & -> & ->)].
    + apply (Hvals k vs _ Hin) in Hf as (g & cfg & ? & ? & _ & _ & ?).
      exists f, g, cfg. split; [done|]. split; [done|]. by left.
    + assert (VFunction f ∈ agg.*1) as Hk.
      { apply list_elem_of_fmap. by exists (VFunction f, vs). }
      apply Hkeys in Hk as (g & cfg & ? & ? & Hcb).
      rewrite canon_function in Hcb.
      exists f, g, cfg. split; [done|]. split; [done|]. by right.
  - left. destruct (result (forEach _ agg));
      [by apply list_elem_of_singleton in Hev|by apply elem_of_nil in Hev].
Qed.

Lemma dispatch_calls_only_triggered_groups_witness :
  EvHandler 1 (getChangesSummary Scenario.surnameChanged) = EvDetectChanges ∨
  ∃ f g cfg,
    (g, cfg) ∈ callbacksByGroup
                 (registry (Scenario.built Scenario.fullNameParams)) ∧
    groupTriggered (registry (Scenario.built Scenario.fullNameParams))
      (getChangesSummary Scenario.surnameChanged) g ∧
    ((EvHandler 1 (getChangesSummary Scenario.surnameChanged)
        = EvValidator f (getChangesSummary Scenario.surnameChanged) ∧
      TCallbackConfig.validator cfg = VFunction f) ∨
     (EvHandler 1 (getChangesSummary Scenario.surnameChanged)
        = EvHandler f (getChangesSummary Scenario.surnameChanged) ∧
      TCallbackConfig.callback cfg = VFunction f)).
Proof.
  apply (dispatch_calls_only_triggered_groups Scenario.quiet
           (Scenario.built Scenario.fullNameParams)).
  - apply built_consistent. eexists. vm_compute. reflexivity.
  - vm_compute. left.
Defined.

(** ** The [onChanges] hook and the re-render of a cycle *)

(** X13. In a cycle that is processed and whose dispatch completes, the
    [onChanges] hook is called once, after the handlers and after the
    re-render signal, with the batch of the cycle, and the cycle
    returns the batch when the hook returns; an exception of the hook
    is the exception of the cycle; without a hook nothing more happens;
    a hook that is neither absent nor a function makes the cycle throw
    a [TypeError] after the re-render. *)
Theorem onChanges_hook_runs_last run mgr simpleChanges :
  let changesSummary := getChangesSummary simpleChanges in
  cycleProcessed mgr simpleChanges = true →
  result (executeChangesCallbacks run mgr changesSummary) = Returns tt →
  trace (_manageChanges run mgr simpleChanges)
    = trace (executeChangesCallbacks run mgr changesSummary) ++
      match onChanges mgr with
      | VFunction f => [EvOnChanges f changesSummary]
      | _ => []
      end ∧
  result (_manageChanges run mgr simpleChanges)
    = match onChanges mgr with
      | VUndefined | VNull => Returns changesSummary
      | VFunction f =>
          match run f changesSummary with
          | Returns _ => Returns changesSummary
          | Throws e => Throws e
          end
      | _ => Throws TypeError
      end.
Proof.
  intros b Hproc Hret. rewrite _manageChanges_unfold, Hproc.
  rewrite (bind_returns _ _ tt) by done. fold b.
  unfold callOnChanges, call.
  destruct (onChanges mgr) as [| | | | | |f]; simpl;
    try (by rewrite ?app_nil_r).
  unfold mbind at 1 2, M_bind at 1 2. simpl.
  destruct (run f b); simpl; by rewrite ?app_nil_r.
Qed.

Lemma onChanges_hook_runs_last_witness :
  trace (_manageChanges Scenario.quiet (Scenario.built hookedParams)
           Scenario.surnameChanged)
    = [EvHandler 1 (getChangesSummary Scenario.surnameChanged);
       EvDetectChanges;
       EvOnChanges 7 (getChangesSummary Scenario.surnameChanged)] ∧
  result (_manageChanges Scenario.quiet (Scenario.built hookedParams)
            Scenario.surnameChanged)
    = Returns (getChangesSummary Scenario.surnameChanged).
Proof.
  destruct (onChanges_hook_runs_last Scenario.quiet
              (Scenario.built hookedParams) Scenario.surnameChanged)
    as [Htr Hres].
  - reflexivity.
  - vm_compute. reflexivity.
  - split; [rewrite Htr; vm_compute; reflexivity|exact Hres].
Defined.

(** X14. A cycle gives the re-render signal at most once: once when it
    is processed and its dispatch completes, never otherwise. A cycle
    is left unprocessed exactly in strict mode when no property of it
    changed, and then nothing at all is called; so in strict mode the
    first cycle of a component, whose records are all first changes,
    is silent. *)
Theorem cycle_rerenders_at_most_once run mgr simpleChanges :
  consistent (registry mgr) →
  let changesSummary := getChangesSummary simpleChanges in
  let tr := trace (_manageChanges run mgr simpleChanges) in
  (cycleProcessed mgr simpleChanges = false ↔
   strict mgr = true ∧ nothingChanged simpleChanges) ∧
  (cycleProcessed mgr simpleChanges = false → tr = []) ∧
  detectChangesCount tr =
    (if cycleProcessed mgr simpleChanges
     then match result (executeChangesCallbacks run mgr changesSummary) with
          | Returns _ => 1
          | Throws _ => 0
          end
     else 0) ∧
  (strict mgr = true →
   (∀ property c, simpleChanges !! property = Some c →
                  SimpleChange.firstChange c = true) →
   _manageChanges run mgr simpleChanges = mret changesSummary).
Proof.
  intros Hcons b tr. subst b tr.
  assert (cycleProcessed mgr simpleChanges = false ↔
          strict mgr = true ∧ nothingChanged simpleChanges) as Hiff.
  { rewrite nothingChanged_spec. unfold cycleProcessed.
    rewrite orb_false_iff, negb_false_iff. done. }
  assert (cycleProcessed mgr simpleChanges = false →
          _manageChanges run mgr simpleChanges
          = mret (getChangesSummary simpleChanges)) as Hskip.
  { intros Hproc. by rewrite _manageChanges_unfold, Hproc. }
  split; [done|]. split; [|split].
  - intros Hproc. by rewrite Hskip.
  - destruct (cycleProcessed mgr simpleChanges) eqn:Hproc.
    + destruct (_manageChanges_processed run mgr simpleChanges Hproc)
        as (hook & Htr & _ & Hhook & _).
      rewrite Htr, detectChangesCount_app, Hhook.
      destruct (dispatch_detectChanges run mgr
                  (getChangesSummary simpleChanges) Hcons) as [-> _].
      lia.
    + by rewrite Hskip.
  - intros Hstrict Hfirst. apply Hskip, Hiff. split; [done|].
    intros property c Hc. rewrite didPropertyChange_Some.
    by rewrite (Hfirst property c Hc).
Qed.

Lemma cycle_rerenders_at_most_once_witness :
  detectChangesCount
    (trace (_manageChanges Scenario.quiet
              (Scenario.built Scenario.fullNameParams)
              Scenario.surnameChanged)) = 1.
Proof.
  destruct (cycle_rerenders_at_most_once Scenario.quiet
              (Scenario.built Scenario.fullNameParams)
              Scenario.surnameChanged) as (_ & _ & Hcount & _).
  - apply built_consistent. eexists. vm_compute. reflexivity.
  - rewrite Hcount. vm_compute. reflexivity.
Defined.

(** * The first version of the class *)

Lemma NoDup_fmap_filter {A B} (f : A → B) (P : A → Prop)
    `{∀ x, Decision (P x)} (l : list A) :
  NoDup (f <$> l) → NoDup (f <$> filter P l).
Proof.
  induction l as [|x l IH]; [done|]. rewrite fmap_cons.
  intros [Hx Hl]%NoDup_cons. destruct (decide (P x)).
  - rewrite filter_cons_True by done. rewrite fmap_cons.
    apply NoDup_cons. split; [|by apply IH].
    intros (y & Hy & [_ Hin]%list_elem_of_filter)%list_elem_of_fmap.
    apply Hx, list_elem_of_fmap. by exists y.
  - rewrite filter_cons_False by done. by apply IH.
Qed.

Lemma prefix_elem_of {A} (l1 l2 : list A) x :
  l1 `prefix_of` l2 → x ∈ l1 → x ∈ l2.
Proof. intros [k ->] ?. apply elem_of_app. by left. Qed.

Section V1Facts.
Context (run : FnId → ChangeBatch → outcome value).

Lemma V1_shouldIncludeGroup_registered mgr b g attrs :
  Map_get g (propertiesByGroup (V1.registry mgr)) = Some attrs →
  V1.shouldIncludeGroup mgr b g = mret (triggersb b attrs).
Proof.
  unfold V1.shouldIncludeGroup, triggersb. intros ->.
  induction (map_to_list b) as [|[p c] l IH]; simpl; [done|].
  unfold M_bind. simpl.
  destruct (TChange.didChange c && bool_decide (p ∈ attrs)); [done|].
  by rewrite IH.
Qed.

Lemma V1_getCallbacksWhichShouldBeExecuted_spec mgr b :
  consistent (V1.registry mgr) →
  V1.getCallbacksWhichShouldBeExecuted mgr b =
  mret (filter (λ group : string * TCallbackConfig.t,
                  groupTriggeredb (V1.registry mgr) b group.1 = true)
               (callbacksByGroup (V1.registry mgr))).
Proof.
  unfold consistent, V1.getCallbacksWhichShouldBeExecuted.
  induction (callbacksByGroup (V1.registry mgr)) as [|[g cfg] l IH];
    intros Hreg; cbn [Array_filter]; [done|].
  destruct (Hreg g cfg) as [attrs Hattrs]; [left|].
  rewrite (V1_shouldIncludeGroup_registered _ _ _ attrs) by done.
  rewrite ret_bind, IH, ret_bind
    by (intros g' cfg' Hin; apply (Hreg g' cfg'); by right).
  assert (groupTriggeredb (V1.registry mgr) b g = triggersb b attrs) as Hb.
  { unfold groupTriggeredb. by rewrite Hattrs. }
  destruct (triggersb b attrs) eqn:Htrig.
  - by rewrite filter_cons_True.
  - rewrite filter_cons_False; [done|]. simpl. by rewrite Hb.
Qed.

(** One group of a dispatch: its timer is started exactly when its own
    validator approves, and nothing but that validator is called. *)
Lemma V1_dispatchGroup_spec b ts g cfg :
  (V1.dispatchGroup run b ts (g, cfg)).1
    = (if V1.ownVerdict run b cfg
       then V1.debounced g (TCallbackConfig.callback cfg) b ts else ts) ∧
  handlersCalled (trace (V1.dispatchGroup run b ts (g, cfg)).2) = [] ∧
  detectChangesCount (trace (V1.dispatchGroup run b ts (g, cfg)).2) = 0 ∧
  (∀ ev, ev ∈ trace (V1.dispatchGroup run b ts (g, cfg)).2 →
         ∃ f, ev = EvValidator f b ∧
              TCallbackConfig.validator cfg = VFunction f) ∧
  (result (V1.dispatchGroup run b ts (g, cfg)).2 = Returns tt ∨
   V1.ownVerdict run b cfg = false).
Proof.
  destruct cfg as [cb val].
  unfold V1.dispatchGroup, V1.shouldExecuteCallback, V1.ownVerdict.
  cbn [TCallbackConfig.validator TCallbackConfig.callback].
  destruct (truthy val) eqn:Hval.
  - destruct val as [| | | | | |f]; simpl;
      try (repeat split; try done; try (by intros ? ?%elem_of_nil);
           by right).
    unfold mbind, M_bind. simpl. destruct (run f b) as [r|e]; simpl.
    + destruct (truthy r); simpl;
        (repeat split; try done; [|by left]);
        intros ev ->%list_elem_of_singleton; by exists f.
    + repeat split; try done; [|by right].
      intros ev ->%list_elem_of_singleton. by exists f.
  - simpl. repeat split; try done; [by intros ? ?%elem_of_nil|by left].
Qed.

Lemma V1_debounced_filter g cb b ts (keys : list string) :
  g ∉ keys →
  filter (λ timer, V1.owner timer ∉ keys) (V1.debounced g cb b ts)
  = filter (λ timer, V1.owner timer ∉ g :: keys) ts ++ [V1.mkTimer g cb b].
Proof.
  intros Hg. unfold V1.debounced. rewrite filter_app. f_equal.
  - rewrite list_filter_filter. apply list_filter_iff.
    intros timer. rewrite not_elem_of_cons. tauto.
  - by rewrite filter_cons_True, filter_nil.
Qed.

(** The timers after the groups of a dispatch: those of the groups
    whose validator approved are started anew, in order, after the
    timers that were pending for other groups. When a validator throws,
    the groups after it are not reached. *)
Lemma V1_forEachS_dispatch b l ts :
  NoDup l.*1 →
  ∃ ran,
    ran `prefix_of` l ∧
    (forEachS (V1.dispatchGroup run b) l ts).1
      = filter (λ timer,
                  V1.owner timer ∉
                    (filter (λ group : string * TCallbackConfig.t,
                               V1.ownVerdict run b group.2 = true) ran).*1)
               ts ++
        map (V1.timerOf b)
            (filter (λ group : string * TCallbackConfig.t,
                       V1.ownVerdict run b group.2 = true) ran) ∧
    (result (forEachS (V1.dispatchGroup run b) l ts).2 = Returns tt →
     ran = l) ∧
    handlersCalled (trace (forEachS (V1.dispatchGroup run b) l ts).2) = [] ∧
    detectChangesCount (trace (forEachS (V1.dispatchGroup run b) l ts).2)
      = 0 ∧
    (∀ ev, ev ∈ trace (forEachS (V1.dispatchGroup run b) l ts).2 →
           ∃ f g cfg, (g, cfg) ∈ l ∧ ev = EvValidator f b ∧
                      TCallbackConfig.validator cfg = VFunction f).
Proof.
  revert ts. induction l as [|[g cfg] l IH]; intros ts Hnd.
  { exists []. simpl. rewrite app_nil_r.
    rewrite filter_all_true by (intros ? _; by intros ?%elem_of_nil).
    repeat split; try done. by intros ? ?%elem_of_nil. }
  rewrite fmap_cons in Hnd. apply NoDup_cons in Hnd as [Hg Hnd].
  destruct (V1_dispatchGroup_spec b ts g cfg)
    as (Hst & Hh & Hd & Hev & Hres).
  cbn [forEachS].
  destruct (V1.dispatchGroup run b ts (g, cfg)) as [s1 m1] eqn:Hstep.
  cbn [fst snd] in *.
  assert (∀ ran : list (string * TCallbackConfig.t),
            ran `prefix_of` l →
            g ∉ (filter (λ group : string * TCallbackConfig.t,
                           V1.ownVerdict run b group.2 = true) ran).*1)
    as Hfresh.
  { intros ran Hran Hin. apply Hg.
    apply list_elem_of_fmap in Hin as (group & -> & [_ Hin]%list_elem_of_filter).
    apply list_elem_of_fmap. exists group. split; [done|].
    by eapply prefix_elem_of. }
  destruct (result m1) as [[]|e] eqn:Hm1.
  - destruct (IH s1 Hnd) as (ran & Hran & Hts & Hall & Hh' & Hd' & Hev').
    destruct (forEachS (V1.dispatchGroup run b) l s1) as [s2 m2].
    cbn [fst snd] in *. exists ((g, cfg) :: ran).
    split; [by apply prefix_cons|]. split; [|split; [|split; [|split]]].
    + rewrite Hts, Hst. destruct (V1.ownVerdict run b cfg) eqn:Hv.
      * rewrite filter_cons_True by done. rewrite fmap_cons. cbn [fst map].
        rewrite V1_debounced_filter by (by apply Hfresh).
        by rewrite <- (assoc_L (++)).
      * by rewrite filter_cons_False by (simpl; by rewrite Hv).
    + rewrite (bind_returns _ _ tt) by done. cbn [result].
      intros Hret. by rewrite (Hall Hret).
    + rewrite (bind_returns _ _ tt) by done. cbn [trace].
      by rewrite handlersCalled_app, Hh, Hh'.
    + rewrite (bind_returns _ _ tt) by done. cbn [trace].
      by rewrite detectChangesCount_app, Hd, Hd'.
    + rewrite (bind_returns _ _ tt) by done. cbn [trace].
      intros ev [Hin|Hin]%elem_of_app.
      * destruct (Hev ev Hin) as (f & ? & ?). exists f, g, cfg.
        split; [left|done].
      * destruct (Hev' ev Hin) as (f & g' & cfg' & ? & ?).
        exists f, g', cfg'. split; [by right|done].
  - destruct Hres as [?|Hv]; [done|]. exists []. cbn [fst snd].
    split; [apply prefix_nil|]. rewrite Hst, Hv. simpl. rewrite app_nil_r.
    rewrite filter_all_true by (intros ? _; by intros ?%elem_of_nil).
    rewrite Hm1. repeat split; try done.
    intros ev Hin. destruct (Hev ev Hin) as (f & ? & ?). exists f, g, cfg.
    split; [left|done].
Qed.
End V1Facts.

Lemma groupTriggeredb_spec reg b g :
  groupTriggeredb reg b g = true ↔ groupTriggered reg b g.
Proof.
  unfold groupTriggeredb.
  destruct (Map_get g (propertiesByGroup reg)) as [attrs|] eqn:Hg.
  - by rewrite (groupTriggered_registered _ _ _ attrs).
  - split; [done|]. intros (attrs & ? & _). congruence.
Qed.

Section V1Dispatch.
Context (run : FnId → ChangeBatch → outcome value).

(** A dispatch of the first version, whether it completes or not. *)
Lemma V1_executeChangesCallbacks_spec mgr b :
  registryInvariant (V1.registry mgr) →
  ∃ ran,
    ran `prefix_of`
      filter (λ group : string * TCallbackConfig.t,
                groupTriggeredb (V1.registry mgr) b group.1 = true)
             (callbacksByGroup (V1.registry mgr)) ∧
    V1.timers (V1.executeChangesCallbacks run mgr b).1
      = filter (λ timer,
                  V1.owner timer ∉
                    (filter (λ group : string * TCallbackConfig.t,
                               V1.ownVerdict run b group.2 = true) ran).*1)
               (V1.timers mgr) ++
        map (V1.timerOf b)
            (filter (λ group : string * TCallbackConfig.t,
                       V1.ownVerdict run b group.2 = true) ran) ∧
    V1.registry (V1.executeChangesCallbacks run mgr b).1 = V1.registry mgr ∧
    (result (V1.executeChangesCallbacks run mgr b).2 = Returns tt →
     ran = filter (λ group : string * TCallbackConfig.t,
                     groupTriggeredb (V1.registry mgr) b group.1 = true)
                  (callbacksByGroup (V1.registry mgr))) ∧
    handlersCalled (trace (V1.executeChangesCallbacks run mgr b).2) = [] ∧
    detectChangesCount (trace (V1.executeChangesCallbacks run mgr b).2)
      = match result (V1.executeChangesCallbacks run mgr b).2 with
        | Returns _ => 1
        | Throws _ => 0
        end ∧
    (∀ ev, ev ∈ trace (V1.executeChangesCallbacks run mgr b).2 →
           ev = EvDetectChanges ∨
           ∃ f g cfg,
             (g, cfg) ∈ callbacksByGroup (V1.registry mgr) ∧
             groupTriggered (V1.registry mgr) b g ∧
             ev = EvValidator f b ∧
             TCallbackConfig.validator cfg = VFunction f).
Proof.
  intros Hinv. pose proof (registryInvariant_consistent _ Hinv) as Hcons.
  destruct Hinv as [_ Hnd].
  unfold V1.executeChangesCallbacks.
  rewrite (V1_getCallbacksWhichShouldBeExecuted_spec mgr b Hcons).
  cbn [result mret M_ret].
  set (groups := filter _ (callbacksByGroup (V1.registry mgr))).
  destruct (V1_forEachS_dispatch run b groups (V1.timers mgr))
    as (ran & Hran & Hts & Hall & Hh & Hd & Hev);
    [by apply NoDup_fmap_filter|].
  destruct (forEachS (V1.dispatchGroup run b) groups (V1.timers mgr))
    as [ts m]. cbn [fst snd] in *.
  exists ran. rewrite ret_bind. split; [done|]. split; [done|].
  split; [done|].
  assert (∀ ev, ev ∈ trace m →
            ∃ f g cfg,
              (g, cfg) ∈ callbacksByGroup (V1.registry mgr) ∧
              groupTriggered (V1.registry mgr) b g ∧
              ev = EvValidator f b ∧
              TCallbackConfig.validator cfg = VFunction f) as Hev'.
  { intros ev Hin. destruct (Hev ev Hin) as (f & g & cfg & Hg & ? & ?).
    apply list_elem_of_filter in Hg as [Htrig Hg]. simpl in Htrig.
    exists f, g, cfg. split; [done|]. split; [|done].
    by apply groupTriggeredb_spec. }
  unfold mbind, M_bind, detectChanges, emit.
  destruct (result m) as [[]|e]; cbn [trace result].
  - rewrite handlersCalled_app, detectChangesCount_app, Hh, Hd.
    split; [done|]. split; [done|]. split; [done|].
    intros ev [Hin|Hin]%elem_of_app; [right; by apply Hev'|left].
    by apply list_elem_of_singleton in Hin.
  - split; [done|]. split; [done|]. split; [done|].
    intros ev Hin. right. by apply Hev'.
Qed.

Lemma V1_timeout_trace timer :
  trace (V1.timeout run timer)
  = match V1.callback timer with
    | VFunction f => [EvHandler f (V1.args timer)]
    | _ => []
    end.
Proof.
  unfold V1.timeout, call. destruct (V1.callback timer) as [| | | | | |f];
    try done.
  unfold mbind, M_bind. cbn [result trace].
  destruct (run f (V1.args timer)); cbn [trace]; by rewrite ?app_nil_r.
Qed.

Lemma V1_timeout_timerOf b group :
  trace (V1.timeout run (V1.timerOf b group))
  = match TCallbackConfig.callback group.2 with
    | VFunction f => [EvHandler f b]
    | _ => []
    end.
Proof. apply V1_timeout_trace. Qed.

Lemma V1_timeouts_trace b groups :
  handlersCalled
    (concat (map trace (map (V1.timeout run) (map (V1.timerOf b) groups))))
  = omap (λ group : string * TCallbackConfig.t,
            fnOf (TCallbackConfig.callback group.2)) groups ∧
  ∀ h,
    handlerCalls h
      (concat (map trace (map (V1.timeout run) (map (V1.timerOf b) groups))))
    = replicate
        (length (filter (λ group : string * TCallbackConfig.t,
                           TCallbackConfig.callback group.2 = VFunction h)
                        groups)) b.
Proof.
  induction groups as [|[g [cb val]] groups [IHc IHh]]; [done|].
  cbn [map concat]. rewrite V1_timeout_timerOf.
  cbn [snd TCallbackConfig.callback]. split.
  - rewrite handlersCalled_app, IHc. cbn [omap list_omap snd].
    cbn [TCallbackConfig.callback].
    by destruct cb as [| | | | | |f].
  - intros h. rewrite handlerCalls_app, IHh.
    destruct (decide (cb = VFunction h)) as [->|Hne].
    + rewrite filter_cons_True by done. simpl.
      by rewrite decide_True.
    + rewrite filter_cons_False by done.
      destruct cb as [| | | | | |f]; simpl; try done.
      by rewrite decide_False by (intros ->; done).
Qed.
End V1Dispatch.

(** X15. In the first version of the class a dispatch that completes
    calls no handler: for every group that the batch triggers and
    whose own validator approves, in registration order, it starts the
    timer of that group with the batch, replacing a timer still pending
    for the group and leaving the timers of the other groups pending
    ahead of the new ones; then it gives the re-render signal, once.
    Only a group's own validator decides for the group. *)
Theorem V1_dispatch_starts_timer_per_group run mgr changesSummary :
  registryInvariant (V1.registry mgr) →
  result (V1.executeChangesCallbacks run mgr changesSummary).2 = Returns tt →
  let groups := V1.scheduled run (V1.registry mgr) changesSummary in
  V1.timers (V1.executeChangesCallbacks run mgr changesSummary).1
    = filter (λ timer, V1.owner timer ∉ groups.*1) (V1.timers mgr) ++
      map (V1.timerOf changesSummary) groups ∧
  handlersCalled
    (trace (V1.executeChangesCallbacks run mgr changesSummary).2) = [] ∧
  detectChangesCount
    (trace (V1.executeChangesCallbacks run mgr changesSummary).2) = 1.
Proof.
  intros Hinv Hret groups.
  destruct (V1_executeChangesCallbacks_spec run mgr changesSummary Hinv)
    as (ran & _ & Hts & _ & Hall & Hh & Hd & _).
  rewrite (Hall Hret) in Hts. rewrite Hret in Hd. done.
Qed.

Lemma V1_dispatch_starts_timer_per_group_witness :
  V1.timers
    (V1.executeChangesCallbacks Scenario.verdicts V1.overlapping
       (getChangesSummary Scenario.bChanged)).1
    = [V1.mkTimer "a|b" (VFunction 1) (getChangesSummary Scenario.bChanged);
       V1.mkTimer "b|c" (VFunction 1) (getChangesSummary Scenario.bChanged);
       V1.mkTimer "b|d" (VFunction 6) (getChangesSummary Scenario.bChanged)].
Proof.
  destruct (V1_dispatch_starts_timer_per_group Scenario.verdicts
              V1.overlapping (getChangesSummary Scenario.bChanged))
    as (Hts & _).
  - apply (setCallbacksConfig_invariant
             (p_callbacks Scenario.overlappingParams)).
    vm_compute. reflexivity.
  - vm_compute. reflexivity.
  - rewrite Hts. vm_compute. reflexivity.
Defined.

(** X16. In the first version, when the timers started by a dispatch
    fire, the handlers run in the registration order of their groups,
    once for each group that was scheduled: a handler shared by several
    scheduled groups is called once per group, every time with the
    batch of the cycle. *)
Theorem V1_shared_handler_runs_once_per_group run mgr changesSummary h :
  registryInvariant (V1.registry mgr) →
  V1.timers mgr = [] →
  result (V1.executeChangesCallbacks run mgr changesSummary).2 = Returns tt →
  let groups := V1.scheduled run (V1.registry mgr) changesSummary in
  let fired :=
    (V1.timeouts run
       (V1.executeChangesCallbacks run mgr changesSummary).1).2 in
  handlersCalled (concat (map trace fired))
    = omap (λ group : string * TCallbackConfig.t,
              fnOf (TCallbackConfig.callback group.2)) groups ∧
  handlerCalls h (concat (map trace fired))
    = replicate
        (length (filter (λ group : string * TCallbackConfig.t,
                           TCallbackConfig.callback group.2 = VFunction h)
                        groups))
        changesSummary.
Proof.
  intros Hinv Hnone Hret groups fired. unfold fired, V1.timeouts.
  cbn [snd].
  destruct (V1_executeChangesCallbacks_spec run mgr changesSummary Hinv)
    as (ran & _ & -> & _ & Hall & _).
  rewrite (Hall Hret), Hnone. rewrite filter_nil, app_nil_l.
  destruct (V1_timeouts_trace run changesSummary groups) as [Hc Hh].
  split; [exact Hc|apply Hh].
Qed.

Lemma V1_shared_handler_runs_once_per_group_witness :
  handlerCalls 1
    (concat
       (map trace
          (V1.timeouts Scenario.verdicts
             (V1.executeChangesCallbacks Scenario.verdicts V1.overlapping
                (getChangesSummary Scenario.bChanged)).1).2))
    = [getChangesSummary Scenario.bChanged;
       getChangesSummary Scenario.bChanged].
Proof.
  destruct (V1_shared_handler_runs_once_per_group Scenario.verdicts
              V1.overlapping (getChangesSummary Scenario.bChanged) 1)
    as (_ & Hcalls).
  - apply (setCallbacksConfig_invariant
             (p_callbacks Scenario.overlappingParams)).
    vm_compute. reflexivity.
  - reflexivity.
  - vm_compute. reflexivity.
  - rewrite Hcalls. vm_compute. reflexivity.
Defined.

(** X17. In the first version a group never has two timers pending,
    whatever the dispatches did and even when a validator threw: every
    timer pending after a dispatch either was pending before it, or was
    started by it for a registered group that the batch triggers, with
    the handler of the group and the batch; and a group scheduled by a
    dispatch that completes has the timer of that dispatch only, so the
    batch of an earlier cycle still waiting for that group is dropped. *)
Theorem V1_at_most_one_timer_per_group run mgr changesSummary :
  registryInvariant (V1.registry mgr) →
  NoDup (V1.owner <$> V1.timers mgr) →
  let out := V1.executeChangesCallbacks run mgr changesSummary in
  NoDup (V1.owner <$> V1.timers out.1) ∧
  (∀ timer, timer ∈ V1.timers out.1 →
     timer ∈ V1.timers mgr ∨
     ∃ cfg, (V1.owner timer, cfg) ∈ callbacksByGroup (V1.registry mgr) ∧
            groupTriggered (V1.registry mgr) changesSummary
              (V1.owner timer) ∧
            timer = V1.timerOf changesSummary (V1.owner timer, cfg)) ∧
  (result out.2 = Returns tt →
   ∀ group timer,
     group ∈ V1.scheduled run (V1.registry mgr) changesSummary →
     timer ∈ V1.timers out.1 → V1.owner timer = group.1 →
     timer = V1.timerOf changesSummary group).
Proof.
  intros Hinv Hnd out. unfold out. clear out.
  destruct (V1_executeChangesCallbacks_spec run mgr changesSummary Hinv)
    as (ran & Hran & Hts & _ & Hall & _).
  destruct Hinv as [_ Hkeys].
  set (approved := filter (λ group : string * TCallbackConfig.t,
                             V1.ownVerdict run changesSummary group.2 = true)
                          ran) in *.
  assert (∀ group, group ∈ approved →
            group ∈ callbacksByGroup (V1.registry mgr) ∧
            groupTriggered (V1.registry mgr) changesSummary group.1)
    as Happroved.
  { intros group [_ Hin]%list_elem_of_filter.
    apply (prefix_elem_of _ _ _ Hran) in Hin.
    apply list_elem_of_filter in Hin as [Htrig Hin].
    split; [done|]. by apply groupTriggeredb_spec. }
  assert (NoDup approved.*1) as Hnd'.
  { apply NoDup_fmap_filter.
    destruct Hran as [rest Hrest].
    assert (NoDup (ran ++ rest).*1) as Hall'.
    { rewrite <- Hrest. by apply NoDup_fmap_filter. }
    rewrite fmap_app in Hall'. by apply NoDup_app in Hall' as [? _]. }
  assert (V1.owner <$> map (V1.timerOf changesSummary) approved
          = approved.*1) as Howners.
  { clear. induction approved as [|[g cfg] l IH]; [done|].
    cbn [map]. rewrite !fmap_cons. by f_equal. }
  rewrite Hts. split; [|split].
  - rewrite fmap_app, Howners. apply NoDup_app. split; [|split; [|done]].
    + by apply NoDup_fmap_filter.
    + intros g (timer & -> & [Hg _]%list_elem_of_filter)%list_elem_of_fmap.
      done.
  - intros timer [[_ Hin]%list_elem_of_filter|Hin]%elem_of_app; [by left|].
    right. apply list_elem_of_fmap in Hin as ([g cfg] & -> & Hin).
    destruct (Happroved _ Hin) as [? ?]. by exists cfg.
  - intros Hret [g cfg] timer Hgroup [[Hfresh _]%list_elem_of_filter|Hin]%elem_of_app Hg.
    + exfalso. apply Hfresh. rewrite Hg. apply list_elem_of_fmap.
      exists (g, cfg). split; [done|].
      unfold approved. by rewrite (Hall Hret).
    + apply list_elem_of_fmap in Hin as ([g' cfg'] & -> & Hin).
      simpl in Hg. subst g'.
      destruct (Happroved _ Hin) as [Hin' _].
      assert ((g, cfg) ∈ callbacksByGroup (V1.registry mgr)) as Hin''.
      { unfold V1.scheduled in Hgroup.
        apply list_elem_of_filter in Hgroup as [_ Hgroup].
        by apply list_elem_of_filter in Hgroup as [_ Hgroup]. }
      apply (elem_Map_get _ _ _ Hkeys) in Hin', Hin''. simpl in *.
      congruence.
Qed.

Lemma V1_at_most_one_timer_per_group_witness :
  NoDup
    (V1.owner <$>
     V1.timers
       (V1.executeChangesCallbacks Scenario.verdicts V1.overlapping
          (getChangesSummary Scenario.bChanged)).1).
Proof.
  destruct (V1_at_most_one_timer_per_group Scenario.verdicts
              V1.overlapping (getChangesSummary Scenario.bChanged))
    as (Hnd & _).
  - apply (setCallbacksConfig_invariant
             (p_callbacks Scenario.overlappingParams)).
    vm_compute. reflexivity.
  - constructor.
  - exact Hnd.
Defined.

(** X18. In the first version [manageChanges] is not debounced: a call
    that returns gives the summary of the changes to its caller at
    once. A cycle in which no property changed is never processed, the
    manager and its timers are left as they were; and no call of
    [manageChanges] runs a handler or gives the re-render signal more
    than once, or at all when it throws. *)
Theorem V1_manageChanges_returns_summary run mgr simpleChanges :
  let out := V1.manageChanges run mgr simpleChanges in
  (∀ summary, result out.2 = Returns summary →
              summary = getChangesSummary simpleChanges) ∧
  (nothingChanged simpleChanges →
   out = (mgr, mret (getChangesSummary simpleChanges))) ∧
  (registryInvariant (V1.registry mgr) →
   handlersCalled (trace out.2) = [] ∧
   detectChangesCount (trace out.2)
     = match result out.2 with
       | Returns _ =>
           if existsb (λ '(_, c), didPropertyChange (Some c))
                      (map_to_list simpleChanges)
           then 1 else 0
       | Throws _ => 0
       end).
Proof.
  intros out. unfold out, V1.manageChanges. clear out.
  rewrite shouldProcessChanges_spec.
  destruct (existsb _ (map_to_list simpleChanges)) eqn:Hproc; cbn [negb].
  - destruct (V1.executeChangesCallbacks run mgr
                (getChangesSummary simpleChanges)) as [mgr' m] eqn:Hout.
    cbn [fst snd]. split; [|split].
    + intros summary (? & _ & [= <-])%bind_result_returns. done.
    + intros Hnone%nothingChanged_spec. congruence.
    + intros Hinv.
      destruct (V1_executeChangesCallbacks_spec run mgr
                  (getChangesSummary simpleChanges) Hinv)
        as (_ & _ & _ & _ & _ & Hh & Hd & _).
      rewrite Hout in Hh, Hd. cbn [snd] in Hh, Hd.
      unfold mbind, M_bind. destruct (result m) as [[]|e]; cbn [trace result];
        by rewrite ?app_nil_r.
  - cbn [fst snd]. split; [by intros summary [= <-]|]. split; [done|].
    done.
Qed.

(** ** The manual run with its validators *)

Lemma runHandler_validating run b entry :
  runHandler run false b entry = dispatchHandler run b entry.
Proof. by destruct entry. Qed.

Lemma forEach_runHandler_validating run b l :
  forEach (runHandler run false b) l = forEach (dispatchHandler run b) l.
Proof.
  induction l as [|entry l IH]; [done|]. cbn [forEach].
  by rewrite runHandler_validating, IH.
Qed.

(** X19. Without the flag, the manual run completes and calls every
    registered handler, in the order of first registration and each
    once, as soon as every registered group has a validator function
    that approves the batch of the manual run and a handler function
    that returns on it; it never gives the re-render signal. *)
Theorem executeCallbacks_runs_all_when_validators_approve run mgr :
  (∀ g cfg, (g, cfg) ∈ callbacksByGroup (registry mgr) →
            approves run (TCallbackConfig.validator cfg) (manualBatch mgr) ∧
            ∃ f r, TCallbackConfig.callback cfg = VFunction f ∧
                   run f (manualBatch mgr) = Returns r) →
  result (executeCallbacks run mgr None) = Returns tt ∧
  handlersCalled (trace (executeCallbacks run mgr None))
    = omap fnOf (registeredHandlers (registry mgr)) ∧
  detectChangesCount (trace (executeCallbacks run mgr None)) = 0.
Proof.
  intros Hgroups.
  pose proof (executeCallbacks_no_detectChanges run mgr None) as Hquiet.
  rewrite executeCallbacks_unfold in Hquiet |- *.
  cbn [from_option id] in Hquiet |- *.
  rewrite forEach_runHandler_validating in Hquiet |- *.
  rewrite <- collectAll_registeredHandlers.
  pose proof (collectAll_validators
                (λ v, approves run v (manualBatch mgr))
                (callbacksByGroup (registry mgr)) ([], [])) as Hvals.
  destruct (collectAll_keys (callbacksByGroup (registry mgr)) ([], []))
    as [Hnd Hkeys]; [constructor|].
  set (callbacks := (fold_left collectAll _ _).1) in *.
  assert (Forall (λ entry : value * list value,
                    result (validatorsApprove run entry.2 (manualBatch mgr))
                    = Returns true) callbacks) as Happrove.
  { apply Forall_forall. intros entry Hin. apply validatorsApprove_true.
    apply Hvals; [by intros ? ?%elem_of_nil| |done].
    intros g cfg Hg. destruct (Hgroups g cfg Hg) as [(f & r & Hf & ?) _].
    rewrite Hf. simpl. by exists f, r. }
  assert (result (forEach (dispatchHandler run (manualBatch mgr)) callbacks)
          = Returns tt) as Hret.
  { apply forEach_all_return, Forall_forall. intros [k vs] Hin.
    rewrite Forall_forall in Happrove.
    pose proof (Happrove _ Hin) as Hvs. cbn [snd] in Hvs.
    rewrite dispatchHandler_unfold, Hvs.
    assert (k ∈ callbacks.*1) as Hk.
    { apply list_elem_of_fmap. by exists (k, vs). }
    apply Hkeys in Hk as [?%elem_of_nil|(g & cfg & Hg & <-)]; [done|].
    destruct (Hgroups g cfg Hg) as [_ (f & r & -> & Hr)].
    simpl. by rewrite Hr. }
  split; [done|]. split; [by apply forEach_dispatch_all|done].
Qed.

Lemma executeCallbacks_runs_all_when_validators_approve_witness :
  result (executeCallbacks Scenario.verdicts
            (Scenario.built validatedParams) None) = Returns tt ∧
  handlersCalled
    (trace (executeCallbacks Scenario.verdicts
              (Scenario.built validatedParams) None))
    = omap fnOf (registeredHandlers (registry (Scenario.built validatedParams))) ∧
  detectChangesCount
    (trace (executeCallbacks Scenario.verdicts
              (Scenario.built validatedParams) None)) = 0.
Proof.
  apply (executeCallbacks_runs_all_when_validators_approve
           Scenario.verdicts (Scenario.built validatedParams)).
  intros g cfg Hin. registered_group Hin.
  - split; [by exists 2, (VBool true)|by exists 1, VUndefined].
  - split; [by exists 3, (VBool true)|by exists 6, VUndefined].
Defined.

(** ** The validators of a dispatch *)

Lemma Set_add_snoc {K} `{EqDecision K} (k : K) s :
  Set_add k s = if decide (k ∈ s) then s else s ++ [k].
Proof.
  induction s as [|k0 s IH]; cbn [Set_add].
  - by rewrite decide_False by (by intros ?%elem_of_nil).
  - destruct (decide (k = k0)) as [->|Hne].
    + rewrite decide_True; [done|left].
    + rewrite IH. destruct (decide (k ∈ s)) as [Hin|Hnotin].
      * rewrite decide_True; [done|by right].
      * rewrite decide_False; [done|]. by intros [?|?]%elem_of_cons.
Qed.

Lemma reduce_collectGroup_validators mgr b l acc agg k :
  (∀ g cfg, (g, cfg) ∈ l →
            is_Some (Map_get g (propertiesByGroup (registry mgr)))) →
  reduce (collectGroup mgr b) l acc = mret agg →
  default [] (Map_get k agg) =
  default [] (Map_get k acc) ++
  filter (λ v, v ∉ default [] (Map_get k acc))
         (firstOccurrences
            (map (λ group : string * TCallbackConfig.t,
                    canon (TCallbackConfig.validator group.2))
                 (filter (λ group : string * TCallbackConfig.t,
                            groupTriggeredb (registry mgr) b group.1 = true ∧
                            canon (TCallbackConfig.callback group.2) = k ∧
                            truthy (TCallbackConfig.validator group.2) = true)
                         l))).
Proof.
  revert acc. induction l as [|[g [cb val]] l IH]; intros acc Hreg.
  - intros [= <-]. simpl. by rewrite app_nil_r.
  - destruct (Hreg g (TCallbackConfig.mk cb val)) as [attrs Hattrs]; [left|].
    cbn [reduce]. rewrite (collectGroup_registered _ _ _ _ _ _ attrs) by done.
    rewrite ret_bind. intros Hred.
    assert (groupTriggeredb (registry mgr) b g = triggersb b attrs) as Hb.
    { unfold groupTriggeredb. by rewrite Hattrs. }
    rewrite (IH _ (λ g' cfg' Hin, Hreg g' cfg' (list_elem_of_further _ _ _ Hin))
               Hred).
    destruct (triggersb b attrs) eqn:Htrig;
      [|rewrite filter_cons_False; [done|]; simpl; rewrite Hb;
        by intros [? _]].
    rewrite Map_get_set. destruct (decide (k = canon cb)) as [->|Hk];
      [|rewrite filter_cons_False; [done|]; simpl; by intros (_ & ? & _)].
    destruct (truthy val) eqn:Hval;
      [|rewrite filter_cons_False; [done|]; simpl; rewrite Hval;
        by intros (_ & _ & ?)].
    rewrite filter_cons_True by (simpl; by rewrite Hb).
    cbn [map snd TCallbackConfig.validator from_option id].
    rewrite Set_add_snoc. apply firstOccurrences_step.
Qed.

Lemma validatorCalls_cons_validator f b tr :
  validatorCalls (EvValidator f b :: tr) = f :: validatorCalls tr.
Proof. done. Qed.

Lemma dispatchHandler_validatorCalls run b k vs :
  validatorCalls (trace (dispatchHandler run b (k, vs)))
  = validatorCalls (trace (validatorsApprove run vs b)).
Proof.
  rewrite dispatchHandler_unfold.
  destruct (result (validatorsApprove run vs b)) as [[]|e]; try done.
  destruct k as [| | | | | |f]; try done. cbn [trace].
  rewrite validatorCalls_app. simpl. by rewrite app_nil_r.
Qed.

(** The validators of one handler are consulted in order up to the
    first that does not approve, that one included when it can be
    called. *)
Lemma validatorsApprove_stops run vs b :
  (result (validatorsApprove run vs b) = Returns true ∧
   Forall (λ v, approves run v b) vs ∧
   validatorCalls (trace (validatorsApprove run vs b)) = omap fnOf vs) ∨
  (result (validatorsApprove run vs b) ≠ Returns true ∧
   ∃ ran v rest,
     vs = ran ++ v :: rest ∧
     Forall (λ v, approves run v b) ran ∧
     ¬ approves run v b ∧
     validatorCalls (trace (validatorsApprove run vs b))
       = omap fnOf ran ++ from_option (λ f, [f]) [] (fnOf v)).
Proof.
  induction vs as [|v vs IH].
  { left. split; [done|]. split; [constructor|done]. }
  rewrite validatorsApprove_cons.
  destruct v as [| | | | | |f]; cbn [trace result];
    try (right; split; [done|]; eexists [], _, vs;
         split; [done|]; split; [constructor|];
         split; [by intros (? & ? & ? & _)|done]).
  destruct (run f b) as [r|e] eqn:Hr; cbn [trace result].
  - destruct (truthy r) eqn:Htruthy; cbn [trace result];
      rewrite validatorCalls_cons_validator.
    + assert (approves run (VFunction f) b) as Hf
        by (apply approves_function; by exists r).
      destruct IH as [(Hres & Hall & ->)|(Hres & ran & v & rest & -> & Hran & Hv & ->)].
      * left. split; [done|]. split; [by constructor|done].
      * right. split; [done|]. exists (VFunction f :: ran), v, rest.
        split; [done|]. split; [by constructor|]. split; [done|done].
    + right. split; [done|]. exists [], (VFunction f), vs.
      split; [done|]. split; [constructor|]. split; [|done].
      intros (r' & Hr' & Ht)%approves_function. congruence.
  - rewrite validatorCalls_cons_validator.
    right. split; [done|]. exists [], (VFunction f), vs.
    split; [done|]. split; [constructor|]. split; [|done].
    intros (r' & Hr' & _)%approves_function. congruence.
Qed.

Lemma validatorCalls_concat {A} (f : A → M unit) l :
  validatorCalls (concat (map (λ x, trace (f x)) l))
  = concat (map (λ x, validatorCalls (trace (f x))) l).
Proof.
  induction l as [|x l IH]; [done|].
  cbn [map concat]. by rewrite validatorCalls_app, IH.
Qed.

(** X20. For each handler of a dispatch, the validators gathered are
    the validators of the triggered groups registered with that handler,
    in registration order and each once. They are consulted in that
    order: all of them when they all approve, and otherwise up to the
    first that does not approve and no further, that one being consulted
    when it is a function; the handler then does not run. The
    validators consulted in the cycle are those of the handlers that the
    dispatch reached, one handler after the other: all the handlers
    when the dispatch completes, and otherwise the handlers up to the
    one whose validator or handler threw. *)
Theorem dispatch_consults_validators_in_order run mgr changesSummary :
  consistent (registry mgr) →
  ∃ callbacks,
    getCallbacksWhichShouldBeExecuted mgr changesSummary = mret callbacks ∧
    (∀ k vs, (k, vs) ∈ callbacks →
       let consulted :=
         validatorCalls (trace (dispatchHandler run changesSummary (k, vs))) in
       vs = gatheredValidators (registry mgr) changesSummary k ∧
       NoDup vs ∧
       ((Forall (λ v, approves run v changesSummary) vs ∧
         consulted = omap fnOf vs) ∨
        (∃ ran v rest,
           vs = ran ++ v :: rest ∧
           Forall (λ v, approves run v changesSummary) ran ∧
           ¬ approves run v changesSummary ∧
           consulted = omap fnOf ran ++ from_option (λ f, [f]) [] (fnOf v) ∧
           handlersCalled
             (trace (dispatchHandler run changesSummary (k, vs))) = []))) ∧
    ∃ reached,
      reached `prefix_of` callbacks ∧
      validatorCalls (trace (executeChangesCallbacks run mgr changesSummary))
      = concat
          (map (λ entry,
                  validatorCalls
                    (trace (dispatchHandler run changesSummary entry)))
               reached) ∧
      (result (executeChangesCallbacks run mgr changesSummary) = Returns tt →
       reached = callbacks) ∧
      (∀ e, result (executeChangesCallbacks run mgr changesSummary)
              = Throws e →
            ∃ ran entry,
              reached = ran ++ [entry] ∧
              result (forEach (dispatchHandler run changesSummary) ran)
                = Returns tt ∧
              result (dispatchHandler run changesSummary entry) = Throws e).
Proof.
  intros Hcons.
  destruct (getCallbacksWhichShouldBeExecuted_spec mgr changesSummary Hcons)
    as (agg & Hagg & Hnd & _).
  exists agg. split; [done|]. split.
  - intros k vs Hin consulted. unfold consulted.
    assert (vs = gatheredValidators (registry mgr) changesSummary k) as Hvs.
    { apply (elem_Map_get _ _ _ Hnd) in Hin.
      pose proof (reduce_collectGroup_validators mgr changesSummary
                    (callbacksByGroup (registry mgr)) [] agg k) as Hval.
      rewrite Hin in Hval. cbn [from_option id Map_get app] in Hval.
      rewrite Hval; [|done|done].
      apply filter_all_true. intros v _. by intros ?%elem_of_nil. }
    split; [done|].
    split; [rewrite Hvs; apply firstOccurrences_NoDup|].
    rewrite dispatchHandler_validatorCalls, dispatchHandler_handlersCalled.
    destruct (validatorsApprove_stops run vs changesSummary)
      as [(_ & Hall & Hcalls)|(Hres & ran & v & rest & Hsplit & Hran & Hv & Hcalls)].
    + by left.
    + right. exists ran, v, rest. split; [done|]. split; [done|].
      split; [done|]. split; [done|].
      by destruct (result (validatorsApprove run vs changesSummary))
        as [[]|e].
  - rewrite (executeChangesCallbacks_unfold run _ _ agg) by done.
    cbn [trace result].
    destruct (result (forEach (dispatchHandler run changesSummary) agg))
      as [[]|e] eqn:Hres.
    + exists agg. split; [done|]. split; [|split; [done|done]].
      rewrite validatorCalls_app. simpl. rewrite app_nil_r.
      destruct (forEach_returns _ _ Hres) as [_ ->].
      apply validatorCalls_concat.
    + destruct (forEach_throws _ _ _ Hres)
        as (ran & entry & rest & -> & Hran & Hentry & ->).
      exists (ran ++ [entry]).
      split; [exists rest; by rewrite <- (assoc_L (++))|]. split.
      * rewrite app_nil_r, validatorCalls_app.
        destruct (forEach_returns _ _ Hran) as [_ ->].
        rewrite validatorCalls_concat, map_app, concat_app. simpl.
        by rewrite app_nil_r.
      * split; [done|]. intros e' [= <-]. by exists ran, entry.
Qed.

(** The first validator of the first handler rejects: the second is
    not consulted, the validator of the next handler is. *)
Lemma dispatch_consults_validators_in_order_witness :
  validatorCalls
    (trace (executeChangesCallbacks rejectingFirst
              (Scenario.built Scenario.overlappingParams)
              (getChangesSummary Scenario.bChanged)))
    = [2; 5].
Proof.
  destruct (dispatch_consults_validators_in_order rejectingFirst
              (Scenario.built Scenario.overlappingParams)
              (getChangesSummary Scenario.bChanged))
    as (callbacks & Hagg & _ & reached & _ & Hcalls & Hall & _).
  - apply built_consistent. eexists. vm_compute. reflexivity.
  - rewrite Hcalls, Hall by (vm_compute; reflexivity).
    vm_compute in Hagg. injection Hagg as <-. vm_compute. reflexivity.
Defined.
